(** * TasteNet-MNL (Data/phase8_tastenet_mnl.py): model, trainer and
      counterfactual engine

    Tensor entries are read as real numbers: rounding, overflow and
    underflow of IEEE arithmetic are outside the model.  The NaN that the
    program produces structurally (the mean of an empty tensor) is kept.  The
    losses of the training loop, which decide what the loop saves, are Python
    floats with their infinities and NaN.  Python's exceptions are kept: a
    shape mismatch in a torch operation, a batch of one row given to
    BatchNorm1d in train mode, an index out of range, a division of Python
    numbers by zero and a missing checkpoint file.

    Two-dimensional tensors carry their shape; entries are addressed by row
    and column.  Operations of torch are modelled by their documented meaning
    ([@], [cat], broadcasting [*] and [+], [log_softmax], [exp], advanced
    column indexing, [sum], [mean], [clone]).

    What torch computes inside its own modules is taken as given: the layers
    of the taste network are a function from a batch to one number per row,
    and the training step (autograd and Adam), the validation loss and the
    scheduler are parameters of the training loop.  The loop itself, the
    utilities of [forward] and the counterfactual engine are those of the
    file. *)

From Stdlib Require Import Reals Lra Lia List Bool Arith PeanoNat.
From Stdlib Require Import FunctionalExtensionality.
Import ListNotations.

Open Scope R_scope.

(* ------------------------------------------------------------------ *)
(** ** Exceptions and results *)

Inductive exn : Type :=
| RuntimeError        (* torch: sizes of tensors do not match *)
| ValueError          (* BatchNorm1d: one value per channel when training *)
| IndexError          (* torch: index out of range *)
| ZeroDivisionError   (* Python: division of numbers by zero *)
| FileNotFoundError   (* torch.load of a file that does not exist *)
| ReferenceError.     (* an address that holds no object *)

Inductive result (A : Type) : Type :=
| Ok (a : A)
| Raise (e : exn).

Arguments Ok {A} a.
Arguments Raise {A} e.

Definition bind {A B : Type} (r : result A) (k : A -> result B) : result B :=
  match r with
  | Ok a => k a
  | Raise e => Raise e
  end.

Notation "x <- e ;; k" := (bind e (fun x => k))
  (at level 61, e at next level, right associativity).
Notation "' pat <- e ;; k" := (bind e (fun x => match x with pat => k end))
  (at level 61, pat pattern, e at next level, right associativity).

(* ------------------------------------------------------------------ *)
(** ** Finite sums and maxima of real sequences *)

(** [big_sum f n] is f 0 + ... + f (n-1). *)
Fixpoint big_sum (f : nat -> R) (n : nat) : R :=
  match n with
  | O => 0
  | S k => big_sum f k + f k
  end.

(** [max_upto f n] is the largest of f 0, ..., f n. *)
Fixpoint max_upto (f : nat -> R) (n : nat) : R :=
  match n with
  | O => f O
  | S k => Rmax (max_upto f k) (f (S k))
  end.

(* ------------------------------------------------------------------ *)
(** ** Tensors *)

Record Tensor : Type := mkTensor {
  rows : nat;                   (* shape[0] *)
  cols : nat;                   (* shape[1] *)
  entry : nat -> nat -> R       (* t[i, j] *)
}.

(** torch.zeros(n, m) *)
Definition zeros (n m : nat) : Tensor := mkTensor n m (fun _ _ => 0).

(** A @ B *)
Definition matmul (A B : Tensor) : result Tensor :=
  if Nat.eqb (cols A) (rows B)
  then Ok (mkTensor (rows A) (cols B)
             (fun i j => big_sum (fun k => entry A i k * entry B k j) (cols A)))
  else Raise RuntimeError.

(** torch.cat([A, B], dim=1): the row counts must agree. *)
Definition cat_dim1 (A B : Tensor) : result Tensor :=
  if Nat.eqb (rows A) (rows B)
  then Ok (mkTensor (rows A) (cols A + cols B)
             (fun i j => if Nat.ltb j (cols A) then entry A i j
                         else entry B i (j - cols A)))
  else Raise RuntimeError.

(** Broadcasting of one dimension: equal sizes, or one of them is 1. *)
Definition broadcast_dim (a b : nat) : option nat :=
  if Nat.eqb a b then Some a
  else if Nat.eqb a 1 then Some b
  else if Nat.eqb b 1 then Some a
  else None.

(** The entry of [T] that a broadcast reads at position (i, j): a dimension
    of size 1 is repeated. *)
Definition bentry (T : Tensor) (i j : nat) : R :=
  entry T (if Nat.eqb (rows T) 1 then O else i)
          (if Nat.eqb (cols T) 1 then O else j).

Definition broadcast2 (op : R -> R -> R) (A B : Tensor) : result Tensor :=
  match broadcast_dim (rows A) (rows B), broadcast_dim (cols A) (cols B) with
  | Some n, Some m =>
      Ok (mkTensor n m (fun i j => op (bentry A i j) (bentry B i j)))
  | _, _ => Raise RuntimeError
  end.

(** A * B and A + B, elementwise with broadcasting. *)
Definition tmul : Tensor -> Tensor -> result Tensor := broadcast2 Rmult.
Definition tadd : Tensor -> Tensor -> result Tensor := broadcast2 Rplus.

(** torch.log_softmax(V, dim=1): the row maximum is subtracted before
    exponentiating, and the logarithm of the sum of the shifted exponentials
    is subtracted from the shifted entry. *)
Definition row_max (V : Tensor) (i : nat) : R :=
  max_upto (entry V i) (cols V - 1).

Definition log_softmax (V : Tensor) : Tensor :=
  mkTensor (rows V) (cols V)
    (fun i j =>
       (entry V i j - row_max V i)
       - ln (big_sum (fun k => exp (entry V i k - row_max V i)) (cols V))).

(** torch.exp *)
Definition texp (T : Tensor) : Tensor :=
  mkTensor (rows T) (cols T) (fun i j => exp (entry T i j)).

(* ------------------------------------------------------------------ *)
(** ** 1. TasteNet *)

(** The stack built by [TasteNet.__init__] (Linear, ReLU, BatchNorm1d and
    Dropout per hidden width, then Linear to [output_dim = 1]) is a torch
    module: it maps a batch of width [input_dim] to one number per row.
    [network training x i] is that number for row [i] of batch [x].  In
    eval mode ([training = false]) BatchNorm1d uses its running statistics
    and Dropout is off.  In train mode BatchNorm1d uses the statistics of the
    whole batch and Dropout draws random masks: [network true] is the
    function under the masks drawn for the call at hand, so that what is
    proved of one call in train mode holds whatever the masks, and nothing is
    said there of two calls. *)
Record TasteNet : Type := mkTasteNet {
  input_dim : nat;
  hidden_dims : list nat;
  network : bool -> Tensor -> nat -> R
}.

(** [TasteNet.forward]: the first Linear layer rejects a batch of the wrong
    width; in train mode a BatchNorm1d layer (there is one per hidden width)
    rejects a batch of a single row; the result has shape [batch, 1]. *)
Definition TasteNet_forward (tn : TasteNet) (training : bool) (x : Tensor)
  : result Tensor :=
  if negb (Nat.eqb (cols x) (input_dim tn)) then Raise RuntimeError
  else if training && negb (Nat.eqb (length (hidden_dims tn)) 0)
          && Nat.eqb (rows x) 1
  then Raise ValueError
  else Ok (mkTensor (rows x) 1 (fun i _ => network tn training x i)).

(* ------------------------------------------------------------------ *)
(** ** 2. TasteNet-MNL *)

Record TasteNetMNL : Type := mkTasteNetMNL {
  n_alternatives : nat;
  beta : Tensor;          (* [x_dim, n_alternatives - 1] *)
  delta : Tensor;         (* [z_dim, n_alternatives - 1] *)
  tastenet : TasteNet;
  training : bool         (* nn.Module.training, set by train() and eval() *)
}.

(** [TasteNetMNL.__init__]: [torch.randn(x_dim, n_alternatives - 1)] needs a
    non-negative size; the initial values [b0], [d0] and the network are
    what the random initialisation drew.  A new module is in train mode. *)
Definition TasteNetMNL_init (n_alt x_dim z_dim : nat)
    (tastenet_hidden : list nat)
    (b0 d0 : nat -> nat -> R) (net : bool -> Tensor -> nat -> R)
  : result TasteNetMNL :=
  match n_alt with
  | O => Raise RuntimeError
  | S k => Ok (mkTasteNetMNL n_alt (mkTensor x_dim k b0) (mkTensor z_dim k d0)
                 (mkTasteNet x_dim tastenet_hidden net) true)
  end.

(** What [__init__] establishes about the shapes of the parameters. *)
Definition model_shapes (m : TasteNetMNL) (x_dim z_dim : nat) : Prop :=
  (1 <= n_alternatives m)%nat /\
  rows (beta m) = x_dim /\ cols (beta m) = (n_alternatives m - 1)%nat /\
  rows (delta m) = z_dim /\ cols (delta m) = (n_alternatives m - 1)%nat /\
  input_dim (tastenet m) = x_dim.

(** Base utility from demographics, with the zero column of the base
    alternative in front. *)
Definition V_base (m : TasteNetMNL) (X : Tensor) : result Tensor :=
  V <- matmul X (beta m) ;;
  cat_dim1 (zeros (rows X) 1) V.

(** Infrastructure utility, with the zero column in front. *)
Definition V_infra (m : TasteNetMNL) (X Z : Tensor) : result Tensor :=
  V <- matmul Z (delta m) ;;
  cat_dim1 (zeros (rows X) 1) V.

(** Credit access effect: [gamma_i * credit_access * se_indicator]. *)
Definition V_credit (gamma_i credit_access se_indicator : Tensor)
  : result Tensor :=
  t <- tmul gamma_i credit_access ;;
  tmul t se_indicator.

(** Total utility [V] and the taste parameter [gamma_i], in the order in
    which [forward] computes them. *)
Definition utility (m : TasteNetMNL) (X Z credit_access se_indicator : Tensor)
  : result (Tensor * Tensor) :=
  Vb <- V_base m X ;;
  Vi <- V_infra m X Z ;;
  gamma_i <- TasteNet_forward (tastenet m) (training m) X ;;
  Vc <- V_credit gamma_i credit_access se_indicator ;;
  s <- tadd Vb Vi ;;
  V <- tadd s Vc ;;
  Ok (V, gamma_i).

(** [TasteNetMNL.forward]: log-probabilities and gamma_i. *)
Definition forward (m : TasteNetMNL) (X Z credit_access se_indicator : Tensor)
  : result (Tensor * Tensor) :=
  ' (V, gamma_i) <- utility m X Z credit_access se_indicator ;;
  Ok (log_softmax V, gamma_i).

(** [TasteNetMNL.predict_proba] *)
Definition TasteNetMNL_predict_proba (m : TasteNetMNL)
    (X Z credit_access se_indicator : Tensor) : result Tensor :=
  ' (log_probs, _) <- forward m X Z credit_access se_indicator ;;
  Ok (texp log_probs).

(** [nn.Module.eval] and [nn.Module.train] switch the mode and nothing else. *)
Definition TasteNetMNL_eval (m : TasteNetMNL) : TasteNetMNL :=
  mkTasteNetMNL (n_alternatives m) (beta m) (delta m) (tastenet m) false.

Definition TasteNetMNL_train (m : TasteNetMNL) : TasteNetMNL :=
  mkTasteNetMNL (n_alternatives m) (beta m) (delta m) (tastenet m) true.

(* ------------------------------------------------------------------ *)
(** ** 3. Training loop *)

(** A Python float that holds a loss: [loss.item()], the sums and means of
    such values, and [best_val_loss].  Besides the real numbers it can be an
    infinity or NaN, as a loss taken from log-probabilities can be.
    [best_val_loss] is [float('inf')] until an epoch has improved on it. *)
Inductive loss_float : Type :=
| Finite (v : R)
| Infinity          (* float('inf') *)
| NegInfinity
| NaN.

Coercion Finite : R >-> loss_float.

(** [a + b] on floats. *)
Definition loss_add (a b : loss_float) : loss_float :=
  match a, b with
  | NaN, _ | _, NaN => NaN
  | Finite x, Finite y => Finite (x + y)
  | Infinity, NegInfinity | NegInfinity, Infinity => NaN
  | Infinity, _ | _, Infinity => Infinity
  | NegInfinity, _ | _, NegInfinity => NegInfinity
  end.

(** [val_loss < best_val_loss]: every comparison with NaN is False, and
    nothing is below minus infinity or above infinity. *)
Definition lt_bound (val_loss best : loss_float) : bool :=
  match val_loss, best with
  | NaN, _ | _, NaN => false
  | Finite a, Finite b => if Rlt_dec a b then true else false
  | Finite _, Infinity => true
  | Finite _, NegInfinity => false
  | Infinity, _ => false
  | NegInfinity, NegInfinity => false
  | NegInfinity, _ => true
  end.

(** Python's [total / len(loader)]: a division by 0 raises, whatever the
    dividend. *)
Definition div_len (total : loss_float) (n : nat) : result loss_float :=
  match n with
  | O => Raise ZeroDivisionError
  | S _ => Ok (match total with
               | Finite v => Finite (v / INR n)
               | other => other
               end)
  end.

Section Trainer.

(** What torch supplies to the loop. *)
Variable StateDict : Type.   (* model.state_dict(): parameters and buffers *)
Variable Optimizer : Type.   (* Adam with its scheduler: moments, learning rate;
                                with it, torch's random generator *)
Variable Batch : Type.       (* (X, Z, credit, se_ind, y) *)

(** optim.Adam(model.parameters(), lr, weight_decay) and its
    ReduceLROnPlateau scheduler. *)
Variable new_optimizer : R -> Optimizer.

(** One training batch in train mode: zero_grad, forward, NLLLoss, backward,
    optimizer.step; the updated parameters and optimizer, and loss.item(). *)
Variable train_batch :
  StateDict -> Optimizer -> Batch
  -> result (StateDict * Optimizer * loss_float).

(** One validation batch in eval mode under no_grad: forward, NLLLoss,
    loss.item(). *)
Variable val_batch : StateDict -> Batch -> result loss_float.

(** scheduler.step(val_loss) *)
Variable scheduler_step : Optimizer -> loss_float -> Optimizer.

(** The model object: its parameters and its mode flag. *)
Record Module : Type := mkModule {
  state_dict : StateDict;
  module_training : bool
}.

(** model.load_state_dict(sd) *)
Definition load_state_dict (model : Module) (sd : StateDict) : Module :=
  mkModule sd (module_training model).

(** torch.load('best_tastenet_mnl.pt'): the file may be absent. *)
Definition torch_load (file : option StateDict) : result StateDict :=
  match file with
  | Some sd => Ok sd
  | None => Raise FileNotFoundError
  end.

(** for X, Z, credit, se_ind, y in train_loader: ... train_loss += loss.item() *)
Fixpoint train_batches (sd : StateDict) (opt : Optimizer)
    (loader : list Batch) (train_loss : loss_float)
  : result (StateDict * Optimizer * loss_float) :=
  match loader with
  | [] => Ok (sd, opt, train_loss)
  | b :: rest =>
      ' (sd', opt', loss) <- train_batch sd opt b ;;
      train_batches sd' opt' rest (loss_add train_loss loss)
  end.

(** for X, Z, credit, se_ind, y in val_loader: ... val_loss += loss.item() *)
Fixpoint val_batches (sd : StateDict) (loader : list Batch)
    (val_loss : loss_float) : result loss_float :=
  match loader with
  | [] => Ok val_loss
  | b :: rest =>
      loss <- val_batch sd b ;;
      val_batches sd rest (loss_add val_loss loss)
  end.

(** The training and validation phases of one epoch, up to the scheduler
    step: the parameters and optimizer after the epoch and its [val_loss]. *)
Definition epoch_phases (train_loader val_loader : list Batch)
    (sd : StateDict) (opt : Optimizer)
  : result (StateDict * Optimizer * loss_float) :=
  ' (sd', opt', train_loss) <- train_batches sd opt train_loader 0 ;;
  val_loss <- val_batches sd' val_loader 0 ;;
  train_loss <- div_len train_loss (length train_loader) ;;
  val_loss <- div_len val_loss (length val_loader) ;;
  Ok (sd', scheduler_step opt' val_loss, val_loss).

(** The variables of the loop and the checkpoint file. *)
Record TrainState : Type := mkTrainState {
  st_model : Module;
  optimizer : Optimizer;
  best_val_loss : loss_float;
  patience_counter : nat;
  checkpoint : option StateDict    (* 'best_tastenet_mnl.pt' *)
}.

(** The body of the loop over epochs; the flag says whether it breaks. *)
Definition epoch_body (train_loader val_loader : list Batch) (st : TrainState)
  : result (TrainState * bool) :=
  ' (sd, opt, val_loss) <-
      epoch_phases train_loader val_loader (state_dict (st_model st))
        (optimizer st) ;;
  let model := mkModule sd false in      (* left in eval mode *)
  (* Early stopping *)
  if lt_bound val_loss (best_val_loss st)
  then Ok (mkTrainState model opt val_loss O (Some sd), false)
  else
    let patience_counter := S (patience_counter st) in
    Ok (mkTrainState model opt (best_val_loss st) patience_counter
          (checkpoint st),
        Nat.leb 20 patience_counter).

(** for epoch in range(epochs), with [n] epochs left. *)
Fixpoint epochs_loop (train_loader val_loader : list Batch) (n : nat)
    (st : TrainState) : result TrainState :=
  match n with
  | O => Ok st
  | S k =>
      ' (st', stop) <- epoch_body train_loader val_loader st ;;
      if stop then Ok st' else epochs_loop train_loader val_loader k st'
  end.

(** [train_tastenet_mnl]; [file] is the checkpoint file as the run finds it,
    and the result carries the file as the run leaves it. *)
Definition train_tastenet_mnl (model : Module) (file : option StateDict)
    (train_loader val_loader : list Batch) (epochs : nat) (lr : R)
  : result (Module * option StateDict) :=
  st <- epochs_loop train_loader val_loader epochs
          (mkTrainState model (new_optimizer lr) Infinity O file) ;;
  (* Load best model *)
  sd <- torch_load (checkpoint st) ;;
  Ok (load_state_dict (st_model st) sd, checkpoint st).

(** The parameters after each of the first [n] epochs and the validation
    loss of each, when all of them run to their end. *)
Fixpoint history (train_loader val_loader : list Batch) (n : nat)
    (sd : StateDict) (opt : Optimizer)
  : result (list (StateDict * loss_float)) :=
  match n with
  | O => Ok []
  | S k =>
      ' (sd', opt', val_loss) <- epoch_phases train_loader val_loader sd opt ;;
      rest <- history train_loader val_loader k sd' opt' ;;
      Ok ((sd', val_loss) :: rest)
  end.

End Trainer.

Arguments mkModule {StateDict} _ _.
Arguments state_dict {StateDict} _.
Arguments module_training {StateDict} _.
Arguments mkTrainState {StateDict Optimizer} _ _ _ _ _.
Arguments st_model {StateDict Optimizer} _.
Arguments optimizer {StateDict Optimizer} _.
Arguments best_val_loss {StateDict Optimizer} _.
Arguments patience_counter {StateDict Optimizer} _.
Arguments checkpoint {StateDict Optimizer} _.
Arguments load_state_dict {StateDict} _ _.
Arguments torch_load {StateDict} _.

(* ------------------------------------------------------------------ *)
(** ** 5. Counterfactual analysis *)

(** A Python float obtained by [.item()]: a real number, or the NaN that
    [mean] gives on an empty tensor. *)
Inductive pyfloat : Type :=
| PyFloat (r : R)
| PyNaN.

Definition py_sub (a b : pyfloat) : pyfloat :=
  match a, b with
  | PyFloat x, PyFloat y => PyFloat (x - y)
  | _, _ => PyNaN
  end.

Definition py_mul (a b : pyfloat) : pyfloat :=
  match a, b with
  | PyFloat x, PyFloat y => PyFloat (x * y)
  | _, _ => PyNaN
  end.

(** Python's [a / b] on floats raises when the divisor is zero. *)
Definition py_div (a b : pyfloat) : result pyfloat :=
  match b with
  | PyFloat y =>
      if Req_dec_T y 0 then Raise ZeroDivisionError
      else match a with
           | PyFloat x => Ok (PyFloat (x / y))
           | PyNaN => Ok PyNaN
           end
  | PyNaN => Ok PyNaN
  end.

(** A one-dimensional tensor, as [sum(dim=1)] returns. *)
Record Tensor1 : Type := mkTensor1 {
  len : nat;
  item1 : nat -> R
}.

(** Indexing with a list of column indices checks an index when it reads or
    writes an element through it: on a tensor without rows no element is
    touched and nothing is checked. *)
Definition in_range (T : Tensor) (idx : list nat) : bool :=
  Nat.eqb (rows T) 0 || forallb (fun j => Nat.ltb j (cols T)) idx.

(** t[:, idx] for a list of column indices. *)
Definition index_cols (T : Tensor) (idx : list nat) : result Tensor :=
  if in_range T idx
  then Ok (mkTensor (rows T) (length idx) (fun i k => entry T i (nth k idx O)))
  else Raise IndexError.

(** t.sum(dim=1) *)
Definition sum_dim1 (T : Tensor) : Tensor1 :=
  mkTensor1 (rows T) (fun i => big_sum (entry T i) (cols T)).

(** v.mean().item() *)
Definition mean_item (v : Tensor1) : pyfloat :=
  match len v with
  | O => PyNaN
  | S _ => PyFloat (big_sum (item1 v) (len v) / INR (len v))
  end.

(** t.clone(): a new tensor with the same shape and entries. *)
Definition clone (T : Tensor) : Tensor :=
  mkTensor (rows T) (cols T) (entry T).

(** t[:, idx] *= k, for distinct column indices. *)
Definition imul_cols (T : Tensor) (idx : list nat) (k : R) : result Tensor :=
  if in_range T idx
  then Ok (mkTensor (rows T) (cols T)
             (fun i j => if existsb (Nat.eqb j) idx then entry T i j * k
                         else entry T i j))
  else Raise IndexError.

(** What [counterfactual_analysis] asks of its [model] argument. *)
Class ChoiceModel (M : Type) : Type := {
  eval : M -> M;
  predict_proba : M -> Tensor -> Tensor -> Tensor -> Tensor -> result Tensor
}.

#[export] Instance TasteNetMNL_ChoiceModel : ChoiceModel TasteNetMNL := {
  eval := TasteNetMNL_eval;
  predict_proba := TasteNetMNL_predict_proba
}.

Definition se_alts : list nat := [1; 4; 7]%nat.       (* SE alternatives *)
Definition branch_alts : list nat := [6; 7; 8]%nat.   (* Branch alternatives *)

(** probs[:, se_alts].sum(dim=1).mean().item() *)
Definition se_rate (probs : Tensor) : result pyfloat :=
  sel <- index_cols probs se_alts ;;
  Ok (mean_item (sum_dim1 sel)).

(** The counterfactual credit tensor: a clone of [credit_access] with the
    branch columns scaled in place. *)
Definition credit_cf (credit_access : Tensor) (closure_rate : R)
  : result Tensor :=
  imul_cols (clone credit_access) branch_alts (1 - closure_rate).

(** (se_rate_cf - se_rate_base) / se_rate_base * 100 *)
Definition effect (se_rate_cf se_rate_base : pyfloat) : result pyfloat :=
  q <- py_div (py_sub se_rate_cf se_rate_base) se_rate_base ;;
  Ok (py_mul q (PyFloat 100)).

Section Counterfactual.
Context {M : Type} `{ChoiceModel M}.

Definition counterfactual_analysis (model : M)
    (X Z credit_access se_indicator : Tensor) (closure_rate : R)
  : result (pyfloat * pyfloat * pyfloat) :=
  let model := eval model in
  (* Baseline *)
  probs_base <- predict_proba model X Z credit_access se_indicator ;;
  se_rate_base <- se_rate probs_base ;;
  (* Counterfactual: reduce branch credit access *)
  cf <- credit_cf credit_access closure_rate ;;
  probs_cf <- predict_proba model X Z cf se_indicator ;;
  se_rate_cf <- se_rate probs_cf ;;
  eff <- effect se_rate_cf se_rate_base ;;
  Ok (se_rate_base, se_rate_cf, eff).
End Counterfactual.

(* ------------------------------------------------------------------ *)
(** ** Tensors as objects

    The functions above take tensors by value.  To follow which tensor
    object a statement writes to, the same engine is given over a store of
    tensor objects: a caller's tensor is an address, an out-of-place torch
    operation allocates its result, [clone] allocates a copy, and [*=] on an
    indexed tensor overwrites the object it is applied to. *)

Definition loc : Type := nat.
Definition store : Type := list Tensor.

Definition St (A : Type) : Type := store -> result (A * store).

Definition ret {A : Type} (a : A) : St A := fun s => Ok (a, s).

Definition bindS {A B : Type} (c : St A) (k : A -> St B) : St B :=
  fun s => match c s with
           | Ok (a, s') => k a s'
           | Raise e => Raise e
           end.

Notation "x <~ c ;; k" := (bindS c (fun x => k))
  (at level 61, c at next level, right associativity).
Notation "' pat <~ c ;; k" := (bindS c (fun x => match x with pat => k end))
  (at level 61, pat pattern, c at next level, right associativity).

Definition lift {A : Type} (r : result A) : St A :=
  fun s => match r with
           | Ok a => Ok (a, s)
           | Raise e => Raise e
           end.

(** A new object, at the next free address. *)
Definition new (t : Tensor) : St loc :=
  fun s => Ok (length s, s ++ [t]).

(** The tensor at an address (every reference of a Python program is to a
    live object; an address outside the store is refused). *)
Definition load (l : loc) : St Tensor :=
  fun s => match nth_error s l with
           | Some t => Ok (t, s)
           | None => Raise ReferenceError
           end.

Fixpoint update (s : store) (l : loc) (t : Tensor) : store :=
  match s, l with
  | [], _ => []
  | _ :: rest, O => t :: rest
  | t0 :: rest, S k => t0 :: update rest k t
  end.

(** Overwrite the object at an address. *)
Definition write (l : loc) (t : Tensor) : St unit :=
  fun s => if Nat.ltb l (length s) then Ok (tt, update s l t)
           else Raise ReferenceError.

(** The model object: its parameters are tensor objects of the store. *)
Record TasteNetMNL_obj : Type := mkTasteNetMNL_obj {
  obj_n_alternatives : nat;
  obj_beta : loc;
  obj_delta : loc;
  obj_tastenet : TasteNet;
  obj_training : bool
}.

(** The model as a value, with the parameters that the store holds. *)
Definition deref (m : TasteNetMNL_obj) : St TasteNetMNL :=
  b <~ load (obj_beta m) ;;
  d <~ load (obj_delta m) ;;
  ret (mkTasteNetMNL (obj_n_alternatives m) b d (obj_tastenet m)
         (obj_training m)).

(** model.eval() *)
Definition obj_eval (m : TasteNetMNL_obj) : TasteNetMNL_obj :=
  mkTasteNetMNL_obj (obj_n_alternatives m) (obj_beta m) (obj_delta m)
    (obj_tastenet m) false.

(** [forward] reads its arguments and the parameters; each of its torch
    operations is out of place, and its two results are new objects. *)
Definition forward_st (m : TasteNetMNL_obj)
    (X Z credit_access se_indicator : loc) : St (loc * loc) :=
  x <~ load X ;;
  z <~ load Z ;;
  c <~ load credit_access ;;
  s <~ load se_indicator ;;
  mv <~ deref m ;;
  ' (log_probs, gamma_i) <~ lift (forward mv x z c s) ;;
  p <~ new log_probs ;;
  g <~ new gamma_i ;;
  ret (p, g).

Definition predict_proba_st (m : TasteNetMNL_obj)
    (X Z credit_access se_indicator : loc) : St loc :=
  ' (log_probs, _) <~ forward_st m X Z credit_access se_indicator ;;
  lp <~ load log_probs ;;
  new (texp lp).

(** probs[:, se_alts].sum(dim=1).mean().item() *)
Definition se_rate_st (probs : loc) : St pyfloat :=
  p <~ load probs ;;
  lift (se_rate p).

(** t.clone() *)
Definition clone_st (t : loc) : St loc :=
  T <~ load t ;;
  new (clone T).

(** t[:, idx] *= k: the object at [t] is overwritten. *)
Definition imul_cols_st (t : loc) (idx : list nat) (k : R) : St unit :=
  T <~ load t ;;
  T' <~ lift (imul_cols T idx k) ;;
  write t T'.

(** [counterfactual_analysis] over the store; the model is returned as the
    call leaves it. *)
Definition counterfactual_analysis_st (model : TasteNetMNL_obj)
    (X Z credit_access se_indicator : loc) (closure_rate : R)
  : St (TasteNetMNL_obj * (pyfloat * pyfloat * pyfloat)) :=
  let model := obj_eval model in
  (* Baseline *)
  probs_base <~ predict_proba_st model X Z credit_access se_indicator ;;
  se_rate_base <~ se_rate_st probs_base ;;
  (* Counterfactual: reduce branch credit access *)
  cf <~ clone_st credit_access ;;
  _ <~ imul_cols_st cf branch_alts (1 - closure_rate) ;;
  probs_cf <~ predict_proba_st model X Z cf se_indicator ;;
  se_rate_cf <~ se_rate_st probs_cf ;;
  eff <~ lift (effect se_rate_cf se_rate_base) ;;
  ret (model, (se_rate_base, se_rate_cf, eff)).

(* ------------------------------------------------------------------ *)
(** ** 6. The synthetic demonstration of the main script *)

(** t[:, lo:hi] = v *)
Definition set_col_range (T : Tensor) (lo hi : nat) (v : R) : Tensor :=
  mkTensor (rows T) (cols T)
    (fun i j => if Nat.leb lo j && Nat.ltb j hi then v else entry T i j).

(** t[:, idx] = v *)
Definition set_col_list (T : Tensor) (idx : list nat) (v : R) : Tensor :=
  mkTensor (rows T) (cols T)
    (fun i j => if existsb (Nat.eqb j) idx then v else entry T i j).

Module Main.

Definition n_obs : nat := 100 * 100.
Definition x_dim : nat := 5.
Definition z_dim : nat := 2.
Definition n_alternatives : nat := 9.

(** Credit access: higher for branch alternatives. *)
Definition credit_access (n : nat) : Tensor :=
  set_col_range (set_col_range (zeros n n_alternatives) 6 9 1) 3 6 (3 / 10).

(** SE indicator *)
Definition se_indicator (n : nat) : Tensor :=
  set_col_list (zeros n n_alternatives) [1; 4; 7]%nat 1.

End Main.

(** A tensor given by its rows, for small examples. *)
Definition tensor_of (l : list (list R)) : Tensor :=
  mkTensor (length l) (length (hd [] l)) (fun i j => nth j (nth i l []) 0).

(* ------------------------------------------------------------------ *)
(** ** Small instances *)

(** Three alternatives, two covariates, one infrastructure attribute; the
    taste network is a single Linear layer (no hidden layer) with weights
    (1, 0) and bias 0. *)
Definition small_model : TasteNetMNL :=
  mkTasteNetMNL 3 (tensor_of [[1; 0]; [0; 1]]) (tensor_of [[1; -1]])
    (mkTasteNet 2 [] (fun _ x i => entry x i 0)) false.

Definition small_X : Tensor := tensor_of [[1; 2]; [0; 1]].
Definition small_Z : Tensor := tensor_of [[1]; [2]].
Definition small_credit : Tensor := tensor_of [[0; 1; 1]; [0; 1; 1]].
Definition small_se : Tensor := tensor_of [[0; 1; 0]; [0; 1; 0]].

(** Two alternatives, one covariate, one infrastructure attribute, zero
    beta and delta, and a taste network whose last layer has zero weights
    and bias [g]: gamma_i = g for every individual. *)
Definition constant_model (g : R) : TasteNetMNL :=
  mkTasteNetMNL 2 (tensor_of [[0]]) (tensor_of [[0]])
    (mkTasteNet 1 [32; 16]%nat (fun _ _ _ => g)) false.

(* ------------------------------------------------------------------ *)
(** ** Notions used in the statements *)

(** The part of the utility that does not involve credit access:
    V_base + V_infra. *)
Definition linear_utility (m : TasteNetMNL) (X Z : Tensor) : result Tensor :=
  Vb <- V_base m X ;;
  Vi <- V_infra m X Z ;;
  tadd Vb Vi.

(** The probability that a row of nine utilities gives to the
    self-employment alternatives 1, 4 and 7. *)
Definition se_share (v : nat -> R) : R :=
  (exp (v 1%nat) + exp (v 4%nat) + exp (v 7%nat))
  / big_sum (fun k => exp (v k)) 9.

(** The model of the main script (nine alternatives, five covariates, two
    infrastructure attributes) with zero beta and delta and a taste network
    whose last layer has zero weights and bias [g]. *)
Definition synthetic_model (g : R) : TasteNetMNL :=
  mkTasteNetMNL Main.n_alternatives
    (zeros Main.x_dim 8) (zeros Main.z_dim 8)
    (mkTasteNet Main.x_dim [32; 16]%nat (fun _ _ _ => g)) true.

(** The mean over [n] individuals of the self-employment share of their
    utilities. *)
Definition mean_se_share (V : Tensor) (n : nat) : R :=
  big_sum (fun i => se_share (entry V i)) n / INR n.

(** A model whose probabilities are all on alternative 0, as float32
    leaves a softmax when every other utility lies far below that of
    alternative 0 (exp underflows to 0.0 and the rest rounds to 1.0). *)
Definition underflow_model : ChoiceModel unit := {|
  eval := fun u => u;
  predict_proba := fun _ X _ _ _ =>
    Ok (mkTensor (rows X) 9 (fun _ j => if Nat.eqb j 0 then 1 else 0))
|}.

(** A toy instance of the torch parts of the trainer: the parameters are
    the number of optimizer steps taken so far, every training batch has
    loss 1, and the validation loss of a batch is 3, 1, 2 after one, two and
    three steps. *)
Definition toy_train_batch (sd : nat) (opt : unit) (b : unit)
  : result (nat * unit * loss_float) := Ok (S sd, opt, Finite 1).

Definition toy_val_batch (sd : nat) (b : unit) : result loss_float :=
  Ok (Finite (match sd with
              | 1%nat => 3
              | 2%nat => 1
              | 3%nat => 2
              | _ => 0
              end)).

Definition toy_train (model : Module nat) (file : option nat)
    (train_loader val_loader : list unit) (epochs : nat)
  : result (Module nat * option nat) :=
  train_tastenet_mnl nat unit unit (fun _ => tt) toy_train_batch toy_val_batch
    (fun opt _ => opt) model file train_loader val_loader epochs (1 / 1000).

(** Epoch [b] of the history [h], with parameters [sd] and validation loss
    [v], improves on [best]; no epoch of [h] has a loss below [v]; and
    every earlier epoch has a loss above [v], or NaN. *)
Definition improves {StateDict : Type} (best : loss_float)
    (h : list (StateDict * loss_float)) (b : nat) (sd : StateDict)
    (v : loss_float) : Prop :=
  nth_error h b = Some (sd, v) /\ lt_bound v best = true /\
  (forall e sd' v', nth_error h e = Some (sd', v') ->
                    lt_bound v' v = false) /\
  (forall e sd' v', (e < b)%nat -> nth_error h e = Some (sd', v') ->
                    lt_bound v v' = true \/ v' = NaN).

(** The store [s'] holds the objects of [s] unchanged, and new ones. *)
Definition extends (s s' : store) : Prop := exists fresh, s' = s ++ fresh.

(** A second toy instance: the validation loss of a batch is 1 whatever the
    parameters, so that no epoch after the first improves. *)
Definition flat_val_batch (sd : nat) (b : unit) : result loss_float :=
  Ok (Finite 1).

(** A third toy instance: the validation loss of every batch is NaN. *)
Definition nan_val_batch (sd : nat) (b : unit) : result loss_float := Ok NaN.

Definition nan_train (model : Module nat) (file : option nat)
    (train_loader val_loader : list unit) (epochs : nat)
  : result (Module nat * option nat) :=
  train_tastenet_mnl nat unit unit (fun _ => tt) toy_train_batch nan_val_batch
    (fun opt _ => opt) model file train_loader val_loader epochs (1 / 1000).

Definition flat_train (model : Module nat) (file : option nat)
    (train_loader val_loader : list unit) (epochs : nat)
  : result (Module nat * option nat) :=
  train_tastenet_mnl nat unit unit (fun _ => tt) toy_train_batch flat_val_batch
    (fun opt _ => opt) model file train_loader val_loader epochs (1 / 1000).

(* ------------------------------------------------------------------ *)
(** ** The layers of the taste network

    [TasteNet.__init__] builds an [nn.Sequential] of Linear, ReLU,
    BatchNorm1d and Dropout modules.  A layer is given with its parameters
    and buffers.  Its forward pass is given in eval mode, where BatchNorm1d
    normalises with its running statistics and Dropout is the identity; the
    train mode (batch statistics, updates of the running statistics, random
    masks) stays behind [network true] above. *)

Inductive Layer : Type :=
| Linear (in_features out_features : nat)
         (weight : nat -> nat -> R)          (* [out_features, in_features] *)
         (bias : nat -> R)
| ReLU
| BatchNorm1d (num_features : nat)
              (running_mean running_var : nat -> R)
              (bn_weight bn_bias : nat -> R)
| Dropout (p : R).

(** The default [eps] of BatchNorm1d. *)
Definition bn_eps : R := 1 / 100000.

(** The forward pass of one layer in eval mode on a batch [x]. *)
Definition Layer_forward (l : Layer) (x : Tensor) : result Tensor :=
  match l with
  | Linear in_features out_features weight bias =>
      (* x @ weight.T + bias *)
      if Nat.eqb (cols x) in_features
      then Ok (mkTensor (rows x) out_features
                 (fun i o =>
                    big_sum (fun c => entry x i c * weight o c) in_features
                    + bias o))
      else Raise RuntimeError
  | ReLU =>
      Ok (mkTensor (rows x) (cols x) (fun i j => Rmax 0 (entry x i j)))
  | BatchNorm1d num_features running_mean running_var bn_weight bn_bias =>
      if Nat.eqb (cols x) num_features
      then Ok (mkTensor (rows x) num_features
                 (fun i j =>
                    (entry x i j - running_mean j)
                    / sqrt (running_var j + bn_eps) * bn_weight j
                    + bn_bias j))
      else Raise RuntimeError
  | Dropout _ => Ok x
  end.

(** [nn.Sequential.forward]: the layers in order. *)
Fixpoint Sequential_forward (layers : list Layer) (x : Tensor)
  : result Tensor :=
  match layers with
  | [] => Ok x
  | l :: rest => y <- Layer_forward l x ;; Sequential_forward rest y
  end.

(** The four layers that one pass of the loop of [__init__] appends;
    [w] and [b] are what the initialisation of the Linear layer drew, and a
    new BatchNorm1d has running mean 0, running variance 1, weight 1 and
    bias 0. *)
Definition hidden_block (prev_dim hidden_dim : nat)
    (w : nat -> nat -> R) (b : nat -> R) : list Layer :=
  [Linear prev_dim hidden_dim w b;
   ReLU;
   BatchNorm1d hidden_dim (fun _ => 0) (fun _ => 1) (fun _ => 1) (fun _ => 0);
   Dropout (2 / 10)].

(** [TasteNet.__init__]: the list [layers] that is handed to
    [nn.Sequential].  [draw k] is the weight and bias drawn for the Linear
    layer at position [k] of the list. *)
Definition TasteNet_layers (draw : nat -> (nat -> nat -> R) * (nat -> R))
    (input_dim : nat) (hidden_dims : list nat) (output_dim : nat)
  : list Layer :=
  let '(layers, prev_dim) :=
    fold_left
      (fun '(layers, prev_dim) hidden_dim =>
         (layers ++ hidden_block prev_dim hidden_dim
                      (fst (draw (length layers)))
                      (snd (draw (length layers))),
          hidden_dim))
      hidden_dims ([], input_dim) in
  layers ++ [Linear prev_dim output_dim
               (fst (draw (length layers))) (snd (draw (length layers)))].

(** A stack of layers has the architecture of
    [TasteNet(input_dim, hidden_dims, output_dim)], whatever the values of
    its parameters; training changes the values and keeps the architecture.
    A running variance is a weighted mean of variances, hence not negative. *)
Fixpoint architecture (prev_dim : nat) (hidden_dims : list nat)
    (output_dim : nat) (layers : list Layer) : Prop :=
  match hidden_dims with
  | [] =>
      match layers with
      | [Linear n k _ _] => n = prev_dim /\ k = output_dim
      | _ => False
      end
  | hidden_dim :: rest =>
      match layers with
      | Linear n k _ _ :: ReLU :: BatchNorm1d d _ rv _ _ :: Dropout _ :: tl =>
          n = prev_dim /\ k = hidden_dim /\ d = hidden_dim /\
          (forall j, 0 <= rv j) /\
          architecture hidden_dim rest output_dim tl
      | _ => False
      end
  end.

(** The taste network of a model over a given stack of layers: in eval mode
    gamma is column 0 of what the stack returns. *)
Definition TasteNet_of (input_dim : nat) (hidden_dims : list nat)
    (layers : list Layer) (train_net : Tensor -> nat -> R) : TasteNet :=
  mkTasteNet input_dim hidden_dims
    (fun training x i =>
       if training then train_net x i
       else match Sequential_forward layers x with
            | Ok y => entry y i 0
            | Raise _ => 0
            end).

(** The rows of [P] are (sub-)probability vectors: no entry is negative
    and a row sums to at most 1. *)
Definition probabilities (P : Tensor) : Prop :=
  forall i, (i < rows P)%nat ->
    (forall j, (j < cols P)%nat -> 0 <= entry P i j) /\
    big_sum (entry P i) (cols P) <= 1.

(** Row [i] of [T] and row [i'] of [T'] hold the same numbers. *)
Definition same_row (T : Tensor) (i : nat) (T' : Tensor) (i' : nat) : Prop :=
  cols T = cols T' /\
  forall j, (j < cols T)%nat -> entry T i j = entry T' i' j.

(* ------------------------------------------------------------------ *)
(** ** Analysis of the learned taste heterogeneity *)

(** [t.numpy().flatten()]: the entries in row-major order. *)
Definition flatten (T : Tensor) : list R :=
  flat_map (fun i => map (entry T i) (seq 0 (cols T))) (seq 0 (rows T)).

(** [np.min] and [np.max]: numpy raises ValueError on an empty array. *)
Definition np_min (a : list R) : result R :=
  match a with
  | [] => Raise ValueError
  | x :: rest => Ok (fold_left Rmin rest x)
  end.

Definition np_max (a : list R) : result R :=
  match a with
  | [] => Raise ValueError
  | x :: rest => Ok (fold_left Rmax rest x)
  end.

(** [KMeans(n_clusters=k, random_state=42).fit_predict(a.reshape(-1, 1))]:
    sklearn wants at least [k] samples and raises ValueError otherwise.  The
    labels and centres that it finds are printed and not returned, and are
    left out here. *)
Definition kmeans_fit (k : nat) (a : list R) : result unit :=
  if Nat.ltb (length a) k then Raise ValueError else Ok tt.

(** for k in ks: KMeans(n_clusters=k, ...) ... *)
Fixpoint kmeans_loop (ks : list nat) (a : list R) : result unit :=
  match ks with
  | [] => Ok tt
  | k :: rest => _ <- kmeans_fit k a ;; kmeans_loop rest a
  end.

(** [analyze_taste_heterogeneity]: what it returns or raises.  The report
    that it prints is left out; of its statistics, the mean, the standard
    deviation and the percentiles raise nothing on the arrays that reach
    them (on an empty array numpy's mean and std give NaN with a warning,
    and [np.min] raises before the percentiles).  [feature_names] is not
    used by the source. *)
Definition analyze_taste_heterogeneity {F : Type} (model : TasteNetMNL)
    (X : Tensor) (feature_names : F) : result (list R) :=
  let model := TasteNetMNL_eval model in
  g <- TasteNet_forward (tastenet model) (training model) X ;;
  let gamma_i := flatten g in
  (* Distribution of learned coefficients *)
  _ <- np_min gamma_i ;;
  _ <- np_max gamma_i ;;
  (* Check for clustering *)
  _ <- kmeans_loop [2; 3; 4; 5]%nat gamma_i ;;
  Ok gamma_i.

(** [t.expand(n, -1)] for a tensor of one row: the row repeated [n] times. *)
Definition expand_rows (T : Tensor) (n : nat) : Tensor :=
  mkTensor n (cols T) (fun _ j => entry T 0 j).

(** A model with three alternatives and two covariates whose taste network
    is a stack with one hidden layer of width 2, as [__init__] makes it
    when every Linear weight drawn is 1 and every bias 0. *)
Definition unit_draw (k : nat) : (nat -> nat -> R) * (nat -> R) :=
  (fun _ _ => 1, fun _ => 0).

Definition stack_model : TasteNetMNL :=
  mkTasteNetMNL 3 (tensor_of [[1; 0]; [0; 1]]) (tensor_of [[1; -1]])
    (TasteNet_of 2 [2]%nat (TasteNet_layers unit_draw 2 [2]%nat 1)
       (fun _ _ => 0))
    false.

(* ================================================================== *)
(** * Properties *)

(** ** Sums and maxima *)

Lemma big_sum_ext (f g : nat -> R) (n : nat) :
  (forall k, (k < n)%nat -> f k = g k) -> big_sum f n = big_sum g n.
Proof.
  induction n as [|n IH]; intros E; simpl.
  - reflexivity.
  - rewrite IH by (intros k Hk; apply E; lia).
    rewrite (E n) by lia. reflexivity.
Qed.

Lemma big_sum_scale (c : R) (f : nat -> R) (n : nat) :
  big_sum (fun k => f k * c) n = big_sum f n * c.
Proof.
  induction n as [|n IH]; simpl.
  - ring.
  - rewrite IH. ring.
Qed.

Lemma big_sum_const (c : R) (n : nat) :
  big_sum (fun _ => c) n = INR n * c.
Proof.
  induction n as [|n IH].
  - simpl. ring.
  - rewrite S_INR. simpl. rewrite IH. ring.
Qed.

Lemma big_sum_pos (f : nat -> R) (n : nat) :
  (0 < n)%nat -> (forall k, (k < n)%nat -> 0 < f k) -> 0 < big_sum f n.
Proof.
  induction n as [|n IH]; intros Hn Hf.
  - lia.
  - simpl. destruct n as [|n'].
    + simpl. specialize (Hf O ltac:(lia)). lra.
    + assert (0 < big_sum f (S n')) by (apply IH; [lia | intros; apply Hf; lia]).
      specialize (Hf (S n') ltac:(lia)). lra.
Qed.

Lemma big_sum_le (f g : nat -> R) (n : nat) :
  (forall k, (k < n)%nat -> f k <= g k) -> big_sum f n <= big_sum g n.
Proof.
  induction n as [|n IH]; intros E; simpl.
  - lra.
  - assert (big_sum f n <= big_sum g n) by (apply IH; intros; apply E; lia).
    specialize (E n ltac:(lia)). lra.
Qed.

Lemma big_sum_lt (f g : nat -> R) (n : nat) :
  (0 < n)%nat -> (forall k, (k < n)%nat -> f k < g k) ->
  big_sum f n < big_sum g n.
Proof.
  induction n as [|n IH]; intros Hn E.
  - lia.
  - simpl. destruct n as [|n'].
    + simpl. specialize (E O ltac:(lia)). lra.
    + assert (big_sum f (S n') < big_sum g (S n'))
        by (apply IH; [lia | intros; apply E; lia]).
      specialize (E (S n') ltac:(lia)). lra.
Qed.

Lemma max_upto_ge (f : nat -> R) (n k : nat) :
  (k <= n)%nat -> f k <= max_upto f n.
Proof.
  induction n as [|n IH]; intros Hk; simpl.
  - replace k with O by lia. lra.
  - destruct (Nat.eq_dec k (S n)) as [->|Hne].
    + apply Rmax_r.
    + apply Rle_trans with (max_upto f n); [apply IH; lia | apply Rmax_l].
Qed.

Lemma max_upto_attained (f : nat -> R) (n : nat) :
  exists k, (k <= n)%nat /\ max_upto f n = f k.
Proof.
  induction n as [|n [k [Hk E]]]; simpl.
  - exists O. split; [lia | reflexivity].
  - destruct (Rle_dec (max_upto f n) (f (S n))) as [Hle|Hgt].
    + exists (S n). split; [lia | now rewrite Rmax_right].
    + exists k. split; [lia |]. rewrite Rmax_left by lra. exact E.
Qed.

(** ** Results *)

Lemma bind_ok {A B : Type} (r : result A) (k : A -> result B) (b : B) :
  bind r k = Ok b -> exists a, r = Ok a /\ k a = Ok b.
Proof.
  destruct r as [a|e]; simpl; intros E.
  - exists a. split; [reflexivity | exact E].
  - discriminate.
Qed.

(** Splits a successful chain of binds into its steps. *)
Ltac bind_inv H :=
  repeat match type of H with
         | bind _ _ = Ok _ =>
             let a := fresh "a" in
             let Ha := fresh "Ha" in
             apply bind_ok in H; destruct H as [a [Ha H]]
         | (match ?p with (_, _) => _ end) = Ok _ => destruct p
         end.

(** ** log_softmax *)

Section LogSoftmax.
Variable V : Tensor.
Variable i : nat.
Hypothesis Hcols : cols V <> O.

Let shifted (k : nat) : R := exp (entry V i k - row_max V i).
Let total : R := big_sum shifted (cols V).

Lemma softmax_total_pos : 0 < total.
Proof.
  apply big_sum_pos; [lia | intros; apply exp_pos].
Qed.

(** The exponential of a log-probability is the shifted exponential over
    the row's total. *)
Lemma exp_log_softmax (j : nat) :
  exp (entry (log_softmax V) i j) = shifted j / total.
Proof.
  simpl. fold shifted. fold total.
  unfold Rminus at 1. rewrite exp_plus, exp_Ropp, exp_ln by apply softmax_total_pos.
  reflexivity.
Qed.

Lemma log_softmax_row_sum :
  big_sum (fun j => exp (entry (log_softmax V) i j)) (cols V) = 1.
Proof.
  rewrite (big_sum_ext _ (fun j => shifted j * / total))
    by (intros; apply exp_log_softmax).
  rewrite big_sum_scale. fold total.
  apply Rinv_r. pose proof softmax_total_pos. lra.
Qed.

(** Stability of the computation: every exponent is at most 0, so every
    exponential lies in (0, 1] and the argument of the logarithm in
    [1, cols V]. *)
Lemma shifted_exponent_nonpos (j : nat) :
  (j < cols V)%nat -> entry V i j - row_max V i <= 0.
Proof.
  intros Hj. unfold row_max.
  pose proof (max_upto_ge (entry V i) (cols V - 1) j ltac:(lia)). lra.
Qed.

Lemma shifted_bounds (j : nat) :
  (j < cols V)%nat -> 0 < shifted j <= 1.
Proof.
  intros Hj. split; [apply exp_pos |].
  unfold shifted. rewrite <- exp_0.
  destruct (shifted_exponent_nonpos j Hj) as [Hlt|Heq].
  - left. now apply exp_increasing.
  - rewrite Heq. lra.
Qed.

Lemma softmax_total_bounds : 1 <= total <= INR (cols V).
Proof.
  split.
  - destruct (max_upto_attained (entry V i) (cols V - 1)) as [k [Hk E]].
    assert (Hone : shifted k = 1).
    { unfold shifted, row_max. rewrite E, Rminus_diag. apply exp_0. }
    unfold total.
    assert (G : forall n, (k < n)%nat -> (n <= cols V)%nat ->
                          1 <= big_sum shifted n).
    { induction n as [|n IH]; intros Hlt Hle; [lia|]. simpl.
      destruct (Nat.eq_dec k n) as [->|Hne].
      - rewrite Hone.
        destruct n as [|n']; [simpl; lra|].
        assert (0 < big_sum shifted (S n'))
          by (apply big_sum_pos; [lia | intros; apply exp_pos]).
        lra.
      - specialize (IH ltac:(lia) ltac:(lia)).
        pose proof (exp_pos (entry V i n - row_max V i)).
        fold (shifted n) in *. lra. }
    apply G; lia.
  - unfold total.
    rewrite <- (Rmult_1_r (INR (cols V))), <- big_sum_const.
    apply big_sum_le. intros k Hk. apply shifted_bounds, Hk.
Qed.

(** Over the reals the shift cancels: the result is the logarithm of the
    softmax of the row. *)
Lemma exp_log_softmax_unshifted (j : nat) :
  exp (entry (log_softmax V) i j)
  = exp (entry V i j) / big_sum (fun k => exp (entry V i k)) (cols V).
Proof.
  rewrite exp_log_softmax. unfold total, shifted.
  rewrite (big_sum_ext (fun k => exp (entry V i k - row_max V i))
             (fun k => exp (entry V i k) * exp (- row_max V i)))
    by (intros; unfold Rminus; apply exp_plus).
  rewrite big_sum_scale.
  unfold Rminus. rewrite exp_plus.
  assert (0 < big_sum (fun k => exp (entry V i k)) (cols V))
    by (apply big_sum_pos; [lia | intros; apply exp_pos]).
  pose proof (exp_pos (- row_max V i)).
  field. split; lra.
Qed.
End LogSoftmax.

(** ** Broadcasting *)

Lemma broadcast_dim_one (a b : nat) :
  broadcast_dim a b = Some 1%nat -> a = 1%nat /\ b = 1%nat.
Proof.
  unfold broadcast_dim.
  destruct (Nat.eqb_spec a b) as [->|Hab]; [intros [= ->]; auto|].
  destruct (Nat.eqb_spec a 1) as [->|Ha]; [intros [= ->]; lia|].
  destruct (Nat.eqb_spec b 1) as [->|Hb]; [intros [= ->]; lia|].
  discriminate.
Qed.

Lemma broadcast_dim_strict (a b n : nat) :
  a <> 1%nat -> b <> 1%nat -> broadcast_dim a b = Some n -> a = b /\ n = a.
Proof.
  unfold broadcast_dim. intros Ha Hb.
  destruct (Nat.eqb_spec a b) as [->|Hab]; [intros [= <-]; auto|].
  destruct (Nat.eqb_spec a 1); [contradiction|].
  destruct (Nat.eqb_spec b 1); [contradiction|].
  discriminate.
Qed.

Lemma broadcast_dim_same (a : nat) : broadcast_dim a a = Some a.
Proof. unfold broadcast_dim. now rewrite Nat.eqb_refl. Qed.

Lemma broadcast_dim_one_l (b : nat) : broadcast_dim 1 b = Some b.
Proof.
  unfold broadcast_dim. simpl.
  destruct b as [|[|b]]; reflexivity.
Qed.

Lemma broadcast2_shape (op : R -> R -> R) (A B T : Tensor) :
  broadcast2 op A B = Ok T ->
  broadcast_dim (rows A) (rows B) = Some (rows T) /\
  broadcast_dim (cols A) (cols B) = Some (cols T).
Proof.
  unfold broadcast2.
  destruct (broadcast_dim (rows A) (rows B)) as [n|]; [|discriminate].
  destruct (broadcast_dim (cols A) (cols B)) as [k|]; [|discriminate].
  intros [= <-]. auto.
Qed.

Lemma broadcast2_entry (op : R -> R -> R) (A B T : Tensor) :
  broadcast2 op A B = Ok T ->
  forall i j, entry T i j = op (bentry A i j) (bentry B i j).
Proof.
  unfold broadcast2.
  destruct (broadcast_dim (rows A) (rows B)) as [n|]; [|discriminate].
  destruct (broadcast_dim (cols A) (cols B)) as [k|]; [|discriminate].
  intros [= <-] i j. reflexivity.
Qed.

Lemma bentry_clamp (A : Tensor) (n k i j : nat) :
  (n = 1%nat -> rows A = 1%nat) -> (k = 1%nat -> cols A = 1%nat) ->
  bentry A (if Nat.eqb n 1 then O else i) (if Nat.eqb k 1 then O else j)
  = bentry A i j.
Proof.
  intros Hn Hk. unfold bentry.
  destruct (Nat.eqb_spec n 1) as [En|_]; destruct (Nat.eqb_spec k 1) as [Ek|_];
    try rewrite (Hn En); try rewrite (Hk Ek); reflexivity.
Qed.

(** Reading a broadcast result through a further broadcast reads its
    operands the same way. *)
Lemma broadcast2_bentry (op : R -> R -> R) (A B T : Tensor) :
  broadcast2 op A B = Ok T ->
  forall i j, bentry T i j = op (bentry A i j) (bentry B i j).
Proof.
  intros E i j.
  destruct (broadcast2_shape _ _ _ _ E) as [Hr Hc].
  unfold bentry at 1. rewrite (broadcast2_entry _ _ _ _ E).
  rewrite !bentry_clamp; try reflexivity; intros E1.
  all: try (rewrite E1 in Hr; apply broadcast_dim_one in Hr; tauto).
  all: rewrite E1 in Hc; apply broadcast_dim_one in Hc; tauto.
Qed.

(** Inside its own shape a tensor is read as it is. *)
Lemma bentry_in_shape (T : Tensor) (i j : nat) :
  (i < rows T)%nat -> (j < cols T)%nat -> bentry T i j = entry T i j.
Proof.
  intros Hi Hj. unfold bentry.
  destruct (Nat.eqb_spec (rows T) 1); destruct (Nat.eqb_spec (cols T) 1);
    f_equal; lia.
Qed.

(** ** The steps of forward *)

Lemma zero_column_first (n : nat) (V T : Tensor) :
  cat_dim1 (zeros n 1) V = Ok T ->
  rows T = n /\ cols T = S (cols V) /\ forall i, entry T i O = 0.
Proof.
  unfold cat_dim1. simpl.
  destruct (Nat.eqb n (rows V)); [|discriminate].
  intros [= <-]. simpl. auto.
Qed.

Lemma V_base_shape (m : TasteNetMNL) (X Vb : Tensor) :
  V_base m X = Ok Vb ->
  cols X = rows (beta m) /\ rows Vb = rows X /\ cols Vb = S (cols (beta m)) /\
  forall i, entry Vb i O = 0.
Proof.
  unfold V_base, matmul. intros E.
  destruct (Nat.eqb_spec (cols X) (rows (beta m))) as [Hx|]; [|discriminate].
  simpl in E. apply zero_column_first in E. simpl in E. tauto.
Qed.

Lemma V_infra_shape (m : TasteNetMNL) (X Z Vi : Tensor) :
  V_infra m X Z = Ok Vi ->
  cols Z = rows (delta m) /\ rows Z = rows X /\
  rows Vi = rows X /\ cols Vi = S (cols (delta m)) /\
  forall i, entry Vi i O = 0.
Proof.
  unfold V_infra, matmul. intros E.
  destruct (Nat.eqb_spec (cols Z) (rows (delta m))) as [Hz|]; [|discriminate].
  simpl in E. pose proof E as E'. apply zero_column_first in E. simpl in E.
  unfold cat_dim1 in E'. simpl in E'.
  destruct (Nat.eqb_spec (rows X) (rows Z)); [|discriminate].
  intuition congruence.
Qed.

Lemma TasteNet_forward_shape (tn : TasteNet) (tr : bool) (X g : Tensor) :
  TasteNet_forward tn tr X = Ok g ->
  cols X = input_dim tn /\ rows g = rows X /\ cols g = 1%nat /\
  forall i c, entry g i c = network tn tr X i.
Proof.
  unfold TasteNet_forward.
  destruct (Nat.eqb_spec (cols X) (input_dim tn)); [|discriminate].
  cbn [negb].
  destruct (tr && negb (Nat.eqb (length (hidden_dims tn)) 0)
            && Nat.eqb (rows X) 1); [discriminate|].
  intros [= <-]. simpl. auto.
Qed.

(** [TasteNet.forward] returns in eval mode, without hidden layers, and on
    any batch that is not a single row. *)
Lemma TasteNet_forward_total (tn : TasteNet) (tr : bool) (X : Tensor) :
  cols X = input_dim tn ->
  tr = false \/ hidden_dims tn = [] \/ rows X <> 1%nat ->
  exists g, TasteNet_forward tn tr X = Ok g /\
            rows g = rows X /\ cols g = 1%nat.
Proof.
  intros Hc Hmode. unfold TasteNet_forward.
  rewrite Hc, Nat.eqb_refl. cbn [negb].
  assert (E : tr && negb (Nat.eqb (length (hidden_dims tn)) 0)
              && Nat.eqb (rows X) 1 = false).
  { destruct Hmode as [-> | [-> | Hr]].
    - reflexivity.
    - cbn. now rewrite andb_false_r.
    - apply Nat.eqb_neq in Hr. rewrite Hr. now rewrite andb_false_r. }
  rewrite E. eexists. split; [reflexivity|]. simpl. auto.
Qed.

Lemma V_credit_entry (g C S Vc : Tensor) :
  V_credit g C S = Ok Vc ->
  forall i j, entry Vc i j = bentry g i j * bentry C i j * bentry S i j.
Proof.
  unfold V_credit. intros E i j. bind_inv E.
  unfold tmul in *.
  rewrite (broadcast2_entry _ _ _ _ E), (broadcast2_bentry _ _ _ _ Ha).
  reflexivity.
Qed.

(** The steps of a successful [utility]. *)
Lemma utility_steps (m : TasteNetMNL) (X Z C S V g : Tensor) :
  utility m X Z C S = Ok (V, g) ->
  exists Vb Vi Vc s,
    V_base m X = Ok Vb /\ V_infra m X Z = Ok Vi /\
    TasteNet_forward (tastenet m) (training m) X = Ok g /\
    V_credit g C S = Ok Vc /\ tadd Vb Vi = Ok s /\ tadd s Vc = Ok V.
Proof.
  unfold utility. intros E. bind_inv E.
  injection E as <- <-.
  eauto 10.
Qed.

Lemma forward_steps (m : TasteNetMNL) (X Z C S lp g : Tensor) :
  forward m X Z C S = Ok (lp, g) ->
  exists V, utility m X Z C S = Ok (V, g) /\ lp = log_softmax V.
Proof.
  unfold forward. intros E. bind_inv E.
  injection E as <- <-. eauto.
Qed.

(** Every exception of [forward] is torch's size mismatch, except that of
    BatchNorm1d, which needs a batch of a single row that passed the checks
    of the linear terms. *)
Lemma forward_error_kind (m : TasteNetMNL) (X Z C S : Tensor) (e : exn) :
  forward m X Z C S = Raise e ->
  e = RuntimeError \/
  (e = ValueError /\ rows X = 1%nat /\ rows Z = rows X /\ training m = true).
Proof.
  unfold forward, utility.
  destruct (V_base m X) as [Vb|e1] eqn:EVb; cbn [bind].
  2:{ intros [= <-]. left. unfold V_base, matmul, cat_dim1 in EVb.
      destruct (Nat.eqb (cols X) (rows (beta m))); cbn [bind rows zeros] in EVb;
        [destruct (Nat.eqb _ _)|]; congruence. }
  destruct (V_infra m X Z) as [Vi|e2] eqn:EVi; cbn [bind].
  2:{ intros [= <-]. left. unfold V_infra, matmul, cat_dim1 in EVi.
      destruct (Nat.eqb (cols Z) (rows (delta m))); cbn [bind rows zeros] in EVi;
        [destruct (Nat.eqb _ _)|]; congruence. }
  apply V_infra_shape in EVi. destruct EVi as (_ & HZ & _).
  destruct (TasteNet_forward (tastenet m) (training m) X) as [g|e3] eqn:Eg;
    cbn [bind].
  2:{ intros [= <-]. unfold TasteNet_forward in Eg.
      destruct (negb (Nat.eqb (cols X) (input_dim (tastenet m))));
        [left; congruence|].
      destruct (training m); cbn [andb] in Eg; [|discriminate].
      destruct (negb _); cbn [andb] in Eg; [|discriminate].
      destruct (Nat.eqb_spec (rows X) 1); [|discriminate].
      right. injection Eg as <-. auto. }
  unfold V_credit, tadd, tmul, broadcast2.
  repeat match goal with
         | |- context [match ?o with Some _ => _ | None => _ end] =>
             destruct o; cbn [bind]
         end; intros; left; congruence.
Qed.

Lemma V_base_total (m : TasteNetMNL) (X : Tensor) :
  cols X = rows (beta m) ->
  exists Vb, V_base m X = Ok Vb /\ rows Vb = rows X /\
             cols Vb = S (cols (beta m)).
Proof.
  intros H. unfold V_base, matmul, cat_dim1.
  rewrite H, Nat.eqb_refl. cbn [bind rows zeros]. rewrite Nat.eqb_refl.
  eexists. split; [reflexivity|]. simpl. auto.
Qed.

Lemma V_infra_total (m : TasteNetMNL) (X Z : Tensor) :
  cols Z = rows (delta m) -> rows Z = rows X ->
  exists Vi, V_infra m X Z = Ok Vi /\ rows Vi = rows X /\
             cols Vi = S (cols (delta m)).
Proof.
  intros H Hr. unfold V_infra, matmul, cat_dim1.
  rewrite H, Nat.eqb_refl. cbn [bind rows zeros]. rewrite Hr, Nat.eqb_refl.
  eexists. split; [reflexivity|]. simpl. auto.
Qed.

Lemma broadcast2_total (op : R -> R -> R) (A B : Tensor) (n k : nat) :
  broadcast_dim (rows A) (rows B) = Some n ->
  broadcast_dim (cols A) (cols B) = Some k ->
  exists T, broadcast2 op A B = Ok T /\ rows T = n /\ cols T = k.
Proof.
  intros Hn Hk. unfold broadcast2. rewrite Hn, Hk.
  eexists. split; [reflexivity|]. simpl. auto.
Qed.

(** On the documented shapes the utilities are computed, with one row per
    individual and one column per alternative (in train mode BatchNorm1d
    wants more than one individual). *)
Lemma utility_total (m : TasteNetMNL) (x_dim z_dim : nat) (X Z C S : Tensor) :
  model_shapes m x_dim z_dim ->
  training m = false \/ hidden_dims (tastenet m) = [] \/ rows X <> 1%nat ->
  cols X = x_dim -> rows Z = rows X -> cols Z = z_dim ->
  rows C = rows X -> cols C = n_alternatives m ->
  rows S = rows X -> cols S = n_alternatives m ->
  exists V g, utility m X Z C S = Ok (V, g) /\
              rows V = rows X /\ cols V = n_alternatives m /\
              rows g = rows X /\ cols g = 1%nat.
Proof.
  intros (HJ & Hbr & Hbc & Hdr & Hdc & Hin) Hmode HX HZr HZc HCr HCc HSr HSc.
  destruct (V_base_total m X) as (Vb & EVb & Rb & Cb); [congruence|].
  destruct (V_infra_total m X Z) as (Vi & EVi & Ri & Ci);
    [congruence | assumption |].
  destruct (TasteNet_forward_total (tastenet m) (training m) X)
    as (g & Eg & Rg & Cg); [congruence | exact Hmode |].
  destruct (broadcast2_total Rmult g C (rows X) (n_alternatives m))
    as (t & Et & Rt & Ct).
  { rewrite Rg, HCr. apply broadcast_dim_same. }
  { rewrite Cg, HCc. apply broadcast_dim_one_l. }
  destruct (broadcast2_total Rmult t S (rows X) (n_alternatives m))
    as (Vc & EVc & Rc & Cc).
  { rewrite Rt, HSr. apply broadcast_dim_same. }
  { rewrite Ct, HSc. apply broadcast_dim_same. }
  destruct (broadcast2_total Rplus Vb Vi (rows X) (n_alternatives m))
    as (s & Es & Rs & Cs).
  { rewrite Rb, Ri. apply broadcast_dim_same. }
  { rewrite Cb, Ci, Hbc, Hdc.
    replace (Datatypes.S (n_alternatives m - 1)) with (n_alternatives m) by lia.
    apply broadcast_dim_same. }
  destruct (broadcast2_total Rplus s Vc (rows X) (n_alternatives m))
    as (V & EV & RV & CV).
  { rewrite Rs, Rc. apply broadcast_dim_same. }
  { rewrite Cs, Cc. apply broadcast_dim_same. }
  exists V, g.
  unfold utility, V_credit, tadd, tmul.
  rewrite EVb. cbn [bind]. rewrite EVi. cbn [bind]. rewrite Eg. cbn [bind].
  rewrite Et. cbn [bind]. rewrite EVc. cbn [bind]. rewrite Es. cbn [bind].
  rewrite EV. cbn [bind].
  split; [reflexivity|]. auto.
Qed.

(** ** Claims about forward *)

(** C1: whatever batch [forward] returns on, the returned log-probabilities
    have the shape of the utilities [V], and the entry at (i, j) is the
    utility shifted by the maximum of row i, less the logarithm of the sum
    of the exponentials of the shifted utilities of row i (the
    [log_softmax] of the file); the maximum is an entry of the row and no
    entry of the row exceeds it.  Hence the exponential of a returned entry
    is exp(V_ij) / sum_k exp(V_ik), and in each row the exponentials of the
    returned entries sum to 1.  The shift keeps the computation stable: no
    exponent is positive, and the sum whose logarithm is taken lies between
    1 and the number of alternatives.  (A result needs at least one
    alternative to have anything to sum.) *)
Theorem forward_log_probs_normalized
    (m : TasteNetMNL) (X Z credit_access se_indicator lp g : Tensor) :
  forward m X Z credit_access se_indicator = Ok (lp, g) ->
  cols lp <> O ->
  exists V,
    utility m X Z credit_access se_indicator = Ok (V, g) /\
    lp = log_softmax V /\
    rows lp = rows V /\ cols lp = cols V /\
    forall i, (i < rows lp)%nat ->
      (exists k, (k < cols V)%nat /\ row_max V i = entry V i k) /\
      (forall j, (j < cols lp)%nat -> entry V i j <= row_max V i) /\
      (forall j,
          entry lp i j
          = (entry V i j - row_max V i)
            - ln (big_sum (fun k => exp (entry V i k - row_max V i))
                    (cols V))) /\
      (forall j,
          exp (entry lp i j)
          = exp (entry V i j)
            / big_sum (fun k => exp (entry V i k)) (cols V)) /\
      big_sum (fun j => exp (entry lp i j)) (cols lp) = 1 /\
      (forall j, (j < cols lp)%nat -> entry V i j - row_max V i <= 0) /\
      1 <= big_sum (fun k => exp (entry V i k - row_max V i)) (cols V)
        <= INR (cols V).
Proof.
  intros E Hc.
  apply forward_steps in E. destruct E as [V [E ->]].
  exists V. split; [exact E|]. split; [reflexivity|].
  split; [reflexivity|]. split; [reflexivity|].
  cbn [cols log_softmax] in Hc.
  intros i _. repeat split.
  - destruct (max_upto_attained (entry V i) (cols V - 1)) as [k [Hk Ek]].
    exists k. split; [lia | exact Ek].
  - intros j Hj. pose proof (shifted_exponent_nonpos V i Hc j Hj). lra.
  - intros j. exact (exp_log_softmax_unshifted V i Hc j).
  - exact (log_softmax_row_sum V i Hc).
  - intros j Hj. exact (shifted_exponent_nonpos V i Hc j Hj).
  - apply (softmax_total_bounds V i Hc).
  - apply (softmax_total_bounds V i Hc).
Qed.

Lemma forward_log_probs_normalized_witness :
  exists lp g,
    forward small_model small_X small_Z small_credit small_se = Ok (lp, g) /\
    cols lp = 3%nat /\
    big_sum (fun j => exp (entry lp 1 j)) (cols lp) = 1.
Proof.
  eexists. eexists. split; [reflexivity|]. split; [reflexivity|].
  destruct (forward_log_probs_normalized small_model small_X small_Z
              small_credit small_se _ _ eq_refl) as (V & _ & _ & _ & _ & H).
  - simpl. lia.
  - destruct (H 1%nat) as (_ & _ & _ & _ & Hsum & _); [simpl; lia|].
    exact Hsum.
Defined.

(** C2: in [forward] the credit term at (i, j) is the product of gamma of
    individual i, the credit access and the self-employment indicator that
    position (i, j) reads, so it is 0 wherever that indicator is 0,
    whatever gamma is. *)
Theorem forward_credit_term
    (m : TasteNetMNL) (X Z credit_access se_indicator lp gamma_i : Tensor) :
  forward m X Z credit_access se_indicator = Ok (lp, gamma_i) ->
  (forall i c, entry gamma_i i c = network (tastenet m) (training m) X i) /\
  exists Vc, V_credit gamma_i credit_access se_indicator = Ok Vc /\
    forall i j,
      entry Vc i j
      = bentry gamma_i i j * bentry credit_access i j * bentry se_indicator i j
      /\ (bentry se_indicator i j = 0 -> entry Vc i j = 0).
Proof.
  intros E.
  apply forward_steps in E. destruct E as [V [E _]].
  apply utility_steps in E.
  destruct E as (Vb & Vi & Vc & s & _ & _ & Hg & HVc & _ & _).
  split.
  - apply TasteNet_forward_shape in Hg. tauto.
  - exists Vc. split; [exact HVc|].
    intros i j. rewrite (V_credit_entry _ _ _ _ HVc). split; [reflexivity|].
    intros ->. ring.
Qed.

Lemma forward_credit_term_witness :
  exists lp g Vc,
    forward small_model small_X small_Z small_credit small_se = Ok (lp, g) /\
    V_credit g small_credit small_se = Ok Vc /\
    entry Vc 0 1 = 1 * 1 * 1 /\ entry Vc 0 2 = 0.
Proof.
  destruct (forward_credit_term small_model small_X small_Z small_credit
              small_se _ _ eq_refl) as [_ [Vc [E F]]].
  eexists. eexists. exists Vc. split; [reflexivity|]. split; [exact E|].
  split.
  - exact (proj1 (F 0%nat 1%nat)).
  - apply (proj2 (F 0%nat 2%nat)). reflexivity.
Defined.

(** C4, as the code has it: the demographic and the infrastructure term
    each put a zero in front, so the utility of alternative 0 is its credit
    term alone; it is 0 for every individual whose row reads a
    self-employment indicator of 0 (or a credit access of 0) there. *)
Theorem reference_alternative_utility
    (m : TasteNetMNL) (X Z credit_access se_indicator V gamma_i : Tensor) :
  utility m X Z credit_access se_indicator = Ok (V, gamma_i) ->
  exists Vb Vi,
    V_base m X = Ok Vb /\ V_infra m X Z = Ok Vi /\
    (forall i, entry Vb i O = 0 /\ entry Vi i O = 0) /\
    (forall i, entry V i O
               = bentry gamma_i i O * bentry credit_access i O
                 * bentry se_indicator i O) /\
    (forall i, bentry se_indicator i O = 0 \/ bentry credit_access i O = 0 ->
               entry V i O = 0).
Proof.
  intros E. apply utility_steps in E.
  destruct E as (Vb & Vi & Vc & s & HVb & HVi & _ & HVc & Hs & HV).
  exists Vb, Vi. split; [exact HVb|]. split; [exact HVi|].
  apply V_base_shape in HVb. destruct HVb as (_ & _ & _ & Zb).
  apply V_infra_shape in HVi. destruct HVi as (_ & _ & _ & _ & Zi).
  assert (Hcol : forall i,
             entry V i O
             = bentry gamma_i i O * bentry credit_access i O
               * bentry se_indicator i O).
  { intros i. unfold tadd in *.
    rewrite (broadcast2_entry _ _ _ _ HV), (broadcast2_bentry _ _ _ _ Hs).
    assert (B0 : forall T, (forall k, entry T k O = 0) -> bentry T i O = 0).
    { intros T HT. unfold bentry.
      destruct (Nat.eqb (cols T) 1); apply HT. }
    rewrite (B0 Vb Zb), (B0 Vi Zi).
    unfold V_credit in HVc. bind_inv HVc. unfold tmul in *.
    rewrite (broadcast2_bentry _ _ _ _ HVc), (broadcast2_bentry _ _ _ _ Ha).
    ring. }
  split; [auto|]. split; [exact Hcol|].
  intros i [H0 | H0]; rewrite Hcol, H0; ring.
Qed.

Lemma reference_alternative_utility_witness :
  exists V g,
    utility small_model small_X small_Z small_credit small_se = Ok (V, g) /\
    entry V 1 O = 0.
Proof.
  destruct (reference_alternative_utility small_model small_X small_Z
              small_credit small_se _ _ eq_refl)
    as (Vb & Vi & _ & _ & _ & _ & H0).
  eexists. eexists. split; [reflexivity|].
  apply H0. left. reflexivity.
Defined.

(** C4 as stated fails: with a self-employment indicator of 1 on
    alternative 0, credit access 1 there and gamma = 1, the utility of
    alternative 0 is 1. *)
Lemma reference_alternative_utility_not_pinned :
  exists V g,
    utility (constant_model 1) (tensor_of [[0]]) (tensor_of [[0]])
      (tensor_of [[1; 0]]) (tensor_of [[1; 0]]) = Ok (V, g) /\
    entry V O O = 1 /\ entry V O O <> 0.
Proof.
  eexists. eexists. split; [reflexivity|].
  split.
  - unfold bentry; simpl. unfold bentry; simpl. ring.
  - unfold bentry; simpl. unfold bentry; simpl. lra.
Qed.

(** C7, as the code has it: [forward] raises torch's size mismatch whenever
    the batch size of Z differs from that of X, and whenever credit_access
    or se_indicator disagrees with the batch size of X or with the number of
    alternatives while none of the sizes involved is 1.  (A dimension of
    size 1 is broadcast.) *)
Theorem forward_shape_errors
    (m : TasteNetMNL) (x_dim z_dim : nat)
    (X Z credit_access se_indicator : Tensor) :
  model_shapes m x_dim z_dim ->
  (rows Z <> rows X ->
   forward m X Z credit_access se_indicator = Raise RuntimeError) /\
  (rows X <> 1%nat -> n_alternatives m <> 1%nat ->
   rows credit_access <> 1%nat -> cols credit_access <> 1%nat ->
   rows se_indicator <> 1%nat -> cols se_indicator <> 1%nat ->
   rows credit_access <> rows X \/ rows se_indicator <> rows X \/
   cols credit_access <> n_alternatives m \/
   cols se_indicator <> n_alternatives m ->
   forward m X Z credit_access se_indicator = Raise RuntimeError).
Proof.
  intros (HJ & Hbr & Hbc & Hdr & Hdc & Hin).
  assert (K : forall P : Prop,
             (forall lp g,
                 forward m X Z credit_access se_indicator = Ok (lp, g) -> ~ P) ->
             (rows X = 1%nat /\ rows Z = rows X -> ~ P) ->
             P -> forward m X Z credit_access se_indicator = Raise RuntimeError).
  { intros P HP HV p.
    destruct (forward m X Z credit_access se_indicator) as [[lp g]|e] eqn:E.
    - exfalso. exact (HP lp g eq_refl p).
    - f_equal. apply forward_error_kind in E.
      destruct E as [E | (_ & H1 & H2 & _)]; [exact E|].
      exfalso. exact (HV (conj H1 H2) p). }
  split.
  - apply K; [|tauto]. intros lp g E HZ.
    apply forward_steps in E. destruct E as [V [E _]].
    apply utility_steps in E.
    destruct E as (Vb & Vi & Vc & s & _ & HVi & _).
    apply V_infra_shape in HVi. tauto.
  - intros HX1 HJ1 HC1 HCc1 HS1 HSc1. apply K; [|tauto]. intros lp g E Hbad.
    apply forward_steps in E. destruct E as [V [E _]].
    apply utility_steps in E.
    destruct E as (Vb & Vi & Vc & s & HVb & HVi & Hg & HVc & Hs & HV).
    apply V_base_shape in HVb. destruct HVb as (_ & Rb & Cb & _).
    apply V_infra_shape in HVi. destruct HVi as (_ & _ & Ri & Ci & _).
    apply TasteNet_forward_shape in Hg. destruct Hg as (_ & Rg & Cg & _).
    unfold V_credit in HVc. bind_inv HVc. rename a into t.
    unfold tmul, tadd in *.
    apply broadcast2_shape in Ha, HVc, Hs, HV.
    destruct Ha as [Ha1 Ha2], HVc as [Hc1 Hc2], Hs as [Hs1 Hs2],
      HV as [HV1 HV2].
    rewrite Rg in Ha1.
    apply broadcast_dim_strict in Ha1; [|assumption|assumption].
    destruct Ha1 as [Ha1 Rt].
    rewrite Cg, broadcast_dim_one_l in Ha2. injection Ha2 as Ct.
    rewrite Rt in Hc1.
    apply broadcast_dim_strict in Hc1; [|assumption|assumption].
    destruct Hc1 as [Hc1 Rc].
    rewrite <- Ct in Hc2.
    apply broadcast_dim_strict in Hc2; [|assumption|assumption].
    destruct Hc2 as [Hc2 Cc].
    rewrite Cb, Ci, Hbc, Hdc in Hs2.
    replace (Datatypes.S (n_alternatives m - 1)) with (n_alternatives m)
      in Hs2 by lia.
    rewrite broadcast_dim_same in Hs2. injection Hs2 as Cs.
    rewrite <- Cs, Cc in HV2.
    apply broadcast_dim_strict in HV2; [|assumption|assumption].
    destruct HV2 as [HV2 _].
    lia.
Qed.

Lemma forward_shape_errors_witness :
  forward small_model small_X (tensor_of [[1]; [2]; [3]]) small_credit small_se
  = Raise RuntimeError /\
  forward small_model small_X small_Z (tensor_of [[0; 1]; [0; 1]]) small_se
  = Raise RuntimeError.
Proof.
  destruct (forward_shape_errors small_model 2 1 small_X
              (tensor_of [[1]; [2]; [3]]) small_credit small_se) as [A _].
  { unfold model_shapes. simpl. repeat split; lia. }
  destruct (forward_shape_errors small_model 2 1 small_X small_Z
              (tensor_of [[0; 1]; [0; 1]]) small_se) as [_ B].
  { unfold model_shapes. simpl. repeat split; lia. }
  split.
  - apply A. simpl. lia.
  - apply B; simpl; lia.
Defined.

(** C7 as stated fails: a credit_access of batch size 1 against a batch of
    two individuals, and a se_indicator with one column against two
    alternatives, are broadcast and [forward] returns. *)
Lemma forward_broadcasts_singletons :
  let X := tensor_of [[0]; [0]] in
  let Z := tensor_of [[0]; [0]] in
  let credit_access := tensor_of [[1; 0]] in
  let se_indicator := tensor_of [[1]; [1]] in
  rows credit_access <> rows X /\
  cols se_indicator <> n_alternatives (constant_model 1) /\
  exists lp g,
    forward (constant_model 1) X Z credit_access se_indicator = Ok (lp, g) /\
    rows lp = 2%nat /\ cols lp = 2%nat.
Proof.
  simpl. split; [lia|]. split; [lia|].
  eexists. eexists. split; [reflexivity|]. simpl. auto.
Qed.

(** ** Utilities and self-employment rates *)

Lemma utility_entry (m : TasteNetMNL) (X Z C S V g : Tensor) :
  utility m X Z C S = Ok (V, g) ->
  exists s, linear_utility m X Z = Ok s /\
    TasteNet_forward (tastenet m) (training m) X = Ok g /\
    forall i j,
      entry V i j = bentry s i j + bentry g i j * bentry C i j * bentry S i j.
Proof.
  intros E. apply utility_steps in E.
  destruct E as (Vb & Vi & Vc & s & HVb & HVi & Hg & HVc & Hs & HV).
  exists s. split; [|split; [exact Hg|]].
  - unfold linear_utility. rewrite HVb. cbn [bind]. rewrite HVi. exact Hs.
  - intros i j. unfold tadd in HV. rewrite (broadcast2_entry _ _ _ _ HV).
    f_equal. unfold V_credit in HVc. bind_inv HVc. unfold tmul in *.
    rewrite (broadcast2_bentry _ _ _ _ HVc), (broadcast2_bentry _ _ _ _ Ha).
    reflexivity.
Qed.

Lemma eval_shapes (m : TasteNetMNL) (x_dim z_dim : nat) :
  model_shapes m x_dim z_dim -> model_shapes (TasteNetMNL_eval m) x_dim z_dim.
Proof. intros H. exact H. Qed.

(** The rate computed from a probability tensor with nine columns and at
    least one row. *)
Lemma se_rate_value (P : Tensor) :
  cols P = 9%nat -> rows P <> O ->
  se_rate P
  = Ok (PyFloat (big_sum (fun i => entry P i 1 + entry P i 4 + entry P i 7)
                   (rows P) / INR (rows P))).
Proof.
  intros Hc Hr. unfold se_rate, index_cols, in_range, se_alts.
  rewrite Hc. cbn [forallb Nat.ltb Nat.leb andb]. rewrite orb_true_r.
  cbn [bind].
  unfold mean_item, sum_dim1. cbn [len item1 rows cols entry length].
  destruct (rows P) as [|n] eqn:E; [contradiction|].
  do 3 f_equal. apply big_sum_ext. intros i _. simpl. ring.
Qed.

Lemma se_rate_empty (P : Tensor) :
  cols P = 9%nat -> rows P = O -> se_rate P = Ok PyNaN.
Proof.
  intros Hc Hr. unfold se_rate, index_cols, in_range, se_alts.
  rewrite Hc. cbn [forallb Nat.ltb Nat.leb andb]. rewrite orb_true_r.
  cbn [bind].
  unfold mean_item, sum_dim1. cbn [len item1 rows cols entry length].
  now rewrite Hr.
Qed.

(** The probabilities of the self-employment alternatives in a row of
    softmax probabilities. *)
Lemma se_share_of_probs (V : Tensor) (i : nat) :
  cols V = 9%nat ->
  entry (texp (log_softmax V)) i 1 + entry (texp (log_softmax V)) i 4
  + entry (texp (log_softmax V)) i 7
  = se_share (entry V i).
Proof.
  intros Hc.
  assert (Hn : cols V <> O) by lia.
  change (entry (texp (log_softmax V)) i) with
    (fun j => exp (entry (log_softmax V) i j)).
  cbv beta. rewrite !(exp_log_softmax_unshifted V i Hn), Hc.
  unfold se_share.
  assert (0 < big_sum (fun k => exp (entry V i k)) 9)
    by (apply big_sum_pos; [lia | intros; apply exp_pos]).
  field. lra.
Qed.

Lemma se_share_bounds (v : nat -> R) : 0 < se_share v < 1.
Proof.
  unfold se_share. simpl.
  pose proof (exp_pos (v 0%nat)). pose proof (exp_pos (v 1%nat)).
  pose proof (exp_pos (v 2%nat)). pose proof (exp_pos (v 3%nat)).
  pose proof (exp_pos (v 4%nat)). pose proof (exp_pos (v 5%nat)).
  pose proof (exp_pos (v 6%nat)). pose proof (exp_pos (v 7%nat)).
  pose proof (exp_pos (v 8%nat)).
  split.
  - apply Rdiv_lt_0_compat; lra.
  - apply Rmult_lt_reg_r with
      (0 + exp (v 0%nat) + exp (v 1%nat) + exp (v 2%nat) + exp (v 3%nat)
       + exp (v 4%nat) + exp (v 5%nat) + exp (v 6%nat) + exp (v 7%nat)
       + exp (v 8%nat)); [lra|].
    unfold Rdiv. rewrite Rmult_assoc, Rinv_l by lra. lra.
Qed.

(** Lowering the utility of alternative 7 alone lowers the share of the
    self-employment alternatives, and raising it raises the share. *)
Lemma se_share_monotone (v w : nat -> R) :
  (forall k, (k < 9)%nat -> k <> 7%nat -> w k = v k) ->
  (w 7%nat <= v 7%nat -> se_share w <= se_share v) /\
  (w 7%nat < v 7%nat -> se_share w < se_share v).
Proof.
  intros Same.
  unfold se_share. simpl.
  rewrite !(Same 0%nat), !(Same 1%nat), !(Same 2%nat), !(Same 3%nat),
    !(Same 4%nat), !(Same 5%nat), !(Same 6%nat), !(Same 8%nat) by lia.
  pose proof (exp_pos (v 0%nat)). pose proof (exp_pos (v 1%nat)).
  pose proof (exp_pos (v 2%nat)). pose proof (exp_pos (v 3%nat)).
  pose proof (exp_pos (v 4%nat)). pose proof (exp_pos (v 5%nat)).
  pose proof (exp_pos (v 6%nat)). pose proof (exp_pos (v 7%nat)).
  pose proof (exp_pos (v 8%nat)). pose proof (exp_pos (w 7%nat)).
  pose (a := exp (v 1%nat) + exp (v 4%nat)).
  pose (b := exp (v 0%nat) + exp (v 2%nat) + exp (v 3%nat) + exp (v 5%nat)
             + exp (v 6%nat) + exp (v 8%nat)).
  pose (x := exp (v 7%nat)). pose (y := exp (w 7%nat)).
  assert (Ha : 0 < a) by (unfold a; lra).
  assert (Hb : 0 < b) by (unfold b; lra).
  assert (Hx : 0 < x) by (unfold x; lra).
  assert (Hy : 0 < y) by (unfold y; lra).
  assert (E1 : (exp (v 1%nat) + exp (v 4%nat) + exp (v 7%nat))
               / (0 + exp (v 0%nat) + exp (v 1%nat) + exp (v 2%nat)
                  + exp (v 3%nat) + exp (v 4%nat) + exp (v 5%nat)
                  + exp (v 6%nat) + exp (v 7%nat) + exp (v 8%nat))
               = 1 - b / (a + b + x)).
  { unfold a, b, x. field. lra. }
  assert (E2 : (exp (v 1%nat) + exp (v 4%nat) + exp (w 7%nat))
               / (0 + exp (v 0%nat) + exp (v 1%nat) + exp (v 2%nat)
                  + exp (v 3%nat) + exp (v 4%nat) + exp (v 5%nat)
                  + exp (v 6%nat) + exp (w 7%nat) + exp (v 8%nat))
               = 1 - b / (a + b + y)).
  { unfold a, b, y. field. lra. }
  rewrite E1, E2.
  split; intros Hle.
  - assert (y <= x).
    { destruct Hle as [Hlt|Heq].
      - left. now apply exp_increasing.
      - unfold x, y. rewrite Heq. lra. }
    assert (/ (a + b + x) <= / (a + b + y))
      by (apply Rinv_le_contravar; lra).
    unfold Rdiv. nra.
  - assert (y < x) by (now apply exp_increasing).
    assert (/ (a + b + x) < / (a + b + y))
      by (apply Rinv_lt_contravar; [nra | lra]).
    unfold Rdiv. nra.
Qed.

(** ** The counterfactual engine on a TasteNet-MNL model *)

Lemma credit_cf_value (C : Tensor) (r : R) :
  (9 <= cols C)%nat ->
  credit_cf C r
  = Ok (mkTensor (rows C) (cols C)
          (fun i j => if existsb (Nat.eqb j) branch_alts
                      then entry C i j * (1 - r) else entry C i j)).
Proof.
  intros H. unfold credit_cf, imul_cols, in_range, clone, branch_alts.
  cbn [cols rows entry forallb].
  assert (E : forall k, (k < 9)%nat -> Nat.ltb k (cols C) = true)
    by (intros; apply Nat.ltb_lt; lia).
  rewrite !E by lia. cbn [andb]. rewrite orb_true_r. reflexivity.
Qed.

Lemma credit_cf_ok (C cf : Tensor) (r : R) :
  credit_cf C r = Ok cf ->
  rows cf = rows C /\ cols cf = cols C /\
  forall i j, entry cf i j
              = if existsb (Nat.eqb j) branch_alts
                then entry C i j * (1 - r) else entry C i j.
Proof.
  unfold credit_cf, imul_cols, clone. cbn [cols rows entry].
  destruct (in_range _ _); [|discriminate].
  intros [= <-]. simpl. auto.
Qed.

(** With no closure the counterfactual tensor is the baseline tensor. *)
Lemma credit_cf_zero (C cf : Tensor) :
  credit_cf C 0 = Ok cf -> cf = C.
Proof.
  unfold credit_cf, imul_cols, clone. cbn [cols rows entry].
  destruct (in_range _ _); [|discriminate].
  intros [= <-]. destruct C as [n k f]. cbn [rows cols entry]. f_equal.
  extensionality i. extensionality j.
  match goal with
  | |- (if ?b then _ else _) = _ => destruct b; [ring | reflexivity]
  end.
Qed.

Lemma predict_proba_value (m : TasteNetMNL) (X Z C S V g : Tensor) :
  utility m X Z C S = Ok (V, g) ->
  TasteNetMNL_predict_proba m X Z C S = Ok (texp (log_softmax V)).
Proof.
  intros E. unfold TasteNetMNL_predict_proba, forward. rewrite E. reflexivity.
Qed.

Lemma mean_se_share_pos (V : Tensor) (n : nat) :
  n <> O -> 0 < mean_se_share V n.
Proof.
  intros Hn. unfold mean_se_share. apply Rdiv_lt_0_compat.
  - apply big_sum_pos; [lia | intros; apply se_share_bounds].
  - apply lt_0_INR. lia.
Qed.

Lemma se_rate_of_utility (V : Tensor) :
  cols V = 9%nat -> rows V <> O ->
  se_rate (texp (log_softmax V)) = Ok (PyFloat (mean_se_share V (rows V))).
Proof.
  intros Hc Hr. rewrite se_rate_value by assumption.
  cbn [rows texp log_softmax]. unfold mean_se_share. do 3 f_equal.
  apply big_sum_ext. intros i _. apply se_share_of_probs, Hc.
Qed.

(** On nine alternatives and a batch that is not empty the engine returns:
    the two rates are the mean shares under the baseline and the
    counterfactual utilities. *)
Lemma counterfactual_value (m : TasteNetMNL) (x_dim z_dim : nat)
    (X Z C S : Tensor) (r : R) :
  model_shapes m x_dim z_dim -> n_alternatives m = 9%nat ->
  cols X = x_dim -> rows Z = rows X -> cols Z = z_dim ->
  rows C = rows X -> cols C = 9%nat -> rows S = rows X -> cols S = 9%nat ->
  rows X <> O ->
  exists V V' g g' cf e,
    utility (TasteNetMNL_eval m) X Z C S = Ok (V, g) /\
    credit_cf C r = Ok cf /\
    utility (TasteNetMNL_eval m) X Z cf S = Ok (V', g') /\
    counterfactual_analysis m X Z C S r
    = Ok (PyFloat (mean_se_share V (rows X)),
          PyFloat (mean_se_share V' (rows X)), e).
Proof.
  intros Hm HJ HX HZr HZc HCr HCc HSr HSc Hn.
  apply eval_shapes in Hm.
  assert (HJ' : n_alternatives (TasteNetMNL_eval m) = 9%nat) by exact HJ.
  destruct (utility_total _ _ _ X Z C S Hm (or_introl eq_refl) HX HZr HZc HCr
              ltac:(congruence) HSr ltac:(congruence))
    as (V & g & EV & RV & CV & _).
  pose proof (credit_cf_value C r ltac:(lia)) as Ecf.
  set (cf := mkTensor (rows C) (cols C) _) in Ecf.
  destruct (utility_total _ _ _ X Z cf S Hm (or_introl eq_refl) HX HZr HZc HCr
              ltac:(simpl; congruence) HSr ltac:(congruence))
    as (V' & g' & EV' & RV' & CV' & _).
  rewrite HJ' in CV, CV'.
  set (b := mean_se_share V (rows X)).
  set (c := mean_se_share V' (rows X)).
  assert (Hb : 0 < b) by (apply mean_se_share_pos, Hn).
  exists V, V', g, g', cf, (PyFloat ((c - b) / b * 100)).
  split; [exact EV|]. split; [exact Ecf|]. split; [exact EV'|].
  unfold counterfactual_analysis.
  cbn [eval predict_proba TasteNetMNL_ChoiceModel].
  rewrite (predict_proba_value _ _ _ _ _ _ _ EV). cbn [bind].
  rewrite se_rate_of_utility by congruence. cbn [bind].
  rewrite Ecf. cbn [bind].
  rewrite (predict_proba_value _ _ _ _ _ _ _ EV'). cbn [bind].
  rewrite se_rate_of_utility by congruence. cbn [bind].
  rewrite RV, RV'. fold b c.
  unfold effect, py_div, py_sub.
  destruct (Req_dec_T b 0) as [E0|_]; [lra|].
  reflexivity.
Qed.

(** ** The synthetic setup of the main script *)

Lemma gamma_read (tn : TasteNet) (tr : bool) (X g : Tensor) (i j : nat) :
  TasteNet_forward tn tr X = Ok g -> (i < rows X)%nat ->
  bentry g i j = network tn tr X i.
Proof.
  intros E Hi. apply TasteNet_forward_shape in E.
  destruct E as (_ & Rg & _ & Eg).
  unfold bentry. rewrite Eg, Rg.
  destruct (Nat.eqb_spec (rows X) 1); [f_equal; lia | reflexivity].
Qed.

(** Under the synthetic credit access and self-employment indicator the
    closure changes the utility of alternative 7 alone, by
    - closure_rate * gamma_i. *)
Lemma synthetic_utilities (m : TasteNetMNL) (X Z V V' g g' cf : Tensor)
    (n : nat) (r : R) :
  rows X = n ->
  utility m X Z (Main.credit_access n) (Main.se_indicator n) = Ok (V, g) ->
  credit_cf (Main.credit_access n) r = Ok cf ->
  utility m X Z cf (Main.se_indicator n) = Ok (V', g') ->
  forall i, (i < n)%nat ->
    (forall k, (k < 9)%nat -> k <> 7%nat -> entry V' i k = entry V i k) /\
    entry V' i 7 = entry V i 7 - r * network (tastenet m) (training m) X i.
Proof.
  intros Hn EV Ecf EV' i Hi.
  apply utility_entry in EV. destruct EV as (s & Es & Eg & HV).
  apply utility_entry in EV'. destruct EV' as (s' & Es' & Eg' & HV').
  rewrite Es in Es'. injection Es' as <-.
  rewrite Eg in Eg'. injection Eg' as <-.
  apply credit_cf_ok in Ecf. destruct Ecf as (Rcf & Ccf & Hcf).
  assert (Bcf : forall k, bentry cf i k
                = if existsb (Nat.eqb k) branch_alts
                  then bentry (Main.credit_access n) i k * (1 - r)
                  else bentry (Main.credit_access n) i k).
  { intros k. unfold bentry. rewrite Rcf, Ccf, Hcf.
    cbn [cols Main.credit_access set_col_range zeros Main.n_alternatives].
    cbn [Nat.eqb]. reflexivity. }
  assert (Bg : forall k, bentry g i k = network (tastenet m) (training m) X i).
  { intros k. apply (gamma_read _ _ _ _ _ _ Eg). lia. }
  split.
  - intros k Hk H7. rewrite HV, HV', Bcf.
    unfold bentry, Main.credit_access, Main.se_indicator, set_col_range,
      set_col_list, zeros, branch_alts, Main.n_alternatives.
    cbn [rows cols entry Nat.eqb].
    do 9 (destruct k as [|k]; [simpl; try ring; lia|]). lia.
  - rewrite HV, HV', Bcf, Bg.
    unfold bentry, Main.credit_access, Main.se_indicator, set_col_range,
      set_col_list, zeros, branch_alts, Main.n_alternatives.
    cbn [rows cols entry Nat.eqb]. simpl. ring.
Qed.

Lemma mean_se_share_le (V V' : Tensor) (n : nat) :
  (forall i, (i < n)%nat -> se_share (entry V' i) <= se_share (entry V i)) ->
  mean_se_share V' n <= mean_se_share V n.
Proof.
  intros H. unfold mean_se_share.
  destruct n as [|n].
  - simpl. lra.
  - apply Rmult_le_compat_r.
    + left. apply Rinv_0_lt_compat, lt_0_INR. lia.
    + apply big_sum_le, H.
Qed.

Lemma mean_se_share_lt (V V' : Tensor) (n : nat) :
  n <> O ->
  (forall i, (i < n)%nat -> se_share (entry V' i) < se_share (entry V i)) ->
  mean_se_share V' n < mean_se_share V n.
Proof.
  intros Hn H. unfold mean_se_share.
  apply Rmult_lt_compat_r.
  - apply Rinv_0_lt_compat, lt_0_INR. lia.
  - apply big_sum_lt; [lia | exact H].
Qed.

(** The engine on the synthetic setup: it returns, and the order of the two
    rates follows the sign of gamma. *)
Lemma counterfactual_synthetic (m : TasteNetMNL) (X Z : Tensor) (n : nat)
    (r : R) :
  model_shapes m Main.x_dim Main.z_dim ->
  n_alternatives m = Main.n_alternatives ->
  rows X = n -> cols X = Main.x_dim -> rows Z = n -> cols Z = Main.z_dim ->
  n <> O -> 0 <= r ->
  exists b c e,
    counterfactual_analysis m X Z (Main.credit_access n) (Main.se_indicator n) r
    = Ok (PyFloat b, PyFloat c, e) /\
    ((forall i, (i < n)%nat -> 0 <= network (tastenet m) false X i) -> c <= b) /\
    ((forall i, (i < n)%nat -> 0 < network (tastenet m) false X i) ->
     0 < r -> c < b) /\
    ((forall i, (i < n)%nat -> network (tastenet m) false X i < 0) ->
     0 < r -> b < c).
Proof.
  intros Hm HJ HXr HXc HZr HZc Hn Hr.
  destruct (counterfactual_value m Main.x_dim Main.z_dim X Z
              (Main.credit_access n) (Main.se_indicator n) r)
    as (V & V' & g & g' & cf & e & EV & Ecf & EV' & E);
    try assumption; try congruence; try reflexivity;
    try (simpl; congruence).
  rewrite HXr in E.
  exists (mean_se_share V n), (mean_se_share V' n), e.
  split; [exact E|].
  pose proof (synthetic_utilities _ X Z V V' g g' cf n r HXr EV Ecf EV')
    as HU.
  cbn [training tastenet TasteNetMNL_eval] in HU.
  split; [|split].
  - intros Hg. apply mean_se_share_le. intros i Hi.
    destruct (HU i Hi) as [Same H7].
    apply (se_share_monotone (entry V i) (entry V' i) Same).
    rewrite H7. specialize (Hg i Hi). nra.
  - intros Hg Hr0. apply mean_se_share_lt; [exact Hn|]. intros i Hi.
    destruct (HU i Hi) as [Same H7].
    apply (se_share_monotone (entry V i) (entry V' i) Same).
    rewrite H7. specialize (Hg i Hi). nra.
  - intros Hg Hr0. apply mean_se_share_lt; [exact Hn|]. intros i Hi.
    destruct (HU i Hi) as [Same H7].
    apply (se_share_monotone (entry V' i) (entry V i)).
    + intros k Hk Hk7. symmetry. apply Same; assumption.
    + rewrite H7. specialize (Hg i Hi). nra.
Qed.

Lemma synthetic_model_shapes (g : R) :
  model_shapes (synthetic_model g) Main.x_dim Main.z_dim.
Proof.
  unfold model_shapes, synthetic_model, Main.n_alternatives. cbn.
  repeat split; lia.
Qed.

(** ** Claims about the counterfactual engine *)

(** C5: the counterfactual credit tensor has the shape and the entries of
    the baseline, except that the columns 6, 7 and 8 are multiplied by
    1 - closure_rate; with closure_rate = 1 these columns are 0; with
    closure_rate = 0 the two rates that the engine returns are equal; and
    whenever the engine returns, its baseline rate is the rate of the
    model's probabilities on the credit tensor given, its counterfactual
    rate is the rate of the model's probabilities on that scaled tensor, all
    other inputs the same, and its effect is computed from these two. *)
Theorem counterfactual_credit_scaling {M : Type} `{ChoiceModel M}
    (model : M) (X Z credit_access se_indicator : Tensor) :
  (forall r, (9 <= cols credit_access)%nat ->
     exists cf, credit_cf credit_access r = Ok cf /\
       rows cf = rows credit_access /\ cols cf = cols credit_access /\
       (forall i j, In j branch_alts ->
                    entry cf i j = entry credit_access i j * (1 - r)) /\
       (forall i j, ~ In j branch_alts ->
                    entry cf i j = entry credit_access i j)) /\
  (forall cf i j, credit_cf credit_access 1 = Ok cf ->
                  In j branch_alts -> entry cf i j = 0) /\
  (forall b c e,
     counterfactual_analysis model X Z credit_access se_indicator 0
     = Ok (b, c, e) -> b = c) /\
  (forall r b c e,
     counterfactual_analysis model X Z credit_access se_indicator r
     = Ok (b, c, e) ->
     exists probs_base cf probs_cf,
       predict_proba (eval model) X Z credit_access se_indicator
       = Ok probs_base /\
       se_rate probs_base = Ok b /\
       credit_cf credit_access r = Ok cf /\
       rows cf = rows credit_access /\ cols cf = cols credit_access /\
       (forall i j, In j branch_alts ->
                    entry cf i j = entry credit_access i j * (1 - r)) /\
       (forall i j, ~ In j branch_alts ->
                    entry cf i j = entry credit_access i j) /\
       predict_proba (eval model) X Z cf se_indicator = Ok probs_cf /\
       se_rate probs_cf = Ok c /\
       effect c b = Ok e).
Proof.
  assert (Mem : forall j, existsb (Nat.eqb j) branch_alts = true
                          <-> In j branch_alts).
  { intros j. rewrite existsb_exists. split.
    - intros (x & Hx & E). apply Nat.eqb_eq in E. now subst.
    - intros Hj. exists j. split; [exact Hj | apply Nat.eqb_refl]. }
  split; [|split; [|split]].
  - intros r Hc. eexists. split; [apply credit_cf_value, Hc|].
    cbn [rows cols entry]. split; [reflexivity|]. split; [reflexivity|].
    split; intros i j Hj.
    + apply Mem in Hj. now rewrite Hj.
    + destruct (existsb (Nat.eqb j) branch_alts) eqn:E; [|reflexivity].
      apply Mem in E. contradiction.
  - intros cf i j E Hj. apply credit_cf_ok in E.
    destruct E as (_ & _ & E). rewrite E.
    apply Mem in Hj. rewrite Hj. ring.
  - intros b c e E. unfold counterfactual_analysis in E.
    bind_inv E. rename a into probs_base, a0 into se_rate_base,
      a1 into cf, a2 into probs_cf, a3 into se_rate_cf.
    injection E as <- <- _.
    apply credit_cf_zero in Ha1. subst cf.
    rewrite Ha in Ha2. injection Ha2 as <-.
    rewrite Ha0 in Ha3. now injection Ha3.
  - intros r b c e E. unfold counterfactual_analysis in E.
    bind_inv E. rename a into probs_base, a0 into se_rate_base,
      a1 into cf, a2 into probs_cf, a3 into se_rate_cf.
    injection E as -> -> ->.
    exists probs_base, cf, probs_cf.
    pose proof (credit_cf_ok _ _ _ Ha1) as (Rcf & Ccf & Ecf).
    repeat split; try assumption.
    + intros i j Hj. rewrite Ecf. apply Mem in Hj. now rewrite Hj.
    + intros i j Hj. rewrite Ecf.
      destruct (existsb (Nat.eqb j) branch_alts) eqn:Eb; [|reflexivity].
      apply Mem in Eb. contradiction.
Qed.

Lemma counterfactual_credit_scaling_witness :
  (exists cf, credit_cf (Main.credit_access 2) 1 = Ok cf /\
              entry cf 0 7 = 0 /\ entry cf 0 4 = 3 / 10) /\
  (exists b c e,
      counterfactual_analysis (synthetic_model 1) (zeros 2 5) (zeros 2 2)
        (Main.credit_access 2) (Main.se_indicator 2) 0 = Ok (b, c, e) /\
      b = c).
Proof.
  pose proof (counterfactual_credit_scaling (synthetic_model 1) (zeros 2 5)
                (zeros 2 2) (Main.credit_access 2) (Main.se_indicator 2))
    as (P1 & P2 & P3 & _).
  split.
  - destruct (P1 1) as (cf & E & _ & _ & _ & Hout);
      [unfold Main.credit_access, Main.n_alternatives; simpl; lia|].
    exists cf. split; [exact E|]. split.
    + apply (P2 cf 0%nat 7%nat E). simpl. auto.
    + rewrite Hout.
      * simpl. reflexivity.
      * simpl. intros [F|[F|[F|F]]]; try discriminate; exact F.
  - destruct (counterfactual_synthetic (synthetic_model 1) (zeros 2 5)
                (zeros 2 2) 2 0) as (b & c & e & E & _);
      try reflexivity; try lra; try lia; try apply synthetic_model_shapes.
    exists (PyFloat b), (PyFloat c), e. split; [exact E|].
    exact (P3 _ _ _ E).
Defined.

(** C6, as the code has it: the gamma that [forward] returns is the output
    of the taste network on X; in eval mode, where the engine puts the
    model, it is the same whatever credit_access is given.  On the synthetic
    setup of the main script with closure_rate = 0.5 the engine returns, with
    a counterfactual rate at most the baseline when no individual has a
    negative gamma, and below the baseline when every gamma is positive. *)
Theorem gamma_fixed_and_counterfactual_direction
    (m : TasteNetMNL) (X Z : Tensor) :
  (forall credit_access se_indicator lp g,
     forward m X Z credit_access se_indicator = Ok (lp, g) ->
     forall i c, entry g i c = network (tastenet m) (training m) X i) /\
  (training m = false ->
   forall credit_access credit_access' se_indicator lp g lp' g',
     forward m X Z credit_access se_indicator = Ok (lp, g) ->
     forward m X Z credit_access' se_indicator = Ok (lp', g') ->
     g' = g) /\
  (model_shapes m Main.x_dim Main.z_dim ->
   n_alternatives m = Main.n_alternatives ->
   rows X = Main.n_obs -> cols X = Main.x_dim ->
   rows Z = Main.n_obs -> cols Z = Main.z_dim ->
   exists b c e,
     counterfactual_analysis m X Z (Main.credit_access Main.n_obs)
       (Main.se_indicator Main.n_obs) (1 / 2)
     = Ok (PyFloat b, PyFloat c, e) /\
     ((forall i, (i < Main.n_obs)%nat ->
                 0 <= network (tastenet m) false X i) -> c <= b) /\
     ((forall i, (i < Main.n_obs)%nat ->
                 0 < network (tastenet m) false X i) -> c < b)).
Proof.
  assert (G : forall C S lp g,
             forward m X Z C S = Ok (lp, g) ->
             TasteNet_forward (tastenet m) (training m) X = Ok g).
  { intros C S lp g E.
    apply forward_steps in E. destruct E as (V & E & _).
    apply utility_steps in E. destruct E as (_ & _ & _ & _ & _ & _ & Hg & _).
    exact Hg. }
  split; [|split].
  - intros C S lp g E. apply G in E.
    apply TasteNet_forward_shape in E. tauto.
  - intros _ C C' S lp g lp' g' E E'.
    apply G in E. apply G in E'. rewrite E in E'. now injection E'.
  - intros Hm HJ HXr HXc HZr HZc.
    destruct (counterfactual_synthetic m X Z Main.n_obs (1 / 2)
                Hm HJ HXr HXc HZr HZc)
      as (b & c & e & E & Hle & Hlt & _).
    { unfold Main.n_obs. lia. }
    { lra. }
    exists b, c, e. split; [exact E|]. split; [exact Hle|].
    intros Hg. apply Hlt; [exact Hg | lra].
Qed.

Lemma gamma_fixed_and_counterfactual_direction_witness :
  exists b c e,
    counterfactual_analysis (synthetic_model 1)
      (zeros Main.n_obs Main.x_dim) (zeros Main.n_obs Main.z_dim)
      (Main.credit_access Main.n_obs) (Main.se_indicator Main.n_obs) (1 / 2)
    = Ok (PyFloat b, PyFloat c, e) /\ c < b.
Proof.
  destruct (proj2 (proj2 (gamma_fixed_and_counterfactual_direction
                            (synthetic_model 1) (zeros Main.n_obs Main.x_dim)
                            (zeros Main.n_obs Main.z_dim))))
    as (b & c & e & E & _ & Hlt); try reflexivity;
    try apply synthetic_model_shapes.
  exists b, c, e. split; [exact E|].
  apply Hlt. intros i _. cbn. lra.
Defined.

(** C6 as stated fails: on the synthetic setup with closure_rate = 0.5 a
    model whose gamma is -1 for every individual has a counterfactual rate
    above the baseline. *)
Lemma counterfactual_rate_can_rise :
  exists b c e,
    counterfactual_analysis (synthetic_model (-1))
      (zeros Main.n_obs Main.x_dim) (zeros Main.n_obs Main.z_dim)
      (Main.credit_access Main.n_obs) (Main.se_indicator Main.n_obs) (1 / 2)
    = Ok (PyFloat b, PyFloat c, e) /\ b < c.
Proof.
  destruct (counterfactual_synthetic (synthetic_model (-1))
              (zeros Main.n_obs Main.x_dim) (zeros Main.n_obs Main.z_dim)
              Main.n_obs (1 / 2))
    as (b & c & e & E & _ & _ & Hgt); try reflexivity; try lra;
    try apply synthetic_model_shapes.
  { unfold Main.n_obs. lia. }
  exists b, c, e. split; [exact E|].
  apply Hgt; [|lra]. intros i _. cbn. lra.
Qed.

(** C9: when the baseline rate is exactly 0 the engine raises; no value is
    returned.  The exception is Python's ZeroDivisionError whenever the
    counterfactual pass itself goes through. *)
Theorem zero_baseline_raises {M : Type} `{ChoiceModel M}
    (model : M) (X Z credit_access se_indicator probs_base : Tensor) (r : R) :
  predict_proba (eval model) X Z credit_access se_indicator = Ok probs_base ->
  se_rate probs_base = Ok (PyFloat 0) ->
  exists e,
    counterfactual_analysis model X Z credit_access se_indicator r = Raise e /\
    (forall cf probs_cf se_rate_cf,
        credit_cf credit_access r = Ok cf ->
        predict_proba (eval model) X Z cf se_indicator = Ok probs_cf ->
        se_rate probs_cf = Ok se_rate_cf ->
        e = ZeroDivisionError).
Proof.
  intros Hp Hs. unfold counterfactual_analysis.
  rewrite Hp. cbn [bind]. rewrite Hs. cbn [bind].
  destruct (credit_cf credit_access r) as [cf|e1]; cbn [bind];
    [|exists e1; split; [reflexivity | discriminate]].
  destruct (predict_proba (eval model) X Z cf se_indicator) as [pc|e2] eqn:E2;
    cbn [bind].
  2:{ exists e2. split; [reflexivity|].
      intros ? ? ? [= <-] E. rewrite E2 in E. discriminate. }
  destruct (se_rate pc) as [rc|e3] eqn:E3; cbn [bind].
  - exists ZeroDivisionError. split; [|reflexivity].
    unfold effect, py_div.
    destruct (Req_dec_T 0 0) as [_|N]; [reflexivity | contradiction].
  - exists e3. split; [reflexivity|].
    intros ? ? ? [= <-] E. rewrite E2 in E. injection E as <-.
    intros E. rewrite E3 in E. discriminate.
Qed.

Lemma zero_baseline_raises_witness :
  @counterfactual_analysis unit underflow_model tt (zeros 1 5) (zeros 1 2)
    (Main.credit_access 1) (Main.se_indicator 1) (1 / 2)
  = Raise ZeroDivisionError.
Proof.
  pose (P := mkTensor 1 9 (fun (_ j : nat) => if Nat.eqb j 0 then 1 else 0)).
  assert (Hs : se_rate P = Ok (PyFloat 0)).
  { rewrite se_rate_value; [|reflexivity | simpl; lia].
    do 2 f_equal. simpl. lra. }
  destruct (@zero_baseline_raises unit underflow_model tt (zeros 1 5)
              (zeros 1 2) (Main.credit_access 1) (Main.se_indicator 1) P
              (1 / 2) eq_refl Hs) as (e & E & He).
  rewrite E. f_equal.
  eapply He.
  - apply credit_cf_value. cbv. lia.
  - reflexivity.
  - apply se_rate_value; [reflexivity | simpl; lia].
Defined.

(** ** The training loop *)

Lemma lt_bound_finite (v w : R) :
  lt_bound (Finite v) (Finite w) = true <-> v < w.
Proof.
  simpl. destruct (Rlt_dec v w); split; intros; try discriminate; tauto.
Qed.

Lemma lt_bound_finite_false (v w : R) :
  lt_bound (Finite v) (Finite w) = false <-> w <= v.
Proof.
  simpl. destruct (Rlt_dec v w); split; intros; try discriminate; lra.
Qed.

(** The order of Python's [<] on floats. *)
Ltac lt_bound_cases :=
  cbn [lt_bound];
  repeat match goal with
         | |- context [Rlt_dec ?a ?b] => destruct (Rlt_dec a b)
         end;
  intros; try discriminate; try reflexivity; try lra; auto.

Lemma lt_bound_irrefl (a : loss_float) : lt_bound a a = false.
Proof. destruct a; lt_bound_cases. Qed.

Lemma lt_bound_nan_r (a : loss_float) : lt_bound a NaN = false.
Proof. destruct a; reflexivity. Qed.

Lemma lt_bound_asym (a b : loss_float) :
  lt_bound a b = true -> lt_bound b a = false.
Proof. destruct a, b; lt_bound_cases. Qed.

Lemma lt_bound_trans (a b c : loss_float) :
  lt_bound a b = true -> lt_bound b c = true -> lt_bound a c = true.
Proof. destruct a, b, c; lt_bound_cases. Qed.

(** What is not below [b] is not below anything below [b]. *)
Lemma lt_bound_not_below (a b c : loss_float) :
  lt_bound a b = true -> lt_bound c b = false -> lt_bound c a = false.
Proof. destruct a, b, c; lt_bound_cases. Qed.

(** What is not below [b] is NaN, or above everything below [b]. *)
Lemma lt_bound_above (a b c : loss_float) :
  lt_bound a b = true -> lt_bound c b = false ->
  lt_bound a c = true \/ c = NaN.
Proof. destruct a, b, c; lt_bound_cases. Qed.

(** Below infinity are the real numbers and minus infinity. *)
Lemma lt_bound_infinity (v : loss_float) :
  lt_bound v Infinity = true <-> v <> NaN /\ v <> Infinity.
Proof.
  destruct v; cbn; split; intros H; try discriminate; try reflexivity;
    try (split; discriminate); destruct H as [H1 H2]; congruence.
Qed.

Section TrainerFacts.

Variable StateDict : Type.
Variable Optimizer : Type.
Variable Batch : Type.
Variable new_optimizer : R -> Optimizer.
Variable train_batch :
  StateDict -> Optimizer -> Batch
  -> result (StateDict * Optimizer * loss_float).
Variable val_batch : StateDict -> Batch -> result loss_float.
Variable scheduler_step : Optimizer -> loss_float -> Optimizer.
Variables train_loader val_loader : list Batch.

Local Abbreviation phases :=
  (epoch_phases StateDict Optimizer Batch train_batch val_batch scheduler_step
     train_loader val_loader).
Local Abbreviation body :=
  (epoch_body StateDict Optimizer Batch train_batch val_batch scheduler_step
     train_loader val_loader).
Local Abbreviation loop :=
  (epochs_loop StateDict Optimizer Batch train_batch val_batch scheduler_step
     train_loader val_loader).
Local Abbreviation hist :=
  (history StateDict Optimizer Batch train_batch val_batch scheduler_step
     train_loader val_loader).

(** What the loop leaves, in terms of the epochs it ran. *)
Lemma epochs_loop_invariant (n : nat) :
  forall st st' : TrainState StateDict Optimizer,
    loop n st = Ok st' ->
    (patience_counter st < 20)%nat ->
    exists h,
      hist (length h) (state_dict (st_model st)) (optimizer st) = Ok h /\
      (length h <= n)%nat /\ (n <> O -> h <> []) /\
      (((forall e sd v, nth_error h e = Some (sd, v) ->
                        lt_bound v (best_val_loss st) = false) /\
        best_val_loss st' = best_val_loss st /\
        checkpoint st' = checkpoint st /\
        patience_counter st' = (patience_counter st + length h)%nat)
       \/
       (exists b sd v,
           improves (best_val_loss st) h b sd v /\
           best_val_loss st' = v /\ checkpoint st' = Some sd /\
           (patience_counter st' + b + 1 = length h)%nat)) /\
      (length h = n \/ patience_counter st' = 20%nat).
Proof.
  induction n as [|k IH]; intros st st' E Hpc.
  - injection E as <-. exists []. simpl.
    repeat split; try lia; try tauto.
    left. repeat split; try lia.
    intros e sd v H. destruct e; discriminate.
  - cbn [epochs_loop] in E. apply bind_ok in E.
    destruct E as ([st1 stop] & Hbody & E).
    unfold epoch_body in Hbody. apply bind_ok in Hbody.
    destruct Hbody as ([[sd1 opt1] v1] & Hph & Hbody).
    destruct (lt_bound v1 (best_val_loss st)) eqn:Hlt.
    + (* the epoch improves on the best loss *)
      injection Hbody as <- <-.
      destruct (IH _ _ E ltac:(simpl; lia))
        as (h' & Hh & Hlen & _ & Hcase & Hstop).
      cbn [st_model state_dict optimizer best_val_loss checkpoint
             patience_counter] in *.
      exists ((sd1, v1) :: h'). cbn [length history].
      rewrite Hph. cbn [bind]. rewrite Hh. cbn [bind].
      split; [reflexivity|]. split; [lia|]. split; [discriminate|].
      split; [|lia]. right.
      destruct Hcase as [(Hno & Hb & Hc & Hp) | (b & sd & v & Himp & Hb & Hc & Hp)].
      * exists O, sd1, v1. repeat split; try assumption; try lia.
        intros [|e] sd' v' H; cbn in H.
        -- injection H as _ <-. apply lt_bound_irrefl.
        -- eapply Hno. exact H.
      * destruct Himp as (Hnth & Hlt' & Hmin & Hfirst).
        exists (S b), sd, v. repeat split; try assumption; try lia.
        -- exact (lt_bound_trans _ _ _ Hlt' Hlt).
        -- intros [|e] sd' v' H; cbn in H.
           ++ injection H as _ <-. apply lt_bound_asym, Hlt'.
           ++ eapply Hmin. exact H.
        -- intros [|e] sd' v' He H; cbn in H.
           ++ injection H as _ <-. left. exact Hlt'.
           ++ eapply Hfirst; [|exact H]. lia.
    + (* no improvement: the patience counter grows *)
      remember (Nat.leb 20 (S (patience_counter st))) as stop0 eqn:Hstop
        in Hbody.
      injection Hbody as <- <-. symmetry in Hstop.
      destruct stop0.
      * (* break *)
        injection E as <-. apply Nat.leb_le in Hstop.
        exists [(sd1, v1)]. cbn [length history].
        rewrite Hph. cbn [bind].
        split; [reflexivity|]. split; [lia|]. split; [discriminate|].
        cbn [best_val_loss checkpoint patience_counter].
        split; [|right; lia]. left. repeat split; try lia.
        intros [|[|e]] sd v H; cbn in H; try discriminate.
        injection H as _ <-. exact Hlt.
      * apply Nat.leb_gt in Hstop.
        destruct (IH _ _ E ltac:(simpl; lia))
          as (h' & Hh & Hlen & _ & Hcase & Hstop').
        cbn [st_model state_dict optimizer best_val_loss checkpoint
               patience_counter] in *.
        exists ((sd1, v1) :: h'). cbn [length history].
        rewrite Hph. cbn [bind]. rewrite Hh. cbn [bind].
        split; [reflexivity|]. split; [lia|]. split; [discriminate|].
        split; [|lia].
        destruct Hcase as [(Hno & Hb & Hc & Hp) | (b & sd & v & Himp & Hb & Hc & Hp)].
        -- left. repeat split; try assumption; try lia.
           intros [|e] sd' v' H; cbn in H.
           ++ injection H as _ <-. exact Hlt.
           ++ eapply Hno. exact H.
        -- right. destruct Himp as (Hnth & Hlt' & Hmin & Hfirst).
           exists (S b), sd, v. repeat split; try assumption; try lia.
           ++ intros [|e] sd' v' H; cbn in H.
              ** injection H as _ <-.
                 exact (lt_bound_not_below _ _ _ Hlt' Hlt).
              ** eapply Hmin. exact H.
           ++ intros [|e] sd' v' He H; cbn in H.
              ** injection H as _ <-.
                 exact (lt_bound_above _ _ _ Hlt' Hlt).
              ** eapply Hfirst; [|exact H]. lia.
Qed.

End TrainerFacts.

(** ** Claims about the trainer *)

Section TrainerClaims.

Variable StateDict : Type.
Variable Optimizer : Type.
Variable Batch : Type.
Variable new_optimizer : R -> Optimizer.
Variable train_batch :
  StateDict -> Optimizer -> Batch
  -> result (StateDict * Optimizer * loss_float).
Variable val_batch : StateDict -> Batch -> result loss_float.
Variable scheduler_step : Optimizer -> loss_float -> Optimizer.

Local Abbreviation train :=
  (train_tastenet_mnl StateDict Optimizer Batch new_optimizer train_batch
     val_batch scheduler_step).
Local Abbreviation hist :=
  (history StateDict Optimizer Batch train_batch val_batch scheduler_step).

(** C3, as the code has it: a run with an epoch 0 (an epoch budget of at
    least 1) that returns has run the epochs of a history [h], until the
    budget or until 20 epochs in a row brought no improvement.  Either no
    epoch had a validation loss below [float('inf')] (each was NaN or
    infinite): then nothing was saved, and the returned model carries the
    parameters of the checkpoint file that the run found.  Or the returned
    model and the checkpoint file hold the parameters saved at an epoch
    [best], whichever parameters the last epoch left: no epoch has a
    validation loss below that of [best] (so it is not worse than the loss
    of epoch 0, and at most every loss that is a number), every earlier
    epoch has a loss above it or NaN, and when epoch 0 saved a checkpoint
    and no epoch has a loss below that of epoch 0, the checkpoint of
    epoch 0 is the one restored. *)
Theorem trainer_restores_best_checkpoint
    (model model' : Module StateDict) (file file' : option StateDict)
    (train_loader val_loader : list Batch) (epochs : nat) (lr : R) :
  (0 < epochs)%nat ->
  train model file train_loader val_loader epochs lr = Ok (model', file') ->
  exists h sd0 v0,
    hist train_loader val_loader (length h) (state_dict model)
      (new_optimizer lr) = Ok h /\
    (length h <= epochs)%nat /\
    nth_error h O = Some (sd0, v0) /\
    (((forall e sd v, nth_error h e = Some (sd, v) ->
                      lt_bound v Infinity = false) /\
      (length h = epochs \/ length h = 20%nat) /\
      file' = file /\ file = Some (state_dict model'))
     \/
     (exists best sd v,
         (length h = epochs \/ length h = (best + 21)%nat) /\
         nth_error h best = Some (sd, v) /\
         lt_bound v Infinity = true /\
         state_dict model' = sd /\ file' = Some sd /\
         (forall e sd' v', nth_error h e = Some (sd', v') ->
                           lt_bound v' v = false) /\
         (forall e sd' v', (e < best)%nat ->
                           nth_error h e = Some (sd', v') ->
                           lt_bound v v' = true \/ v' = NaN) /\
         lt_bound v0 v = false /\
         (forall e sd' (r r' : R),
             v = Finite r -> nth_error h e = Some (sd', Finite r') ->
             r <= r') /\
         (lt_bound v0 Infinity = true ->
          (forall e sd' v', nth_error h e = Some (sd', v') ->
                            lt_bound v' v0 = false) ->
          best = O /\ state_dict model' = sd0))).
Proof.
  intros Hep E. unfold train_tastenet_mnl in E.
  apply bind_ok in E. destruct E as (st' & Hloop & E).
  apply bind_ok in E. destruct E as (sdl & Hload & E).
  injection E as <- <-.
  apply epochs_loop_invariant in Hloop; [|simpl; lia].
  destruct Hloop as (h & Hh & Hlen & Hne & Hcase & Hstop).
  cbn [st_model state_dict optimizer best_val_loss checkpoint
         patience_counter] in *.
  specialize (Hne ltac:(lia)).
  destruct h as [|[sd0 v0] h']; [contradiction|].
  exists ((sd0, v0) :: h'), sd0, v0.
  split; [exact Hh|]. split; [exact Hlen|]. split; [reflexivity|].
  destruct Hcase as [(Hno & _ & Hc & Hp) | (b & sd & v & Himp & Hb & Hc & Hp)].
  - left. split; [exact Hno|]. split; [lia|]. split; [exact Hc|].
    rewrite Hc in Hload. destruct file as [sdf|]; [|discriminate].
    injection Hload as <-. reflexivity.
  - right. destruct Himp as (Hnth & Hinf & Hmin & Hfirst).
    rewrite Hc in Hload. injection Hload as <-.
    exists b, sd, v.
    split; [lia|]. split; [exact Hnth|]. split; [exact Hinf|].
    split; [reflexivity|]. split; [exact Hc|].
    split; [exact Hmin|]. split; [exact Hfirst|].
    split; [exact (Hmin O sd0 v0 eq_refl)|]. split.
    + intros e sd' r r' -> He. apply lt_bound_finite_false.
      exact (Hmin e sd' (Finite r') He).
    + intros H0 Hzero.
      destruct b as [|b].
      * cbn in Hnth. injection Hnth as <- <-. auto.
      * exfalso.
        destruct (Hfirst O sd0 v0 ltac:(lia) eq_refl) as [Hlt|Hnan].
        -- pose proof (Hzero _ _ _ Hnth). congruence.
        -- subst v0. discriminate.
Qed.

(** C8, as the code has it: with an empty validation loader and an epoch
    budget of at least 1 the run raises in its first epoch: the exception of
    the training batches if one of them raises, and otherwise Python's
    ZeroDivisionError from the division by the length of a loader. *)
Theorem empty_validation_loader_raises
    (model : Module StateDict) (file : option StateDict)
    (train_loader : list Batch) (epochs : nat) (lr : R) :
  (0 < epochs)%nat ->
  exists e,
    train model file train_loader [] epochs lr = Raise e /\
    (forall r,
        train_batches StateDict Optimizer Batch train_batch
          (state_dict model) (new_optimizer lr) train_loader 0 = Ok r ->
        e = ZeroDivisionError).
Proof.
  intros Hep. destruct epochs as [|k]; [lia|].
  unfold train_tastenet_mnl. cbn [epochs_loop].
  unfold epoch_body, epoch_phases.
  cbn [st_model state_dict optimizer].
  destruct (train_batches StateDict Optimizer Batch train_batch
              (state_dict model) (new_optimizer lr) train_loader 0)
    as [[[sd opt] tl]|e]; cbn [bind val_batches].
  - exists ZeroDivisionError. split; [|reflexivity].
    destruct (length train_loader); reflexivity.
  - exists e. split; [reflexivity | discriminate].
Qed.

End TrainerClaims.

Lemma trainer_restores_best_checkpoint_witness :
  toy_train (mkModule 0%nat true) None [tt] [tt] 3
  = Ok (mkModule 2%nat false, Some 2%nat) /\
  exists h,
    history nat unit unit toy_train_batch toy_val_batch (fun opt _ => opt)
      [tt] [tt] (length h) 0%nat tt = Ok h /\
    exists best v,
      nth_error h best = Some (2%nat, v) /\
      lt_bound v Infinity = true /\
      forall e sd' v', nth_error h e = Some (sd', v') ->
                       lt_bound v' v = false.
Proof.
  assert (E : toy_train (mkModule 0%nat true) None [tt] [tt] 3
              = Ok (mkModule 2%nat false, Some 2%nat)).
  { unfold toy_train, train_tastenet_mnl.
    cbn [epochs_loop]. unfold epoch_body, epoch_phases.
    cbn -[Rlt_dec Rdiv Rplus].
    destruct (Rlt_dec ((0 + 1) / 1) ((0 + 3) / 1)) as [_|N]; [|exfalso; lra].
    cbn -[Rlt_dec Rdiv Rplus].
    destruct (Rlt_dec ((0 + 2) / 1) ((0 + 1) / 1)) as [N|_]; [exfalso; lra|].
    reflexivity. }
  split; [exact E|].
  destruct (trainer_restores_best_checkpoint nat unit unit (fun _ => tt)
              toy_train_batch toy_val_batch (fun opt _ => opt)
              (mkModule 0%nat true) (mkModule 2%nat false) None (Some 2%nat)
              [tt] [tt] 3 (1 / 1000) ltac:(lia) E)
    as (h & sd0 & v0 & Hh & _ & _ & [(_ & _ & Hf & _) | Hbest]).
  { discriminate Hf. }
  destruct Hbest as (best & sd & v & _ & Hnth & Hinf & Hsd & _ & Hmin & _).
  exists h. split; [exact Hh|].
  exists best, v. simpl in Hsd. subst sd.
  split; [exact Hnth|]. split; [exact Hinf | exact Hmin].
Defined.

(** C3 as stated fails.  When the validation loss of every epoch is NaN, no
    epoch is below [float('inf')] and nothing is saved: the run returns the
    parameters of a checkpoint file that an earlier run left, which are the
    parameters of no epoch of this run, and without such a file it raises
    FileNotFoundError.  With an epoch budget of 0 there is no epoch 0, and
    the file found is returned as well. *)
Lemma trainer_returns_stale_checkpoint :
  nan_train (mkModule 0%nat true) (Some 7%nat) [tt] [tt] 3
  = Ok (mkModule 7%nat false, Some 7%nat) /\
  nan_train (mkModule 0%nat true) None [tt] [tt] 3
  = Raise FileNotFoundError /\
  toy_train (mkModule 0%nat true) (Some 7%nat) [tt] [tt] 0
  = Ok (mkModule 7%nat true, Some 7%nat).
Proof. repeat split; reflexivity. Qed.

Lemma empty_validation_loader_raises_witness :
  toy_train (mkModule 0%nat true) None [tt] [] 3 = Raise ZeroDivisionError.
Proof.
  destruct (empty_validation_loader_raises nat unit unit (fun _ => tt)
              toy_train_batch toy_val_batch (fun opt _ => opt)
              (mkModule 0%nat true) None [tt] 3 (1 / 1000) ltac:(lia))
    as (e & E & He).
  unfold toy_train. rewrite E. f_equal. eapply He. reflexivity.
Defined.

(** C8 as stated fails: with an epoch budget of 0 no epoch runs and
    nothing is divided; an empty validation loader goes unnoticed, and the
    run returns whatever checkpoint file an earlier run left. *)
Lemma empty_validation_loader_unnoticed :
  toy_train (mkModule 0%nat true) (Some 7%nat) [tt] [] 0
  = Ok (mkModule 7%nat true, Some 7%nat).
Proof. reflexivity. Qed.

(** ** The engine over the store *)

Lemma extends_refl (s : store) : extends s s.
Proof. exists []. now rewrite app_nil_r. Qed.

Lemma extends_trans (s1 s2 s3 : store) :
  extends s1 s2 -> extends s2 s3 -> extends s1 s3.
Proof.
  intros [f1 ->] [f2 ->]. exists (f1 ++ f2). now rewrite app_assoc.
Qed.

Lemma extends_lookup (s s' : store) (l : loc) (T : Tensor) :
  extends s s' -> nth_error s l = Some T -> nth_error s' l = Some T.
Proof.
  intros [f ->] H. rewrite nth_error_app1; [exact H|].
  apply nth_error_Some. congruence.
Qed.

Lemma bindS_ok {A B : Type} (c : St A) (k : A -> St B) (s : store)
    (r : B * store) :
  bindS c k s = Ok r -> exists a s1, c s = Ok (a, s1) /\ k a s1 = Ok r.
Proof.
  unfold bindS. destruct (c s) as [[a s1]|e]; [|discriminate].
  intros E. eauto.
Qed.

Lemma load_ok (l : loc) (s s' : store) (T : Tensor) :
  load l s = Ok (T, s') -> s' = s /\ nth_error s l = Some T.
Proof.
  unfold load. destruct (nth_error s l); [|discriminate].
  intros [= -> ->]. auto.
Qed.

Lemma new_ok (T : Tensor) (s s' : store) (l : loc) :
  new T s = Ok (l, s') -> l = length s /\ s' = s ++ [T].
Proof. unfold new. intros [= <- <-]. auto. Qed.

Lemma lift_ok {A : Type} (r : result A) (s s' : store) (a : A) :
  lift r s = Ok (a, s') -> s' = s /\ r = Ok a.
Proof.
  unfold lift. destruct r; [|discriminate]. intros [= -> ->]. auto.
Qed.

Lemma ret_ok {A : Type} (a a' : A) (s s' : store) :
  ret a s = Ok (a', s') -> a' = a /\ s' = s.
Proof. unfold ret. intros [= -> ->]. auto. Qed.

(** Splits a successful run over the store into its steps. *)
Ltac run_inv H :=
  repeat match type of H with
         | bindS _ _ _ = Ok _ =>
             let a := fresh "a" in
             let s := fresh "s" in
             let Ha := fresh "Ha" in
             apply bindS_ok in H; destruct H as (a & s & Ha & H)
         | (match ?p with (_, _) => _ end) _ = Ok _ => destruct p
         end.

Lemma update_last (s : store) (T T' : Tensor) :
  update (s ++ [T]) (length s) T' = s ++ [T'].
Proof.
  induction s as [|t s IH]; simpl.
  - reflexivity.
  - now rewrite IH.
Qed.

Lemma deref_ok (m : TasteNetMNL_obj) (s s' : store) (mv : TasteNetMNL) :
  deref m s = Ok (mv, s') ->
  s' = s /\
  exists b d, nth_error s (obj_beta m) = Some b /\
              nth_error s (obj_delta m) = Some d /\
              mv = mkTasteNetMNL (obj_n_alternatives m) b d (obj_tastenet m)
                     (obj_training m).
Proof.
  unfold deref. intros E. run_inv E.
  apply load_ok in Ha. destruct Ha as [-> Hb].
  apply load_ok in Ha0. destruct Ha0 as [-> Hd].
  apply ret_ok in E. destruct E as [-> ->].
  split; [reflexivity|]. eauto.
Qed.

(** What a successful [forward_st] read and what it left. *)
Lemma forward_st_ok (m : TasteNetMNL_obj) (pX pZ pC pS p pg : loc)
    (s s' : store) :
  forward_st m pX pZ pC pS s = Ok (p, pg, s') ->
  exists x z c sv mv lp g,
    nth_error s pX = Some x /\ nth_error s pZ = Some z /\
    nth_error s pC = Some c /\ nth_error s pS = Some sv /\
    deref m s = Ok (mv, s) /\
    forward mv x z c sv = Ok (lp, g) /\
    s' = s ++ [lp; g] /\ p = length s /\ pg = Datatypes.S (length s).
Proof.
  unfold forward_st. intros E. run_inv E.
  apply load_ok in Ha. destruct Ha as [-> HX].
  apply load_ok in Ha0. destruct Ha0 as [-> HZ].
  apply load_ok in Ha1. destruct Ha1 as [-> HC].
  apply load_ok in Ha2. destruct Ha2 as [-> HS].
  pose proof Ha3 as Hd. apply deref_ok in Ha3. destruct Ha3 as [-> _].
  apply lift_ok in Ha4. destruct Ha4 as [-> Hf].
  apply new_ok in Ha5. destruct Ha5 as [-> ->].
  apply new_ok in Ha6. destruct Ha6 as [-> ->].
  apply ret_ok in E. destruct E as [E ->]. injection E as -> ->.
  exists a, a0, a1, a2, a3, t, t0.
  repeat split; try assumption.
  - rewrite <- app_assoc. reflexivity.
  - rewrite length_app. simpl. lia.
Qed.

(** What a successful [predict_proba_st] read and what it left. *)
Lemma predict_proba_st_ok (m : TasteNetMNL_obj) (pX pZ pC pS p : loc)
    (s s' : store) :
  predict_proba_st m pX pZ pC pS s = Ok (p, s') ->
  exists x z c sv mv lp g P,
    nth_error s pX = Some x /\ nth_error s pZ = Some z /\
    nth_error s pC = Some c /\ nth_error s pS = Some sv /\
    deref m s = Ok (mv, s) /\
    TasteNetMNL_predict_proba mv x z c sv = Ok P /\
    s' = s ++ [lp; g; P] /\ nth_error s' p = Some P.
Proof.
  unfold predict_proba_st. intros E. run_inv E.
  apply forward_st_ok in Ha.
  destruct Ha as (x & z & c & sv & mv & lp & g & HX & HZ & HC & HS & Hd
                  & Hf & -> & -> & ->).
  apply load_ok in Ha0. destruct Ha0 as [-> Hlp].
  apply new_ok in E. destruct E as [-> ->].
  rewrite nth_error_app2 in Hlp by lia.
  rewrite Nat.sub_diag in Hlp. injection Hlp as <-.
  exists x, z, c, sv, mv, lp, g, (texp lp).
  repeat split; try assumption.
  - unfold TasteNetMNL_predict_proba. rewrite Hf. reflexivity.
  - rewrite <- app_assoc. reflexivity.
  - rewrite nth_error_app2 by lia. rewrite Nat.sub_diag. reflexivity.
Qed.

Lemma se_rate_st_ok (p : loc) (s s' : store) (r : pyfloat) :
  se_rate_st p s = Ok (r, s') ->
  s' = s /\ exists P, nth_error s p = Some P /\ se_rate P = Ok r.
Proof.
  unfold se_rate_st. intros E. run_inv E.
  apply load_ok in Ha. destruct Ha as [-> HP].
  apply lift_ok in E. destruct E as [-> Hr]. eauto.
Qed.

Lemma clone_st_ok (t l : loc) (s s' : store) :
  clone_st t s = Ok (l, s') ->
  exists T, nth_error s t = Some T /\ l = length s /\ s' = s ++ [clone T].
Proof.
  unfold clone_st. intros E. run_inv E.
  apply load_ok in Ha. destruct Ha as [-> HT].
  apply new_ok in E. destruct E as [-> ->]. eauto.
Qed.

(** The in-place product on the newest object of the store replaces that
    object and no other. *)
Lemma imul_cols_st_last (idx : list nat) (k : R) (s s' : store) (T : Tensor)
    (u : unit) :
  imul_cols_st (length s) idx k (s ++ [T]) = Ok (u, s') ->
  exists T', imul_cols T idx k = Ok T' /\ s' = s ++ [T'].
Proof.
  unfold imul_cols_st. intros E. run_inv E.
  apply load_ok in Ha. destruct Ha as [-> HT].
  rewrite nth_error_app2, Nat.sub_diag in HT by lia. injection HT as <-.
  apply lift_ok in Ha0. destruct Ha0 as [-> HT'].
  unfold write in E. rewrite length_app in E. cbn [length] in E.
  destruct (Nat.ltb_spec (length s) (length s + 1)) as [_|N]; [|lia].
  injection E as _ <-. rewrite update_last. eauto.
Qed.

Lemma deref_eval (m : TasteNetMNL_obj) (s s1 : store) (mv mv1 : TasteNetMNL) :
  deref m s = Ok (mv, s) -> extends s s1 ->
  deref (obj_eval m) s1 = Ok (mv1, s1) ->
  mv1 = TasteNetMNL_eval mv.
Proof.
  intros Hd Hext Hd1.
  apply deref_ok in Hd. destruct Hd as (_ & b & d & Hb & Hdl & ->).
  apply deref_ok in Hd1. destruct Hd1 as (_ & b1 & d1 & Hb1 & Hdl1 & ->).
  cbn [obj_eval obj_beta obj_delta] in Hb1, Hdl1.
  rewrite (extends_lookup _ _ _ _ Hext Hb) in Hb1. injection Hb1 as <-.
  rewrite (extends_lookup _ _ _ _ Hext Hdl) in Hdl1. injection Hdl1 as <-.
  reflexivity.
Qed.

(** ** Claim about what the engine writes *)

(** C10: a call of the engine that returns has left every tensor object
    that existed before the call as it was (the caller's X, Z,
    credit_access and se_indicator and the parameter tensors beta and delta
    among them): the store has only grown, by the results of [forward] and
    by the clone of credit_access, which is the one object written in
    place.  The model keeps its parameters and its taste network and is left
    in eval mode.  The values returned are those of the engine on the
    tensors held at the given addresses. *)
Theorem counterfactual_analysis_frame
    (model model' : TasteNetMNL_obj) (pX pZ pC pS : loc) (r : R)
    (s s' : store) (out : pyfloat * pyfloat * pyfloat) :
  counterfactual_analysis_st model pX pZ pC pS r s = Ok (model', out, s') ->
  extends s s' /\
  (forall l T, nth_error s l = Some T -> nth_error s' l = Some T) /\
  (obj_beta model' = obj_beta model /\ obj_delta model' = obj_delta model /\
   obj_tastenet model' = obj_tastenet model /\
   obj_n_alternatives model' = obj_n_alternatives model /\
   obj_training model' = false) /\
  exists X Z credit_access se_indicator mv,
    nth_error s pX = Some X /\ nth_error s pZ = Some Z /\
    nth_error s pC = Some credit_access /\
    nth_error s pS = Some se_indicator /\
    deref model s = Ok (mv, s) /\
    counterfactual_analysis mv X Z credit_access se_indicator r = Ok out.
Proof.
  unfold counterfactual_analysis_st. intros E. run_inv E.
  rename a into pb, a0 into rb, a1 into cf, a3 into pc, a4 into rc,
    a5 into eff.
  apply ret_ok in E. destruct E as [E ->]. injection E as -> ->.
  (* baseline pass *)
  apply predict_proba_st_ok in Ha.
  destruct Ha as (x & z & c & sv & mv1 & lp & g & P & HX & HZ & HC & HS & Hd1
                  & HP & -> & Hpb).
  apply se_rate_st_ok in Ha0. destruct Ha0 as (-> & P' & HP' & Hrb).
  rewrite Hpb in HP'. injection HP' as <-.
  (* the clone and the in-place product *)
  apply clone_st_ok in Ha1. destruct Ha1 as (c' & Hc' & -> & ->).
  assert (X1 : extends s (s ++ [lp; g; P])) by (eexists; reflexivity).
  rewrite (extends_lookup _ _ _ _ X1 HC) in Hc'. injection Hc' as <-.
  apply imul_cols_st_last in Ha2. destruct Ha2 as (T' & HT' & ->).
  assert (X4 : extends s ((s ++ [lp; g; P]) ++ [T']))
    by (eapply extends_trans; [exact X1 | eexists; reflexivity]).
  (* counterfactual pass *)
  apply predict_proba_st_ok in Ha3.
  destruct Ha3 as (x2 & z2 & c2 & sv2 & mv2 & lp2 & g2 & P2 & HX2 & HZ2 & HC2
                   & HS2 & Hd2 & HP2 & -> & Hpc).
  rewrite (extends_lookup _ _ _ _ X4 HX) in HX2. injection HX2 as <-.
  rewrite (extends_lookup _ _ _ _ X4 HZ) in HZ2. injection HZ2 as <-.
  rewrite (extends_lookup _ _ _ _ X4 HS) in HS2. injection HS2 as <-.
  rewrite nth_error_app2, Nat.sub_diag in HC2 by lia. injection HC2 as <-.
  apply se_rate_st_ok in Ha4. destruct Ha4 as (-> & P2' & HP2' & Hrc).
  rewrite Hpc in HP2'. injection HP2' as <-.
  apply lift_ok in Ha5. destruct Ha5 as [-> Heff].
  assert (X5 : extends s (((s ++ [lp; g; P]) ++ [T']) ++ [lp2; g2; P2]))
    by (eapply extends_trans; [exact X4 | eexists; reflexivity]).
  (* the model as a value *)
  assert (Hd : exists mv, deref model s = Ok (mv, s)).
  { apply deref_ok in Hd1. destruct Hd1 as (_ & b & d & Hb & Hdl & _).
    cbn [obj_eval obj_beta obj_delta] in Hb, Hdl.
    unfold deref, bindS, load, ret. rewrite Hb, Hdl. eauto. }
  destruct Hd as (mv & Hd).
  pose proof (deref_eval _ _ _ _ _ Hd (extends_refl s) Hd1) as ->.
  pose proof (deref_eval _ _ _ _ _ Hd X4 Hd2) as ->.
  split; [exact X5|].
  split; [intros l T; apply extends_lookup; exact X5|].
  split; [cbn; auto|].
  exists x, z, c, sv, mv. repeat split; try assumption.
  unfold counterfactual_analysis.
  cbn [eval predict_proba TasteNetMNL_ChoiceModel].
  rewrite HP. cbn [bind]. rewrite Hrb. cbn [bind].
  unfold credit_cf. rewrite HT'. cbn [bind].
  rewrite HP2. cbn [bind]. rewrite Hrc. cbn [bind].
  rewrite Heff. reflexivity.
Qed.

(** The converse: where the engine on the values returns, so does the
    engine over the store. *)
Lemma bindS_run {A B : Type} (c : St A) (k : A -> St B) (s s1 : store)
    (a : A) :
  c s = Ok (a, s1) -> bindS c k s = k a s1.
Proof. unfold bindS. now intros ->. Qed.

Lemma load_run (l : loc) (s : store) (T : Tensor) :
  nth_error s l = Some T -> load l s = Ok (T, s).
Proof. unfold load. now intros ->. Qed.

Lemma predict_proba_st_run (m : TasteNetMNL_obj) (pX pZ pC pS : loc)
    (s : store) (x z c sv P : Tensor) (mv : TasteNetMNL) :
  nth_error s pX = Some x -> nth_error s pZ = Some z ->
  nth_error s pC = Some c -> nth_error s pS = Some sv ->
  deref m s = Ok (mv, s) ->
  TasteNetMNL_predict_proba mv x z c sv = Ok P ->
  exists lp g,
    predict_proba_st m pX pZ pC pS s
    = Ok (Datatypes.S (Datatypes.S (length s)), s ++ [lp; g; P]).
Proof.
  intros HX HZ HC HS Hd HP.
  unfold TasteNetMNL_predict_proba in HP. apply bind_ok in HP.
  destruct HP as ([lp g] & Hf & HP). injection HP as <-.
  exists lp, g. unfold predict_proba_st, forward_st.
  rewrite (bindS_run _ _ s (s ++ [lp; g]) (length s, Datatypes.S (length s))).
  - rewrite (bindS_run _ _ _ (s ++ [lp; g]) lp).
    + unfold new. rewrite length_app, <- app_assoc. cbn [length app].
      do 2 f_equal. lia.
    + apply load_run. rewrite nth_error_app2, Nat.sub_diag by lia.
      reflexivity.
  - rewrite (bindS_run _ _ _ _ _ (load_run _ _ _ HX)).
    rewrite (bindS_run _ _ _ _ _ (load_run _ _ _ HZ)).
    rewrite (bindS_run _ _ _ _ _ (load_run _ _ _ HC)).
    rewrite (bindS_run _ _ _ _ _ (load_run _ _ _ HS)).
    rewrite (bindS_run _ _ _ _ _ Hd).
    unfold bindS, lift, new, ret. rewrite Hf.
    rewrite length_app, <- app_assoc. cbn [length app].
    do 3 f_equal. lia.
Qed.

Lemma counterfactual_analysis_st_run (model : TasteNetMNL_obj)
    (pX pZ pC pS : loc) (r : R) (s : store) (x z c sv : Tensor)
    (mv : TasteNetMNL) (out : pyfloat * pyfloat * pyfloat) :
  nth_error s pX = Some x -> nth_error s pZ = Some z ->
  nth_error s pC = Some c -> nth_error s pS = Some sv ->
  deref model s = Ok (mv, s) ->
  counterfactual_analysis mv x z c sv r = Ok out ->
  exists s',
    counterfactual_analysis_st model pX pZ pC pS r s
    = Ok (obj_eval model, out, s').
Proof.
  intros HX HZ HC HS Hd E.
  unfold counterfactual_analysis in E.
  cbn [eval predict_proba TasteNetMNL_ChoiceModel] in E.
  bind_inv E. rename a into Pb, a0 into rb, a1 into cf, a2 into Pc,
    a3 into rc, a4 into eff.
  injection E as <-.
  assert (Hde : forall s1, extends s s1 ->
                  deref (obj_eval model) s1 = Ok (TasteNetMNL_eval mv, s1)).
  { intros s1 Hext. apply deref_ok in Hd.
    destruct Hd as (_ & b & d & Hb & Hdl & ->).
    unfold deref. cbn [obj_eval obj_beta obj_delta].
    rewrite (bindS_run _ _ _ _ _
               (load_run _ _ _ (extends_lookup _ _ _ _ Hext Hb))).
    rewrite (bindS_run _ _ _ _ _
               (load_run _ _ _ (extends_lookup _ _ _ _ Hext Hdl))).
    reflexivity. }
  destruct (predict_proba_st_run (obj_eval model) pX pZ pC pS s x z c sv Pb
              _ HX HZ HC HS (Hde s (extends_refl s)) Ha) as (lp & g & R1).
  set (s1 := s ++ [lp; g; Pb]) in *.
  assert (X1 : extends s s1) by (eexists; reflexivity).
  assert (L1 : nth_error s1 (Datatypes.S (Datatypes.S (length s))) = Some Pb).
  { unfold s1. rewrite nth_error_app2 by lia.
    replace (Datatypes.S (Datatypes.S (length s)) - length s)%nat
      with 2%nat by lia. reflexivity. }
  set (s2 := s1 ++ [cf]).
  assert (X2 : extends s s2)
    by (eapply extends_trans; [exact X1 | eexists; reflexivity]).
  assert (Lcf : nth_error s2 (length s1) = Some cf).
  { unfold s2. rewrite nth_error_app2, Nat.sub_diag by lia. reflexivity. }
  destruct (predict_proba_st_run (obj_eval model) pX pZ (length s1) pS s2
              x z cf sv Pc _
              (extends_lookup _ _ _ _ X2 HX) (extends_lookup _ _ _ _ X2 HZ)
              Lcf (extends_lookup _ _ _ _ X2 HS) (Hde s2 X2) Ha2)
    as (lp2 & g2 & R2).
  set (s3 := s2 ++ [lp2; g2; Pc]) in *.
  assert (L3 : nth_error s3 (Datatypes.S (Datatypes.S (length s2))) = Some Pc).
  { unfold s3. rewrite nth_error_app2 by lia.
    replace (Datatypes.S (Datatypes.S (length s2)) - length s2)%nat
      with 2%nat by lia. reflexivity. }
  exists s3. unfold counterfactual_analysis_st.
  rewrite (bindS_run _ _ _ _ _ R1).
  rewrite (bindS_run _ _ _ s1 rb).
  2:{ unfold se_rate_st. rewrite (bindS_run _ _ _ _ _ (load_run _ _ _ L1)).
      unfold lift. now rewrite Ha0. }
  rewrite (bindS_run _ _ _ (s1 ++ [clone c]) (length s1)).
  2:{ unfold clone_st.
      rewrite (bindS_run _ _ _ _ _
                 (load_run _ _ _ (extends_lookup _ _ _ _ X1 HC))).
      reflexivity. }
  rewrite (bindS_run _ _ _ s2 tt).
  2:{ unfold imul_cols_st.
      rewrite (bindS_run _ _ (s1 ++ [clone c]) (s1 ++ [clone c]) (clone c)).
      2:{ apply load_run. rewrite nth_error_app2, Nat.sub_diag by lia.
          reflexivity. }
      unfold credit_cf in Ha1. unfold bindS, lift. rewrite Ha1.
      unfold write. rewrite length_app. cbn [length].
      destruct (Nat.ltb_spec (length s1) (length s1 + 1)) as [_|N]; [|lia].
      now rewrite update_last. }
  rewrite (bindS_run _ _ _ _ _ R2).
  rewrite (bindS_run _ _ _ s3 rc).
  2:{ unfold se_rate_st. rewrite (bindS_run _ _ _ _ _ (load_run _ _ _ L3)).
      unfold lift. now rewrite Ha3. }
  unfold bindS, lift, ret. rewrite Ha4. reflexivity.
Qed.

Lemma counterfactual_analysis_frame_witness :
  let model :=
    mkTasteNetMNL_obj 9%nat 4%nat 5%nat
      (mkTasteNet 5 [32; 16]%nat (fun _ _ _ => 1)) true in
  let s := [zeros 2 5; zeros 2 2; Main.credit_access 2; Main.se_indicator 2;
            zeros 5 8; zeros 2 8] in
  exists model' out s',
    counterfactual_analysis_st model 0%nat 1%nat 2%nat 3%nat (1 / 2) s
    = Ok (model', out, s') /\
    nth_error s' 2 = Some (Main.credit_access 2) /\
    obj_beta model' = 4%nat /\ obj_training model' = false.
Proof.
  intros model s.
  destruct (counterfactual_synthetic (synthetic_model 1) (zeros 2 5)
              (zeros 2 2) 2 (1 / 2)) as (b & c & e & E & _);
    try reflexivity; try lra; try lia; try apply synthetic_model_shapes.
  destruct (counterfactual_analysis_st_run model 0%nat 1%nat 2%nat 3%nat
              (1 / 2) s
              (zeros 2 5) (zeros 2 2) (Main.credit_access 2)
              (Main.se_indicator 2) (synthetic_model 1) _
              eq_refl eq_refl eq_refl eq_refl eq_refl E) as (s' & R).
  exists (obj_eval model), (PyFloat b, PyFloat c, e), s'.
  split; [exact R|].
  destruct (counterfactual_analysis_frame _ _ _ _ _ _ _ _ _ _ R)
    as (_ & Hsame & (Hb & _ & _ & _ & Ht) & _).
  split; [apply Hsame; reflexivity|]. split; [exact Hb | exact Ht].
Defined.

(** ** Further properties of the code *)

(** [__init__] establishes the shapes of the parameters. *)
Lemma TasteNetMNL_init_shapes (n_alt x_dim z_dim : nat) (hidden : list nat)
    (b0 d0 : nat -> nat -> R) (net : bool -> Tensor -> nat -> R)
    (m : TasteNetMNL) :
  TasteNetMNL_init n_alt x_dim z_dim hidden b0 d0 net = Ok m ->
  model_shapes m x_dim z_dim /\ n_alternatives m = n_alt /\ training m = true.
Proof.
  unfold TasteNetMNL_init. destruct n_alt as [|k]; [discriminate|].
  intros [= <-]. unfold model_shapes. cbn. repeat split; lia.
Qed.

(** X2: the probabilities of [predict_proba] are those of the multinomial
    logit of the class docstring: P(y_i = j) = exp(V_ij) / sum_k exp(V_ik). *)
Lemma predict_proba_is_multinomial_logit
    (m : TasteNetMNL) (X Z credit_access se_indicator P : Tensor) :
  TasteNetMNL_predict_proba m X Z credit_access se_indicator = Ok P ->
  cols P <> O ->
  exists V g,
    utility m X Z credit_access se_indicator = Ok (V, g) /\
    rows P = rows V /\ cols P = cols V /\
    forall i j,
      entry P i j
      = exp (entry V i j) / big_sum (fun k => exp (entry V i k)) (cols V).
Proof.
  unfold TasteNetMNL_predict_proba. intros E Hc.
  apply bind_ok in E. destruct E as ([lp g] & Hf & E). injection E as <-.
  apply forward_steps in Hf. destruct Hf as (V & HV & ->).
  exists V, g. split; [exact HV|]. split; [reflexivity|].
  split; [reflexivity|].
  intros i j. exact (exp_log_softmax_unshifted V i Hc j).
Qed.

Lemma predict_proba_is_multinomial_logit_witness :
  exists P V g,
    TasteNetMNL_predict_proba small_model small_X small_Z small_credit small_se
    = Ok P /\
    utility small_model small_X small_Z small_credit small_se = Ok (V, g) /\
    entry P 0 1
    = exp (entry V 0 1) / big_sum (fun k => exp (entry V 0 k)) 3.
Proof.
  destruct (predict_proba_is_multinomial_logit small_model small_X small_Z
              small_credit small_se _ eq_refl) as (V & g & E & _ & _ & H).
  - simpl. lia.
  - eexists. exists V, g. split; [reflexivity|]. split; [exact E|].
    rewrite (H 0%nat 1%nat). f_equal.
    injection E as <- _. reflexivity.
Defined.

(** X1: on the documented shapes [forward] returns, with one row per
    individual and one column per alternative, and one gamma per individual
    (in train mode BatchNorm1d wants more than one individual). *)
Lemma forward_total (m : TasteNetMNL) (x_dim z_dim : nat)
    (X Z credit_access se_indicator : Tensor) :
  model_shapes m x_dim z_dim ->
  training m = false \/ hidden_dims (tastenet m) = [] \/ (2 <= rows X)%nat ->
  cols X = x_dim -> rows Z = rows X -> cols Z = z_dim ->
  rows credit_access = rows X -> cols credit_access = n_alternatives m ->
  rows se_indicator = rows X -> cols se_indicator = n_alternatives m ->
  exists lp g, forward m X Z credit_access se_indicator = Ok (lp, g) /\
               rows lp = rows X /\ cols lp = n_alternatives m /\
               rows g = rows X /\ cols g = 1%nat.
Proof.
  intros Hm Hmode HX HZr HZc HCr HCc HSr HSc.
  assert (Hmode' : training m = false \/ hidden_dims (tastenet m) = []
                   \/ rows X <> 1%nat) by (intuition lia).
  destruct (utility_total m x_dim z_dim X Z credit_access se_indicator
              Hm Hmode' HX HZr HZc HCr HCc HSr HSc)
    as (V & g & E & H).
  exists (log_softmax V), g. unfold forward. rewrite E.
  split; [reflexivity | exact H].
Qed.

Lemma forward_total_witness :
  exists lp g,
    forward (synthetic_model 1) (zeros 3 5) (zeros 3 2)
      (Main.credit_access 3) (Main.se_indicator 3) = Ok (lp, g) /\
    rows lp = 3%nat /\ cols lp = 9%nat /\ rows g = 3%nat /\ cols g = 1%nat.
Proof.
  destruct (forward_total (synthetic_model 1) Main.x_dim Main.z_dim
              (zeros 3 5) (zeros 3 2) (Main.credit_access 3)
              (Main.se_indicator 3) (synthetic_model_shapes 1))
    as (lp & g & E & H); try reflexivity.
  - right. right. simpl. lia.
  - exists lp, g. split; [exact E | exact H].
Defined.

(** X3: on an empty batch the engine returns three NaN: the mean of an empty
    tensor is NaN, and Python divides by NaN without raising. *)
Lemma counterfactual_empty_batch (m : TasteNetMNL) (x_dim z_dim : nat)
    (X Z credit_access se_indicator : Tensor) (r : R) :
  model_shapes m x_dim z_dim -> n_alternatives m = 9%nat ->
  rows X = O -> cols X = x_dim -> rows Z = O -> cols Z = z_dim ->
  rows credit_access = O -> cols credit_access = 9%nat ->
  rows se_indicator = O -> cols se_indicator = 9%nat ->
  counterfactual_analysis m X Z credit_access se_indicator r
  = Ok (PyNaN, PyNaN, PyNaN).
Proof.
  intros Hm HJ HXr HXc HZr HZc HCr HCc HSr HSc.
  apply eval_shapes in Hm.
  assert (HJ' : n_alternatives (TasteNetMNL_eval m) = 9%nat) by exact HJ.
  destruct (utility_total _ _ _ X Z credit_access se_indicator Hm
              (or_introl eq_refl) HXc ltac:(congruence) HZc
              ltac:(congruence) ltac:(congruence) ltac:(congruence)
              ltac:(congruence))
    as (V & g & EV & RV & CV & _).
  pose proof (credit_cf_value credit_access r ltac:(lia)) as Ecf.
  set (cf := mkTensor _ _ _) in Ecf.
  destruct (utility_total _ _ _ X Z cf se_indicator Hm
              (or_introl eq_refl) HXc ltac:(congruence) HZc
              ltac:(simpl; congruence) ltac:(simpl; congruence)
              ltac:(congruence) ltac:(congruence))
    as (V' & g' & EV' & RV' & CV' & _).
  unfold counterfactual_analysis.
  cbn [eval predict_proba TasteNetMNL_ChoiceModel].
  rewrite (predict_proba_value _ _ _ _ _ _ _ EV). cbn [bind].
  rewrite se_rate_empty by (cbn [rows cols texp log_softmax]; congruence).
  cbn [bind]. rewrite Ecf. cbn [bind].
  rewrite (predict_proba_value _ _ _ _ _ _ _ EV'). cbn [bind].
  rewrite se_rate_empty by (cbn [rows cols texp log_softmax]; congruence).
  reflexivity.
Qed.

Lemma counterfactual_empty_batch_witness :
  counterfactual_analysis (synthetic_model 1) (zeros 0 5) (zeros 0 2)
    (Main.credit_access 0) (Main.se_indicator 0) (1 / 2)
  = Ok (PyNaN, PyNaN, PyNaN).
Proof.
  apply (counterfactual_empty_batch (synthetic_model 1) Main.x_dim Main.z_dim);
    try reflexivity.
  apply synthetic_model_shapes.
Defined.

(** ** The training loop *)

Section TrainerMore.

Variable StateDict : Type.
Variable Optimizer : Type.
Variable Batch : Type.
Variable new_optimizer : R -> Optimizer.
Variable train_batch :
  StateDict -> Optimizer -> Batch
  -> result (StateDict * Optimizer * loss_float).
Variable val_batch : StateDict -> Batch -> result loss_float.
Variable scheduler_step : Optimizer -> loss_float -> Optimizer.

Local Abbreviation train :=
  (train_tastenet_mnl StateDict Optimizer Batch new_optimizer train_batch
     val_batch scheduler_step).
Local Abbreviation body :=
  (epoch_body StateDict Optimizer Batch train_batch val_batch scheduler_step).
Local Abbreviation loop :=
  (epochs_loop StateDict Optimizer Batch train_batch val_batch scheduler_step).
Local Abbreviation hist :=
  (history StateDict Optimizer Batch train_batch val_batch scheduler_step).

(** After an epoch that does not break, the patience counter is below 20,
    and after any epoch the model is in eval mode. *)
Lemma epoch_body_after (train_loader val_loader : list Batch)
    (st st1 : TrainState StateDict Optimizer) (stop : bool) :
  body train_loader val_loader st = Ok (st1, stop) ->
  module_training (st_model st1) = false /\
  (stop = false -> (patience_counter st1 < 20)%nat) /\
  (stop = true -> (20 <= patience_counter st1)%nat).
Proof.
  unfold epoch_body. intros E. apply bind_ok in E.
  destruct E as ([[sd opt] v] & _ & E).
  destruct (lt_bound v (best_val_loss st)).
  - injection E as <- <-. cbn. repeat split; try lia; discriminate.
  - destruct (Nat.leb 20 (S (patience_counter st))) eqn:Hl;
      injection E as <- <-; cbn [st_model module_training patience_counter];
      (split; [reflexivity|]); split; intros H; try discriminate.
    + apply Nat.leb_le in Hl. lia.
    + apply Nat.leb_gt in Hl. lia.
Qed.

(** Once the loop has broken, a larger budget runs the same epochs. *)
Lemma epochs_loop_more_budget (train_loader val_loader : list Batch)
    (n : nat) :
  forall (st st' : TrainState StateDict Optimizer) (k : nat),
    (patience_counter st < 20)%nat ->
    loop train_loader val_loader n st = Ok st' ->
    patience_counter st' = 20%nat -> (n <= k)%nat ->
    loop train_loader val_loader k st = Ok st'.
Proof.
  induction n as [|n IH]; intros st st' k Hpc E H20 Hk.
  - injection E as <-. lia.
  - destruct k as [|k]; [lia|]. cbn [epochs_loop] in *.
    destruct (body train_loader val_loader st) as [[st1 stop]|e] eqn:Hb;
      [|discriminate].
    cbn [bind] in *. apply epoch_body_after in Hb.
    destruct Hb as (_ & Hno & _).
    destruct stop; [exact E|].
    apply (IH st1 st' k); auto. lia.
Qed.

(** Where the epochs of the budget all go through, so does the loop. *)
Lemma epochs_loop_total (train_loader val_loader : list Batch) (n : nat) :
  forall (st : TrainState StateDict Optimizer) h,
    hist train_loader val_loader n (state_dict (st_model st)) (optimizer st)
    = Ok h ->
    exists st', loop train_loader val_loader n st = Ok st'.
Proof.
  induction n as [|n IH]; intros st h Hh.
  - exists st. reflexivity.
  - cbn [history] in Hh. apply bind_ok in Hh.
    destruct Hh as ([[sd opt] v] & Hph & Hh).
    apply bind_ok in Hh. destruct Hh as (rest & Hrest & _).
    cbn [epochs_loop]. unfold epoch_body. rewrite Hph. cbn [bind].
    destruct (lt_bound v (best_val_loss st)); cbn [bind].
    + apply (IH _ rest). exact Hrest.
    + destruct (Nat.leb 20 (S (patience_counter st))); [eauto|].
      apply (IH _ rest). exact Hrest.
Qed.

Lemma epochs_loop_mode (train_loader val_loader : list Batch) (n : nat) :
  forall st st' : TrainState StateDict Optimizer,
    loop train_loader val_loader n st = Ok st' -> n <> O ->
    module_training (st_model st') = false.
Proof.
  induction n as [|n IH]; intros st st' E Hn; [contradiction|].
  cbn [epochs_loop] in E. apply bind_ok in E.
  destruct E as ([st1 stop] & Hb & E).
  apply epoch_body_after in Hb. destruct Hb as (Hmode & _).
  destruct stop.
  - injection E as <-. exact Hmode.
  - destruct n as [|n']; [injection E as <-; exact Hmode|].
    apply (IH st1 st' E). discriminate.
Qed.

(** X4: a run that broke off by early stopping returns the same model and
    checkpoint file under every larger epoch budget. *)
Theorem early_stopping_ignores_larger_budget
    (model : Module StateDict) (file : option StateDict)
    (train_loader val_loader : list Batch) (epochs more : nat) (lr : R)
    (st' : TrainState StateDict Optimizer) :
  loop train_loader val_loader epochs
    (mkTrainState model (new_optimizer lr) Infinity O file) = Ok st' ->
  patience_counter st' = 20%nat ->
  (epochs <= more)%nat ->
  train model file train_loader val_loader more lr
  = train model file train_loader val_loader epochs lr.
Proof.
  intros E H20 Hk. unfold train_tastenet_mnl.
  assert (Hpc : (patience_counter
                   (mkTrainState model (new_optimizer lr) Infinity O file)
                 < 20)%nat) by (simpl; lia).
  rewrite (epochs_loop_more_budget _ _ _ _ _ more Hpc E H20 Hk).
  rewrite E. reflexivity.
Qed.

(** A checkpoint file, once there, stays. *)
Lemma epochs_loop_checkpoint (train_loader val_loader : list Batch)
    (n : nat) :
  forall (st st' : TrainState StateDict Optimizer) (sd : StateDict),
    loop train_loader val_loader n st = Ok st' ->
    checkpoint st = Some sd ->
    exists sd', checkpoint st' = Some sd'.
Proof.
  induction n as [|n IH]; intros st st' sd E Hc.
  - injection E as <-. eauto.
  - cbn [epochs_loop] in E. apply bind_ok in E.
    destruct E as ([st1 stop] & Hb & E).
    assert (H1 : exists sd1, checkpoint st1 = Some sd1).
    { unfold epoch_body in Hb. apply bind_ok in Hb.
      destruct Hb as ([[sd1 opt1] v1] & _ & Hb).
      destruct (lt_bound v1 (best_val_loss st));
        injection Hb as <- _; cbn [checkpoint]; eauto. }
    destruct H1 as (sd1 & H1).
    destruct stop.
    + injection E as <-. eauto.
    + exact (IH st1 st' sd1 E H1).
Qed.

(** X5: with an epoch budget of at least 1, when the validation loss of
    epoch 0 is below [float('inf')] (a number, not NaN and not infinite),
    the checkpoint file that the run finds plays no part: epoch 0
    overwrites it.  (The same holds when epoch 0 raises.) *)
Theorem stale_checkpoint_never_used
    (model : Module StateDict) (file file' : option StateDict)
    (train_loader val_loader : list Batch) (epochs : nat) (lr : R) :
  (0 < epochs)%nat ->
  (forall sd opt v,
      epoch_phases StateDict Optimizer Batch train_batch val_batch
        scheduler_step train_loader val_loader (state_dict model)
        (new_optimizer lr) = Ok (sd, opt, v) ->
      lt_bound v Infinity = true) ->
  train model file train_loader val_loader epochs lr
  = train model file' train_loader val_loader epochs lr.
Proof.
  intros Hep Hv0. destruct epochs as [|n]; [lia|].
  unfold train_tastenet_mnl. cbn [epochs_loop]. unfold epoch_body.
  cbn [st_model optimizer best_val_loss].
  destruct (epoch_phases StateDict Optimizer Batch train_batch val_batch
              scheduler_step train_loader val_loader (state_dict model)
              (new_optimizer lr)) as [[[sd opt] v]|e]; [|reflexivity].
  cbn [bind]. rewrite (Hv0 sd opt v eq_refl). reflexivity.
Qed.

(** X6: with an epoch budget of at least 1, a run whose epochs all go
    through and whose epoch 0 has a validation loss below [float('inf')]
    returns: the checkpoint file exists by then, it holds the parameters of
    the returned model, and the model is left in eval mode. *)
Theorem training_returns
    (model : Module StateDict) (file : option StateDict)
    (train_loader val_loader : list Batch) (epochs : nat) (lr : R)
    (h : list (StateDict * loss_float)) (sd0 : StateDict) (v0 : loss_float) :
  (0 < epochs)%nat ->
  hist train_loader val_loader epochs (state_dict model) (new_optimizer lr)
  = Ok h ->
  nth_error h O = Some (sd0, v0) ->
  lt_bound v0 Infinity = true ->
  exists model',
    train model file train_loader val_loader epochs lr
    = Ok (model', Some (state_dict model')) /\
    module_training model' = false.
Proof.
  intros Hep Hh H0 Hv0.
  destruct (epochs_loop_total train_loader val_loader epochs
              (mkTrainState model (new_optimizer lr) Infinity O file) h Hh)
    as (st' & Hloop).
  pose proof (epochs_loop_mode _ _ _ _ _ Hloop ltac:(lia)) as Hmode.
  assert (Hc : exists sd, checkpoint st' = Some sd).
  { destruct epochs as [|n]; [lia|].
    cbn [history] in Hh. apply bind_ok in Hh.
    destruct Hh as ([[sd1 opt1] v1] & Hph & Hh).
    apply bind_ok in Hh. destruct Hh as (rest & _ & Hh).
    injection Hh as <-. cbn in H0. injection H0 as -> ->.
    cbn [epochs_loop] in Hloop. unfold epoch_body in Hloop.
    cbn [st_model state_dict optimizer best_val_loss] in Hloop.
    rewrite Hph in Hloop. cbn [bind] in Hloop. rewrite Hv0 in Hloop.
    cbn [bind] in Hloop.
    exact (epochs_loop_checkpoint _ _ _ _ _ sd0 Hloop eq_refl). }
  destruct Hc as (sd & Hc).
  exists (load_state_dict (st_model st') sd).
  unfold train_tastenet_mnl. rewrite Hloop. cbn [bind].
  rewrite Hc. cbn [torch_load bind]. split; [reflexivity | exact Hmode].
Qed.

(** X7: with an empty training loader and an epoch budget of at least 1
    the run raises in its first epoch: the exception of the validation
    batches if one of them raises, and otherwise Python's ZeroDivisionError
    from [train_loss /= len(train_loader)]. *)
Theorem empty_training_loader_raises
    (model : Module StateDict) (file : option StateDict)
    (val_loader : list Batch) (epochs : nat) (lr : R) :
  (0 < epochs)%nat ->
  exists e,
    train model file [] val_loader epochs lr = Raise e /\
    (forall v,
        val_batches StateDict Batch val_batch (state_dict model) val_loader 0
        = Ok v ->
        e = ZeroDivisionError).
Proof.
  intros Hep. destruct epochs as [|k]; [lia|].
  unfold train_tastenet_mnl. cbn [epochs_loop].
  unfold epoch_body, epoch_phases.
  cbn [st_model state_dict optimizer train_batches bind].
  destruct (val_batches StateDict Batch val_batch (state_dict model)
              val_loader 0) as [v|e]; cbn [bind length div_len].
  - exists ZeroDivisionError. split; reflexivity.
  - exists e. split; [reflexivity | discriminate].
Qed.

End TrainerMore.

Lemma early_stopping_ignores_larger_budget_witness :
  flat_train (mkModule 0%nat true) None [tt] [tt] 50
  = flat_train (mkModule 0%nat true) None [tt] [tt] 21.
Proof.
  assert (E : exists st',
             epochs_loop nat unit unit toy_train_batch flat_val_batch
               (fun opt _ => opt) [tt] [tt] 21
               (mkTrainState (mkModule 0%nat true) tt Infinity O None)
             = Ok st' /\ patience_counter st' = 20%nat).
  { cbn [epochs_loop]. unfold epoch_body, epoch_phases.
    cbn -[Rlt_dec Rdiv Rplus].
    repeat (destruct (Rlt_dec ((0 + 1) / 1) ((0 + 1) / 1)) as [N|_];
            [exfalso; lra|]; cbn -[Rlt_dec Rdiv Rplus]).
    eexists. split; reflexivity. }
  destruct E as (st' & E & H20).
  apply (early_stopping_ignores_larger_budget nat unit unit (fun _ => tt)
           toy_train_batch flat_val_batch (fun opt _ => opt)
           (mkModule 0%nat true) None [tt] [tt] 21 50 (1 / 1000) st' E H20).
  lia.
Defined.

Lemma stale_checkpoint_never_used_witness :
  toy_train (mkModule 0%nat true) (Some 7%nat) [tt] [tt] 3
  = toy_train (mkModule 0%nat true) None [tt] [tt] 3.
Proof.
  apply (stale_checkpoint_never_used nat unit unit (fun _ => tt)
           toy_train_batch toy_val_batch (fun opt _ => opt)).
  - lia.
  - intros sd opt v E. cbn -[Rdiv Rplus] in E.
    injection E as _ _ <-. reflexivity.
Defined.

Lemma training_returns_witness :
  exists model',
    toy_train (mkModule 0%nat true) None [tt] [tt] 3
    = Ok (model', Some (state_dict model')) /\
    module_training model' = false.
Proof.
  apply (training_returns nat unit unit (fun _ => tt) toy_train_batch
           toy_val_batch (fun opt _ => opt) (mkModule 0%nat true) None
           [tt] [tt] 3 (1 / 1000)
           [(1%nat, Finite ((0 + 3) / 1)); (2%nat, Finite ((0 + 1) / 1));
            (3%nat, Finite ((0 + 2) / 1))]
           1%nat (Finite ((0 + 3) / 1))).
  - lia.
  - reflexivity.
  - reflexivity.
  - reflexivity.
Defined.

Lemma empty_training_loader_raises_witness :
  toy_train (mkModule 0%nat true) None [] [tt] 3 = Raise ZeroDivisionError.
Proof.
  destruct (empty_training_loader_raises nat unit unit (fun _ => tt)
              toy_train_batch toy_val_batch (fun opt _ => opt)
              (mkModule 0%nat true) None [tt] 3 (1 / 1000) ltac:(lia))
    as (e & E & He).
  unfold toy_train. rewrite E. f_equal. eapply He. reflexivity.
Defined.

(** ** The counterfactual engine *)

(** When the engine returns two numbers as rates, the baseline rate is not
    zero and the effect is the relative change in percent. *)
Lemma counterfactual_effect_value {M : Type} `{ChoiceModel M} (model : M)
    (X Z C S : Tensor) (r b c : R) (e : pyfloat) :
  counterfactual_analysis model X Z C S r = Ok (PyFloat b, PyFloat c, e) ->
  b <> 0 /\ e = PyFloat ((c - b) / b * 100).
Proof.
  unfold counterfactual_analysis. intros E. bind_inv E.
  injection E as -> -> ->.
  unfold effect, py_sub, py_div in Ha4.
  destruct (Req_dec_T b 0) as [E0|N0]; [discriminate|].
  cbn [bind py_mul] in Ha4. injection Ha4 as <-. split; [exact N0|reflexivity].
Qed.

(** The utilities under the counterfactual credit tensor: in the branch
    columns the credit term loses the fraction [r], elsewhere nothing
    changes. *)
Lemma closure_utilities (m : TasteNetMNL) (X Z C S V V' g g' cf : Tensor)
    (r : R) :
  rows C = rows X -> cols C = 9%nat -> rows S = rows X -> cols S = 9%nat ->
  utility m X Z C S = Ok (V, g) ->
  credit_cf C r = Ok cf ->
  utility m X Z cf S = Ok (V', g') ->
  forall i k, (i < rows X)%nat -> (k < 9)%nat ->
    entry V' i k
    = entry V i k
      - (if existsb (Nat.eqb k) branch_alts
         then r * (network (tastenet m) (training m) X i
                   * entry C i k * entry S i k)
         else 0).
Proof.
  intros HCr HCc HSr HSc EV Ecf EV' i k Hi Hk.
  apply utility_entry in EV. destruct EV as (s & Es & Eg & HV).
  apply utility_entry in EV'. destruct EV' as (s' & Es' & Eg' & HV').
  rewrite Es in Es'. injection Es' as <-.
  rewrite Eg in Eg'. injection Eg' as <-.
  apply credit_cf_ok in Ecf. destruct Ecf as (Rcf & Ccf & Hcf).
  rewrite HV, HV'.
  rewrite (bentry_in_shape cf), (bentry_in_shape C), (bentry_in_shape S)
    by lia.
  rewrite (gamma_read _ _ _ _ i k Eg Hi), Hcf.
  destruct (existsb (Nat.eqb k) branch_alts); ring.
Qed.

(** The rate of a tensor of probabilities with nine columns and at least
    one row is a number between 0 and 1. *)
Lemma se_rate_bounds (P : Tensor) :
  cols P = 9%nat -> rows P <> O -> probabilities P ->
  exists b, se_rate P = Ok (PyFloat b) /\ 0 <= b <= 1.
Proof.
  intros Hc Hr HP. rewrite se_rate_value by assumption.
  eexists. split; [reflexivity|].
  assert (Hn : 0 < INR (rows P)) by (apply lt_0_INR; lia).
  assert (Hrow : forall i, (i < rows P)%nat ->
             0 <= entry P i 1 + entry P i 4 + entry P i 7 <= 1).
  { intros i Hi. destruct (HP i Hi) as [Hpos Hsum]. rewrite Hc in *.
    cbn [big_sum] in Hsum.
    pose proof (Hpos 0%nat ltac:(lia)). pose proof (Hpos 1%nat ltac:(lia)).
    pose proof (Hpos 2%nat ltac:(lia)). pose proof (Hpos 3%nat ltac:(lia)).
    pose proof (Hpos 4%nat ltac:(lia)). pose proof (Hpos 5%nat ltac:(lia)).
    pose proof (Hpos 6%nat ltac:(lia)). pose proof (Hpos 7%nat ltac:(lia)).
    pose proof (Hpos 8%nat ltac:(lia)). lra. }
  split.
  - apply Rmult_le_pos; [|left; apply Rinv_0_lt_compat; exact Hn].
    replace 0 with (big_sum (fun _ => 0) (rows P))
      by (rewrite big_sum_const; ring).
    apply big_sum_le. intros i Hi. apply Hrow, Hi.
  - apply Rmult_le_reg_r with (INR (rows P)); [exact Hn|].
    unfold Rdiv. rewrite Rmult_assoc, Rinv_l by lra.
    rewrite Rmult_1_r, Rmult_1_l.
    replace (INR (rows P)) with (big_sum (fun _ => 1) (rows P))
      by (rewrite big_sum_const; ring).
    apply big_sum_le. intros i Hi. apply Hrow, Hi.
Qed.

(** The softmax probabilities of [predict_proba] are probabilities. *)
Lemma softmax_probabilities (V : Tensor) :
  cols V <> O -> probabilities (texp (log_softmax V)).
Proof.
  intros Hc i _. cbn [rows cols texp log_softmax entry]. split.
  - intros j _. left. apply exp_pos.
  - right. exact (log_softmax_row_sum V i Hc).
Qed.

(** X8: for whatever model the engine is given (anything with [eval] and
    [predict_proba]), when the probabilities of the baseline and of the
    counterfactual pass have nine columns, at least one row, no negative
    entry and rows that sum to at most 1: the two rates lie between 0 and
    1; with a baseline rate of 0 the engine raises ZeroDivisionError;
    otherwise it returns the two rates and the effect, which is the
    relative change of the rate in percent and at least -100. *)
Theorem counterfactual_rates_are_shares {M : Type} `{ChoiceModel M}
    (model : M) (X Z credit_access se_indicator probs_base cf probs_cf : Tensor)
    (closure_rate : R) :
  predict_proba (eval model) X Z credit_access se_indicator = Ok probs_base ->
  credit_cf credit_access closure_rate = Ok cf ->
  predict_proba (eval model) X Z cf se_indicator = Ok probs_cf ->
  cols probs_base = 9%nat -> rows probs_base <> O ->
  probabilities probs_base ->
  cols probs_cf = 9%nat -> rows probs_cf <> O -> probabilities probs_cf ->
  exists b c,
    se_rate probs_base = Ok (PyFloat b) /\
    se_rate probs_cf = Ok (PyFloat c) /\
    0 <= b <= 1 /\ 0 <= c <= 1 /\
    (b = 0 ->
     counterfactual_analysis model X Z credit_access se_indicator
       closure_rate = Raise ZeroDivisionError) /\
    (b <> 0 ->
     counterfactual_analysis model X Z credit_access se_indicator
       closure_rate
     = Ok (PyFloat b, PyFloat c, PyFloat ((c - b) / b * 100)) /\
     -100 <= (c - b) / b * 100).
Proof.
  intros EP Ecf EP' Hc Hr HP Hc' Hr' HP'.
  destruct (se_rate_bounds probs_base Hc Hr HP) as (b & Eb & Hb).
  destruct (se_rate_bounds probs_cf Hc' Hr' HP') as (c & Ec & Hcb).
  exists b, c. split; [exact Eb|]. split; [exact Ec|].
  split; [exact Hb|]. split; [exact Hcb|].
  unfold counterfactual_analysis.
  rewrite EP. cbn [bind]. rewrite Eb. cbn [bind]. rewrite Ecf. cbn [bind].
  rewrite EP'. cbn [bind]. rewrite Ec. cbn [bind].
  unfold effect, py_div, py_sub.
  split; intros H0.
  - destruct (Req_dec_T b 0) as [_|N]; [reflexivity | contradiction].
  - destruct (Req_dec_T b 0) as [E0|_]; [contradiction|].
    split; [reflexivity|].
    replace ((c - b) / b * 100) with (c / b * 100 - 100) by (field; lra).
    assert (0 <= c / b).
    { apply Rmult_le_pos; [lra|]. left. apply Rinv_0_lt_compat. lra. }
    lra.
Qed.

Lemma counterfactual_rates_are_shares_witness :
  exists b c,
    0 <= b <= 1 /\ 0 <= c <= 1 /\
    (b <> 0 ->
     counterfactual_analysis (synthetic_model 1) (zeros 2 5) (zeros 2 2)
       (Main.credit_access 2) (Main.se_indicator 2) (1 / 2)
     = Ok (PyFloat b, PyFloat c, PyFloat ((c - b) / b * 100)) /\
     -100 <= (c - b) / b * 100).
Proof.
  assert (E : exists V g cf V' g',
             utility (TasteNetMNL_eval (synthetic_model 1)) (zeros 2 5)
               (zeros 2 2) (Main.credit_access 2) (Main.se_indicator 2)
             = Ok (V, g) /\
             credit_cf (Main.credit_access 2) (1 / 2) = Ok cf /\
             utility (TasteNetMNL_eval (synthetic_model 1)) (zeros 2 5)
               (zeros 2 2) cf (Main.se_indicator 2) = Ok (V', g') /\
             cols V = 9%nat /\ rows V = 2%nat /\
             cols V' = 9%nat /\ rows V' = 2%nat).
  { do 5 eexists. split; [reflexivity|]. split; [reflexivity|].
    split; [reflexivity|]. repeat split; reflexivity. }
  destruct E as (V & g & cf & V' & g' & EV & Ecf & EV' & CV & RV & CV' & RV').
  destruct (@counterfactual_rates_are_shares TasteNetMNL
              TasteNetMNL_ChoiceModel (synthetic_model 1) (zeros 2 5)
              (zeros 2 2) (Main.credit_access 2) (Main.se_indicator 2)
              (texp (log_softmax V)) cf (texp (log_softmax V')) (1 / 2)
              (predict_proba_value _ _ _ _ _ _ _ EV) Ecf
              (predict_proba_value _ _ _ _ _ _ _ EV'))
    as (b & c & _ & _ & Hb & Hc & _ & Hret);
    cbn [rows cols texp log_softmax]; try congruence;
    try (apply softmax_probabilities; congruence).
  exists b, c. split; [exact Hb|]. split; [exact Hc | exact Hret].
Defined.

(** X9: the engine reads the columns 1, 4, 7 of the probabilities and
    scales the columns 6, 7, 8 of the credit tensor.  When the model's
    probabilities have rows and fewer than 8 columns, or the credit tensor
    has rows and fewer than 9 columns (one that [forward] accepts by
    broadcasting, say), the engine raises IndexError.  (Without rows no
    element is read or written and no index is checked.) *)
Theorem counterfactual_index_error {M : Type} `{ChoiceModel M} (model : M)
    (X Z credit_access se_indicator probs : Tensor) (closure_rate : R) :
  predict_proba (eval model) X Z credit_access se_indicator = Ok probs ->
  (rows probs <> O /\ (cols probs < 8)%nat) \/
  (rows credit_access <> O /\ (cols credit_access < 9)%nat) ->
  counterfactual_analysis model X Z credit_access se_indicator closure_rate
  = Raise IndexError.
Proof.
  intros EP Hcols. unfold counterfactual_analysis. rewrite EP. cbn [bind].
  unfold se_rate at 1. unfold index_cols.
  destruct (in_range probs se_alts) eqn:Hin; cbn [bind]; [|reflexivity].
  assert (HC : rows credit_access <> O /\ (cols credit_access < 9)%nat).
  { destruct Hcols as [[HPr HP]|HC]; [|exact HC]. exfalso.
    unfold in_range, se_alts in Hin. cbn [forallb] in Hin.
    apply Nat.eqb_neq in HPr. rewrite HPr in Hin. cbn [orb] in Hin.
    apply andb_prop in Hin. destruct Hin as [_ Hin].
    apply andb_prop in Hin. destruct Hin as [_ Hin].
    apply andb_prop in Hin. destruct Hin as [Hin _].
    apply Nat.ltb_lt in Hin. lia. }
  destruct HC as [HCr HC].
  unfold credit_cf, imul_cols, in_range, branch_alts, clone.
  cbn [rows cols forallb].
  apply Nat.eqb_neq in HCr. rewrite HCr. cbn [orb].
  replace (Nat.ltb 8 (cols credit_access)) with false
    by (symmetry; apply Nat.ltb_ge; lia).
  rewrite !andb_false_r. reflexivity.
Qed.

Lemma counterfactual_index_error_witness :
  counterfactual_analysis (synthetic_model 1) (zeros 2 5) (zeros 2 2)
    (mkTensor 2 1 (fun _ _ => 1)) (Main.se_indicator 2) (1 / 2)
  = Raise IndexError.
Proof.
  assert (E : exists V g,
             utility (TasteNetMNL_eval (synthetic_model 1)) (zeros 2 5)
               (zeros 2 2) (mkTensor 2 1 (fun _ _ => 1)) (Main.se_indicator 2)
             = Ok (V, g)) by (eexists; eexists; reflexivity).
  destruct E as (V & g & E).
  apply (counterfactual_index_error (synthetic_model 1) (zeros 2 5)
           (zeros 2 2) (mkTensor 2 1 (fun _ _ => 1)) (Main.se_indicator 2)
           (texp (log_softmax V)) (1 / 2)).
  - exact (predict_proba_value _ _ _ _ _ _ _ E).
  - right. simpl. split; [discriminate | lia].
Defined.

(** X10: let the model have nine alternatives, the taste parameter be
    non-negative for every individual of the batch in eval mode, the credit
    access of alternative 7 be non-negative, and the self-employment
    indicator be non-negative on alternative 7 and zero on the branch
    alternatives 6 and 8.  Then the baseline rate is the same under every
    closure rate, the counterfactual rate and the effect fall (weakly) as
    the closure rate grows, and for a closure rate of at least 0 the
    counterfactual rate is at most the baseline rate. *)
Theorem closure_rate_monotone (m : TasteNetMNL) (x_dim z_dim : nat)
    (X Z credit_access se_indicator : Tensor) (r1 r2 : R) :
  model_shapes m x_dim z_dim -> n_alternatives m = 9%nat ->
  cols X = x_dim -> rows Z = rows X -> cols Z = z_dim ->
  rows credit_access = rows X -> cols credit_access = 9%nat ->
  rows se_indicator = rows X -> cols se_indicator = 9%nat ->
  rows X <> O ->
  (forall i, (i < rows X)%nat ->
     0 <= network (tastenet m) false X i /\
     0 <= entry credit_access i 7 /\
     entry se_indicator i 6 = 0 /\ 0 <= entry se_indicator i 7 /\
     entry se_indicator i 8 = 0) ->
  r1 <= r2 ->
  exists b c1 c2,
    counterfactual_analysis m X Z credit_access se_indicator r1
    = Ok (PyFloat b, PyFloat c1, PyFloat ((c1 - b) / b * 100)) /\
    counterfactual_analysis m X Z credit_access se_indicator r2
    = Ok (PyFloat b, PyFloat c2, PyFloat ((c2 - b) / b * 100)) /\
    c2 <= c1 /\ (c2 - b) / b * 100 <= (c1 - b) / b * 100 /\
    (0 <= r1 -> c1 <= b).
Proof.
  intros Hm HJ HX HZr HZc HCr HCc HSr HSc Hn Hsign Hr.
  destruct (counterfactual_value m x_dim z_dim X Z credit_access se_indicator
              r1 Hm HJ HX HZr HZc HCr HCc HSr HSc Hn)
    as (V & V1 & g & g1 & cf1 & e1 & EV & Ecf1 & EV1 & E1).
  destruct (counterfactual_value m x_dim z_dim X Z credit_access se_indicator
              r2 Hm HJ HX HZr HZc HCr HCc HSr HSc Hn)
    as (V0 & V2 & g0 & g2 & cf2 & e2 & EV0 & Ecf2 & EV2 & E2).
  rewrite EV in EV0. injection EV0 as <- <-.
  destruct (counterfactual_effect_value _ _ _ _ _ _ _ _ _ E1) as [_ ->].
  destruct (counterfactual_effect_value _ _ _ _ _ _ _ _ _ E2) as [_ ->].
  pose proof (closure_utilities _ _ _ _ _ _ _ _ _ _ r1 HCr HCc HSr HSc
                EV Ecf1 EV1) as U1.
  pose proof (closure_utilities _ _ _ _ _ _ _ _ _ _ r2 HCr HCc HSr HSc
                EV Ecf2 EV2) as U2.
  cbn [training tastenet TasteNetMNL_eval] in U1, U2.
  assert (Same : forall (W : Tensor) (r : R),
             (forall i k, (i < rows X)%nat -> (k < 9)%nat ->
                entry W i k
                = entry V i k
                  - (if existsb (Nat.eqb k) branch_alts
                     then r * (network (tastenet m) false X i
                               * entry credit_access i k
                               * entry se_indicator i k)
                     else 0)) ->
             forall i, (i < rows X)%nat ->
               (forall k, (k < 9)%nat -> k <> 7%nat ->
                          entry W i k = entry V i k) /\
               entry W i 7
               = entry V i 7
                 - r * (network (tastenet m) false X i
                        * entry credit_access i 7 * entry se_indicator i 7)).
  { intros W r U i Hi.
    destruct (Hsign i Hi) as (_ & _ & S6 & _ & S8).
    split.
    - intros k Hk H7. rewrite (U i k Hi Hk).
      do 9 (destruct k as [|k];
            [cbn [existsb branch_alts Nat.eqb orb];
             try rewrite S6; try rewrite S8; try ring; try lia|]).
      lia.
    - rewrite (U i 7%nat Hi ltac:(lia)). reflexivity. }
  pose proof (Same V1 r1 U1) as W1. pose proof (Same V2 r2 U2) as W2.
  set (b := mean_se_share V (rows X)) in *.
  set (c1 := mean_se_share V1 (rows X)) in *.
  set (c2 := mean_se_share V2 (rows X)) in *.
  assert (Hb : 0 < b) by (apply mean_se_share_pos, Hn).
  assert (H21 : c2 <= c1).
  { apply mean_se_share_le. intros i Hi.
    destruct (W1 i Hi) as [S1 T1]. destruct (W2 i Hi) as [S2 T2].
    destruct (Hsign i Hi) as (Hg & HC & _ & HS & _).
    apply (se_share_monotone (entry V1 i) (entry V2 i)).
    - intros k Hk H7. rewrite S1, S2 by assumption. reflexivity.
    - rewrite T1, T2.
      assert (0 <= network (tastenet m) false X i
                   * entry credit_access i 7 * entry se_indicator i 7)
        by (apply Rmult_le_pos; [apply Rmult_le_pos|]; assumption).
      nra. }
  exists b, c1, c2.
  split; [exact E1|]. split; [exact E2|]. split; [exact H21|]. split.
  - apply Rmult_le_compat_r; [lra|].
    apply Rmult_le_compat_r; [left; apply Rinv_0_lt_compat; exact Hb | lra].
  - intros Hr1. apply mean_se_share_le. intros i Hi.
    destruct (W1 i Hi) as [S1 T1].
    destruct (Hsign i Hi) as (Hg & HC & _ & HS & _).
    apply (se_share_monotone (entry V i) (entry V1 i) S1).
    rewrite T1.
    assert (0 <= network (tastenet m) false X i
                 * entry credit_access i 7 * entry se_indicator i 7)
      by (apply Rmult_le_pos; [apply Rmult_le_pos|]; assumption).
    nra.
Qed.

Lemma closure_rate_monotone_witness :
  exists b c1 c2,
    counterfactual_analysis (synthetic_model 1) (zeros 2 5) (zeros 2 2)
      (Main.credit_access 2) (Main.se_indicator 2) (1 / 4)
    = Ok (PyFloat b, PyFloat c1, PyFloat ((c1 - b) / b * 100)) /\
    counterfactual_analysis (synthetic_model 1) (zeros 2 5) (zeros 2 2)
      (Main.credit_access 2) (Main.se_indicator 2) (1 / 2)
    = Ok (PyFloat b, PyFloat c2, PyFloat ((c2 - b) / b * 100)) /\
    c2 <= c1 /\ (c2 - b) / b * 100 <= (c1 - b) / b * 100 /\
    (0 <= 1 / 4 -> c1 <= b).
Proof.
  apply (closure_rate_monotone (synthetic_model 1) Main.x_dim Main.z_dim);
    try reflexivity; try apply synthetic_model_shapes.
  - simpl. lia.
  - intros i _. cbn. repeat split; lra.
  - lra.
Defined.

(** ** A new model and the batch of a single individual *)

(** X11: a model as [__init__] returns it is in train mode.  With at least
    one hidden layer, [forward] on a batch of a single individual (of the
    documented widths) raises ValueError, whatever the credit access and
    self-employment tensors; after [eval()] the same call returns on the
    documented shapes. *)
Theorem new_model_rejects_single_row (n_alt x_dim z_dim : nat)
    (tastenet_hidden : list nat) (b0 d0 : nat -> nat -> R)
    (net : bool -> Tensor -> nat -> R) (m : TasteNetMNL)
    (X Z : Tensor) :
  TasteNetMNL_init n_alt x_dim z_dim tastenet_hidden b0 d0 net = Ok m ->
  tastenet_hidden <> [] ->
  rows X = 1%nat -> cols X = x_dim -> rows Z = 1%nat -> cols Z = z_dim ->
  (forall credit_access se_indicator,
     forward m X Z credit_access se_indicator = Raise ValueError) /\
  (forall credit_access se_indicator,
     rows credit_access = 1%nat -> cols credit_access = n_alt ->
     rows se_indicator = 1%nat -> cols se_indicator = n_alt ->
     exists lp g,
       forward (TasteNetMNL_eval m) X Z credit_access se_indicator
       = Ok (lp, g)).
Proof.
  intros Hinit Hhid HXr HXc HZr HZc.
  pose proof (TasteNetMNL_init_shapes _ _ _ _ _ _ _ _ Hinit)
    as (Hm & HJ & Htr).
  assert (Hh : hidden_dims (tastenet m) = tastenet_hidden).
  { unfold TasteNetMNL_init in Hinit. destruct n_alt; [discriminate|].
    injection Hinit as <-. reflexivity. }
  split.
  - intros C S.
    destruct Hm as (_ & Hbr & _ & Hdr & _ & Hin).
    destruct (V_base_total m X) as (Vb & EVb & _); [congruence|].
    destruct (V_infra_total m X Z) as (Vi & EVi & _); [congruence..|].
    unfold forward, utility. rewrite EVb. cbn [bind]. rewrite EVi. cbn [bind].
    unfold TasteNet_forward.
    rewrite HXc, Hin, Nat.eqb_refl, Htr, Hh, HXr. cbn [negb andb Nat.eqb].
    destruct tastenet_hidden; [contradiction | reflexivity].
  - intros C S HCr HCc HSr HSc.
    assert (HJ' : n_alternatives (TasteNetMNL_eval m) = n_alt) by exact HJ.
    destruct (utility_total (TasteNetMNL_eval m) x_dim z_dim X Z C S
                (eval_shapes m x_dim z_dim Hm) (or_introl eq_refl) HXc
                ltac:(congruence) HZc ltac:(congruence) ltac:(congruence)
                ltac:(congruence) ltac:(congruence))
      as (V & g & EV & _).
    exists (log_softmax V), g. unfold forward. rewrite EV. reflexivity.
Qed.

Lemma new_model_rejects_single_row_witness :
  exists m,
    TasteNetMNL_init 9 5 2 [32; 16]%nat (fun _ _ => 0) (fun _ _ => 0)
      (fun _ _ _ => 1) = Ok m /\
    forward m (zeros 1 5) (zeros 1 2) (Main.credit_access 1)
      (Main.se_indicator 1) = Raise ValueError /\
    exists lp g,
      forward (TasteNetMNL_eval m) (zeros 1 5) (zeros 1 2)
        (Main.credit_access 1) (Main.se_indicator 1) = Ok (lp, g).
Proof.
  eexists. split; [reflexivity|].
  destruct (new_model_rejects_single_row 9 5 2 [32; 16]%nat (fun _ _ => 0)
              (fun _ _ => 0) (fun _ _ _ => 1) _ (zeros 1 5) (zeros 1 2)
              eq_refl ltac:(discriminate) eq_refl eq_refl eq_refl eq_refl)
    as [Hraise Hret].
  split; [apply Hraise|].
  apply Hret; reflexivity.
Defined.

(** ** The layers of the taste network in eval mode *)

Lemma TasteNet_layers_fold (draw : nat -> (nat -> nat -> R) * (nat -> R))
    (output_dim : nat) (hidden_dims : list nat) :
  forall (acc : list Layer) (prev_dim : nat) layers last,
    fold_left
      (fun '(layers, prev_dim) hidden_dim =>
         (layers ++ hidden_block prev_dim hidden_dim
                      (fst (draw (length layers)))
                      (snd (draw (length layers))),
          hidden_dim))
      hidden_dims (acc, prev_dim) = (layers, last) ->
    exists tl,
      layers ++ [Linear last output_dim (fst (draw (length layers)))
                   (snd (draw (length layers)))] = acc ++ tl /\
      architecture prev_dim hidden_dims output_dim tl.
Proof.
  induction hidden_dims as [|h hs IH]; intros acc prev layers last E.
  - cbn [fold_left] in E. injection E as <- <-.
    eexists. split; [reflexivity|]. cbn. auto.
  - cbn [fold_left] in E. apply IH in E. destruct E as (tl & E & Harch).
    exists (hidden_block prev h (fst (draw (length acc)))
              (snd (draw (length acc))) ++ tl).
    split.
    + rewrite E, <- app_assoc. reflexivity.
    + cbn. repeat split; try exact Harch. intros _. lra.
Qed.

(** The stack that [__init__] builds has the architecture. *)
Lemma TasteNet_layers_architecture
    (draw : nat -> (nat -> nat -> R) * (nat -> R))
    (input_dim : nat) (hidden_dims : list nat) (output_dim : nat) :
  architecture input_dim hidden_dims output_dim
    (TasteNet_layers draw input_dim hidden_dims output_dim).
Proof.
  unfold TasteNet_layers.
  destruct (fold_left _ hidden_dims ([], input_dim)) as [layers last] eqn:E.
  destruct (TasteNet_layers_fold draw output_dim hidden_dims _ _ _ _ E)
    as (tl & -> & H).
  exact H.
Qed.

Ltac architecture_inv H :=
  cbn [architecture] in H;
  repeat match type of H with
         | match ?l with _ => _ end => destruct l; try contradiction
         end.

Lemma architecture_forward (output_dim : nat) (hidden_dims : list nat) :
  forall (prev_dim : nat) (layers : list Layer) (x : Tensor),
    architecture prev_dim hidden_dims output_dim layers ->
    (cols x = prev_dim ->
     exists y, Sequential_forward layers x = Ok y /\
               rows y = rows x /\ cols y = output_dim) /\
    (cols x <> prev_dim -> Sequential_forward layers x = Raise RuntimeError).
Proof.
  induction hidden_dims as [|h hs IH]; intros prev layers x H.
  - architecture_inv H. destruct H as [-> ->].
    cbn [Sequential_forward Layer_forward]. split; intros Hc.
    + rewrite Hc, Nat.eqb_refl. cbn [bind]. eexists.
      split; [reflexivity|]. cbn. auto.
    + apply Nat.eqb_neq in Hc. rewrite Hc. reflexivity.
  - architecture_inv H. destruct H as (-> & -> & -> & _ & H).
    cbn [Sequential_forward Layer_forward]. split; intros Hc.
    + rewrite Hc, Nat.eqb_refl. cbn [bind cols]. rewrite Nat.eqb_refl.
      cbn [bind].
      match goal with
      | |- exists y, Sequential_forward _ ?t = _ /\ _ =>
          destruct (proj1 (IH _ _ t H) eq_refl) as (y & Ey & Ry & Cy)
      end.
      exists y. split; [exact Ey|]. split; [exact Ry | exact Cy].
    + apply Nat.eqb_neq in Hc. rewrite Hc. reflexivity.
Qed.

Lemma Layer_forward_same_row (l : Layer) (x x' y y' : Tensor) (i i' : nat) :
  Layer_forward l x = Ok y -> Layer_forward l x' = Ok y' ->
  same_row x i x' i' -> same_row y i y' i'.
Proof.
  intros E E' [Hc Hrow]. destruct l as [n k w b| |n rm rv w b|p];
    cbn [Layer_forward] in E, E'.
  - destruct (Nat.eqb_spec (cols x) n) as [Hn|]; [|discriminate].
    destruct (Nat.eqb (cols x') n); [|discriminate].
    injection E as <-. injection E' as <-. split; [reflexivity|].
    intros j _. cbn [entry]. f_equal. apply big_sum_ext.
    intros c Hcn. rewrite Hrow by lia. reflexivity.
  - injection E as <-. injection E' as <-. split; [exact Hc|].
    intros j Hj. cbn [entry cols] in *. rewrite Hrow by exact Hj.
    reflexivity.
  - destruct (Nat.eqb_spec (cols x) n) as [Hn|]; [|discriminate].
    destruct (Nat.eqb (cols x') n); [|discriminate].
    injection E as <-. injection E' as <-. split; [reflexivity|].
    intros j Hj. cbn [entry cols] in *. rewrite Hrow by lia. reflexivity.
  - injection E as <-. injection E' as <-. split; assumption.
Qed.

Lemma Sequential_forward_same_row (layers : list Layer) :
  forall (x x' y y' : Tensor) (i i' : nat),
    Sequential_forward layers x = Ok y ->
    Sequential_forward layers x' = Ok y' ->
    same_row x i x' i' -> same_row y i y' i'.
Proof.
  induction layers as [|l rest IH]; intros x x' y y' i i' E E' H.
  - injection E as <-. injection E' as <-. exact H.
  - cbn [Sequential_forward] in E, E'.
    apply bind_ok in E. destruct E as (z & Ez & E).
    apply bind_ok in E'. destruct E' as (z' & Ez' & E').
    apply (IH z z' y y' i i' E E').
    exact (Layer_forward_same_row l x x' z z' i i' Ez Ez' H).
Qed.

(** X12: in eval mode a stack with the architecture of
    [TasteNet(input_dim, hidden_dims, output_dim)] returns on every batch
    of width [input_dim], empty or not, a tensor of shape
    [batch, output_dim], and raises RuntimeError on every other width. *)
Theorem tastenet_stack_forward (input_dim : nat) (hidden_dims : list nat)
    (output_dim : nat) (layers : list Layer) (x : Tensor) :
  architecture input_dim hidden_dims output_dim layers ->
  (cols x = input_dim ->
   exists y, Sequential_forward layers x = Ok y /\
             rows y = rows x /\ cols y = output_dim) /\
  (cols x <> input_dim -> Sequential_forward layers x = Raise RuntimeError).
Proof. apply architecture_forward. Qed.

Lemma tastenet_stack_forward_witness :
  (exists y,
      Sequential_forward (TasteNet_layers unit_draw 5 [32; 16]%nat 1)
        (zeros 3 5) = Ok y /\ rows y = 3%nat /\ cols y = 1%nat) /\
  Sequential_forward (TasteNet_layers unit_draw 5 [32; 16]%nat 1) (zeros 3 4)
  = Raise RuntimeError.
Proof.
  destruct (tastenet_stack_forward 5 [32; 16]%nat 1
              (TasteNet_layers unit_draw 5 [32; 16]%nat 1) (zeros 3 5)
              (TasteNet_layers_architecture unit_draw 5 [32; 16]%nat 1))
    as [Hok _].
  destruct (tastenet_stack_forward 5 [32; 16]%nat 1
              (TasteNet_layers unit_draw 5 [32; 16]%nat 1) (zeros 3 4)
              (TasteNet_layers_architecture unit_draw 5 [32; 16]%nat 1))
    as [_ Herr].
  split; [apply Hok; reflexivity | apply Herr; simpl; lia].
Defined.

(** X13: in eval mode the output row of an individual depends on the
    input row of that individual alone: two batches that hold the same
    numbers in rows [i] and [i'] give the same numbers in rows [i] and
    [i'] of the results, whatever else the batches hold. *)
Theorem tastenet_stack_row_independent (layers : list Layer)
    (x x' y y' : Tensor) (i i' : nat) :
  Sequential_forward layers x = Ok y ->
  Sequential_forward layers x' = Ok y' ->
  cols x = cols x' ->
  (forall j, (j < cols x)%nat -> entry x i j = entry x' i' j) ->
  cols y = cols y' /\
  forall j, (j < cols y)%nat -> entry y i j = entry y' i' j.
Proof.
  intros E E' Hc Hrow.
  exact (Sequential_forward_same_row layers x x' y y' i i' E E'
           (conj Hc Hrow)).
Qed.

Lemma tastenet_stack_row_independent_witness :
  exists y y',
    Sequential_forward (TasteNet_layers unit_draw 2 [2]%nat 1)
      (tensor_of [[1; 2]; [3; 4]]) = Ok y /\
    Sequential_forward (TasteNet_layers unit_draw 2 [2]%nat 1)
      (tensor_of [[3; 4]]) = Ok y' /\
    entry y 1 0 = entry y' 0 0.
Proof.
  eexists. eexists. split; [reflexivity|]. split; [reflexivity|].
  refine (proj2 (tastenet_stack_row_independent
                   (TasteNet_layers unit_draw 2 [2]%nat 1)
                   (tensor_of [[1; 2]; [3; 4]]) (tensor_of [[3; 4]])
                   _ _ 1%nat 0%nat eq_refl eq_refl eq_refl _) 0%nat _).
  - intros j Hj. cbn in Hj.
    destruct j as [|[|j]]; [reflexivity | reflexivity | lia].
  - cbn. lia.
Defined.

(** ** One individual in different batches *)

Lemma max_upto_ext (f g : nat -> R) (n : nat) :
  (forall k, (k <= n)%nat -> f k = g k) -> max_upto f n = max_upto g n.
Proof.
  induction n as [|n IH]; intros E; cbn [max_upto].
  - apply E. lia.
  - rewrite IH by (intros k Hk; apply E; lia).
    rewrite (E (S n)) by lia. reflexivity.
Qed.

Lemma log_softmax_same_row (V V' : Tensor) (i i' : nat) :
  same_row V i V' i' -> same_row (log_softmax V) i (log_softmax V') i'.
Proof.
  intros [Hc Hrow]. split; [exact Hc|].
  cbn [cols log_softmax entry]. intros j Hj.
  assert (Hmax : row_max V i = row_max V' i').
  { unfold row_max. rewrite <- Hc. apply max_upto_ext.
    intros k Hk. apply Hrow. lia. }
  rewrite <- Hc, Hmax, (Hrow j Hj). do 2 f_equal.
  apply big_sum_ext. intros k Hk. rewrite (Hrow k Hk). reflexivity.
Qed.

Lemma bentry_row (T : Tensor) (i j : nat) :
  (i < rows T)%nat ->
  bentry T i j = entry T i (if Nat.eqb (cols T) 1 then O else j).
Proof.
  intros Hi. unfold bentry.
  destruct (Nat.eqb_spec (rows T) 1); [|reflexivity].
  f_equal. lia.
Qed.

Lemma V_base_same_row (m : TasteNetMNL) (X X' Vb Vb' : Tensor) (i i' : nat) :
  V_base m X = Ok Vb -> V_base m X' = Ok Vb' ->
  (i < rows X)%nat -> (i' < rows X')%nat -> same_row X i X' i' ->
  forall j, bentry Vb i j = bentry Vb' i' j.
Proof.
  intros E E' Hi Hi' [Hc Hrow] j.
  pose proof (V_base_shape _ _ _ E) as (_ & Rb & Cb & _).
  pose proof (V_base_shape _ _ _ E') as (_ & Rb' & Cb' & _).
  rewrite !bentry_row by lia. rewrite Cb, Cb'.
  unfold V_base, matmul, cat_dim1 in E, E'.
  destruct (Nat.eqb (cols X) (rows (beta m))); [|discriminate].
  destruct (Nat.eqb (cols X') (rows (beta m))); [|discriminate].
  cbn [bind rows cols zeros] in E, E'.
  destruct (Nat.eqb (rows X) (rows X)); [|discriminate].
  destruct (Nat.eqb (rows X') (rows X')); [|discriminate].
  injection E as <-. injection E' as <-. cbn [entry zeros cols].
  destruct (Nat.ltb _ 1); [reflexivity|].
  rewrite <- Hc. apply big_sum_ext. intros k Hk.
  rewrite (Hrow k Hk). reflexivity.
Qed.

Lemma V_infra_same_row (m : TasteNetMNL) (X X' Z Z' Vi Vi' : Tensor)
    (i i' : nat) :
  V_infra m X Z = Ok Vi -> V_infra m X' Z' = Ok Vi' ->
  (i < rows X)%nat -> (i' < rows X')%nat -> same_row Z i Z' i' ->
  forall j, bentry Vi i j = bentry Vi' i' j.
Proof.
  intros E E' Hi Hi' [Hc Hrow] j.
  pose proof (V_infra_shape _ _ _ _ E) as (_ & _ & Rb & Cb & _).
  pose proof (V_infra_shape _ _ _ _ E') as (_ & _ & Rb' & Cb' & _).
  rewrite !bentry_row by lia. rewrite Cb, Cb'.
  unfold V_infra, matmul, cat_dim1 in E, E'.
  destruct (Nat.eqb (cols Z) (rows (delta m))); [|discriminate].
  destruct (Nat.eqb (cols Z') (rows (delta m))); [|discriminate].
  cbn [bind rows cols zeros] in E, E'.
  destruct (Nat.eqb (rows X) (rows Z)); [|discriminate].
  destruct (Nat.eqb (rows X') (rows Z')); [|discriminate].
  injection E as <-. injection E' as <-. cbn [entry zeros cols].
  destruct (Nat.ltb _ 1); [reflexivity|].
  rewrite <- Hc. apply big_sum_ext. intros k Hk.
  rewrite (Hrow k Hk). reflexivity.
Qed.

(** X15: in eval mode the log-probabilities and the gamma of an individual
    do not depend on the batch the individual is in.  For a model whose
    taste network is a stack of layers, two calls of [forward] on the
    documented shapes whose inputs hold the same numbers in rows [i] and
    [i'] return the same log-probabilities in rows [i] and [i'], and the
    same gamma. *)
Theorem eval_forward_row_independent (m : TasteNetMNL) (x_dim z_dim : nat)
    (hidden : list nat) (layers : list Layer) (train_net : Tensor -> nat -> R)
    (X Z C S X' Z' C' S' lp g lp' g' : Tensor) (i i' : nat) :
  model_shapes m x_dim z_dim -> training m = false ->
  tastenet m = TasteNet_of x_dim hidden layers train_net ->
  architecture x_dim hidden 1 layers ->
  rows C = rows X -> cols C = n_alternatives m ->
  rows S = rows X -> cols S = n_alternatives m ->
  rows C' = rows X' -> cols C' = n_alternatives m ->
  rows S' = rows X' -> cols S' = n_alternatives m ->
  forward m X Z C S = Ok (lp, g) ->
  forward m X' Z' C' S' = Ok (lp', g') ->
  (i < rows X)%nat -> (i' < rows X')%nat ->
  same_row X i X' i' -> same_row Z i Z' i' ->
  same_row C i C' i' -> same_row S i S' i' ->
  same_row lp i lp' i' /\ entry g i 0 = entry g' i' 0.
Proof.
  intros Hm Hev Htn Harch HCr HCc HSr HSc HCr' HCc' HSr' HSc' E E' Hi Hi'
    HX HZ HC HS.
  apply forward_steps in E. destruct E as (V & EV & ->).
  apply forward_steps in E'. destruct E' as (V' & EV' & ->).
  pose proof (utility_steps _ _ _ _ _ _ _ EV)
    as (Vb & Vi & Vc & s & EVb & EVi & Eg & _ & Es & _).
  pose proof (utility_steps _ _ _ _ _ _ _ EV')
    as (Vb' & Vi' & Vc' & s' & EVb' & EVi' & Eg' & _ & Es' & _).
  pose proof (V_base_shape _ _ _ EVb) as (HXc & _).
  pose proof (V_base_shape _ _ _ EVb') as (HXc' & _).
  pose proof (V_infra_shape _ _ _ _ EVi) as (HZc & HZr & _).
  pose proof (V_infra_shape _ _ _ _ EVi') as (HZc' & HZr' & _).
  pose proof Hm as (_ & Hbr & _ & Hdr & _ & _).
  destruct (utility_total m x_dim z_dim X Z C S Hm (or_introl Hev)
              ltac:(congruence) HZr ltac:(congruence) HCr HCc HSr HSc)
    as (V0 & g0 & EV0 & _ & CV & _).
  rewrite EV in EV0. injection EV0 as <- <-.
  destruct (utility_total m x_dim z_dim X' Z' C' S' Hm (or_introl Hev)
              ltac:(congruence) HZr' ltac:(congruence) HCr' HCc' HSr' HSc')
    as (V0 & g0 & EV0 & _ & CV' & _).
  rewrite EV' in EV0. injection EV0 as <- <-.
  (* gamma *)
  assert (Hg : network (tastenet m) (training m) X i
               = network (tastenet m) (training m) X' i').
  { rewrite Htn, Hev. cbn [network TasteNet_of].
    destruct (proj1 (architecture_forward 1 hidden x_dim layers X Harch)
                ltac:(congruence)) as (y & Ey & _ & Cy).
    destruct (proj1 (architecture_forward 1 hidden x_dim layers X' Harch)
                ltac:(congruence)) as (y' & Ey' & _ & Cy').
    rewrite Ey, Ey'.
    apply (Sequential_forward_same_row layers X X' y y' i i' Ey Ey' HX).
    lia. }
  split.
  - apply log_softmax_same_row. split; [congruence|].
    intros j Hj. rewrite CV in Hj.
    destruct (utility_entry _ _ _ _ _ _ _ EV) as (t & Et & _ & HV).
    destruct (utility_entry _ _ _ _ _ _ _ EV') as (t' & Et' & _ & HV').
    unfold linear_utility in Et, Et'.
    rewrite EVb, EVi in Et. rewrite EVb', EVi' in Et'. cbn [bind] in Et, Et'.
    unfold tadd in Et, Et'.
    rewrite HV, HV'.
    rewrite (broadcast2_bentry _ _ _ _ Et), (broadcast2_bentry _ _ _ _ Et').
    rewrite (V_base_same_row m X X' Vb Vb' i i' EVb EVb' Hi Hi' HX j).
    rewrite (V_infra_same_row m X X' Z Z' Vi Vi' i i' EVi EVi' Hi Hi' HZ j).
    rewrite (gamma_read _ _ _ _ i j Eg Hi), (gamma_read _ _ _ _ i' j Eg' Hi').
    rewrite Hg.
    rewrite (bentry_in_shape C), (bentry_in_shape C'), (bentry_in_shape S),
      (bentry_in_shape S') by lia.
    destruct HC as [_ HC]. destruct HS as [_ HS].
    rewrite (HC j), (HS j) by lia. reflexivity.
  - apply TasteNet_forward_shape in Eg. apply TasteNet_forward_shape in Eg'.
    destruct Eg as (_ & _ & _ & Eg). destruct Eg' as (_ & _ & _ & Eg').
    rewrite Eg, Eg'. exact Hg.
Qed.

Lemma eval_forward_row_independent_witness :
  exists lp g lp' g',
    forward stack_model (tensor_of [[1; 2]; [3; 4]]) (tensor_of [[1]; [2]])
      small_credit small_se = Ok (lp, g) /\
    forward stack_model (tensor_of [[3; 4]]) (tensor_of [[2]])
      (tensor_of [[0; 1; 1]]) (tensor_of [[0; 1; 0]]) = Ok (lp', g') /\
    same_row lp 1 lp' 0 /\ entry g 1 0 = entry g' 0 0.
Proof.
  eexists. eexists. eexists. eexists.
  split; [reflexivity|]. split; [reflexivity|].
  apply (eval_forward_row_independent stack_model 2 1 [2]%nat
           (TasteNet_layers unit_draw 2 [2]%nat 1) (fun _ _ => 0)
           (tensor_of [[1; 2]; [3; 4]]) (tensor_of [[1]; [2]])
           small_credit small_se
           (tensor_of [[3; 4]]) (tensor_of [[2]])
           (tensor_of [[0; 1; 1]]) (tensor_of [[0; 1; 0]]));
    try reflexivity; try (cbn; lia);
    try (apply TasteNet_layers_architecture);
    try (unfold model_shapes; cbn; repeat split; lia);
    try (split; [reflexivity|]; intros j Hj; cbn in Hj;
         destruct j as [|[|[|j]]]; try reflexivity; lia).
Defined.

(** ** The analysis of the learned gamma *)

Lemma flat_map_singleton {A B : Type} (f : A -> B) (l : list A) :
  flat_map (fun a => [f a]) l = map f l.
Proof. induction l as [|a l IH]; cbn; [reflexivity | now rewrite IH]. Qed.

(** The flat array of a tensor with one column. *)
Lemma flatten_column (T : Tensor) :
  cols T = 1%nat ->
  flatten T = map (fun i => entry T i 0) (seq 0 (rows T)).
Proof.
  intros Hc. unfold flatten. rewrite Hc. cbn [seq map].
  apply flat_map_singleton.
Qed.

Lemma kmeans_loop_ok (a : list R) :
  (5 <= length a)%nat -> kmeans_loop [2; 3; 4; 5]%nat a = Ok tt.
Proof.
  intros H. cbn [kmeans_loop]. unfold kmeans_fit.
  assert (E : forall k, (k <= 5)%nat -> Nat.ltb (length a) k = false)
    by (intros k Hk; apply Nat.ltb_ge; lia).
  rewrite !E by lia. reflexivity.
Qed.

Lemma kmeans_loop_raises (a : list R) :
  (length a < 5)%nat -> kmeans_loop [2; 3; 4; 5]%nat a = Raise ValueError.
Proof.
  intros H. cbn [kmeans_loop]. unfold kmeans_fit.
  destruct (Nat.ltb_spec (length a) 2); [reflexivity|]. cbn [bind].
  destruct (Nat.ltb_spec (length a) 3); [reflexivity|]. cbn [bind].
  destruct (Nat.ltb_spec (length a) 4); [reflexivity|]. cbn [bind].
  destruct (Nat.ltb_spec (length a) 5); [reflexivity|]. lia.
Qed.

(** X16: on at least five individuals the analysis returns, whatever the
    mode the model was in, the flat array of the gamma that [forward]
    computes in eval mode: one number per individual, in the order of the
    batch. *)
Theorem analysis_returns_eval_gamma {F : Type} (m : TasteNetMNL)
    (X Z credit_access se_indicator lp g : Tensor) (feature_names : F) :
  forward (TasteNetMNL_eval m) X Z credit_access se_indicator = Ok (lp, g) ->
  (5 <= rows X)%nat ->
  analyze_taste_heterogeneity m X feature_names = Ok (flatten g) /\
  analyze_taste_heterogeneity (TasteNetMNL_train m) X feature_names
  = Ok (flatten g) /\
  length (flatten g) = rows X /\
  forall i, (i < rows X)%nat ->
            nth i (flatten g) 0 = network (tastenet m) false X i.
Proof.
  intros E Hn.
  apply forward_steps in E. destruct E as (V & EV & _).
  apply utility_steps in EV.
  destruct EV as (_ & _ & _ & _ & _ & _ & Eg & _).
  cbn [tastenet training TasteNetMNL_eval] in Eg.
  pose proof (TasteNet_forward_shape _ _ _ _ Eg) as (_ & Rg & Cg & Hg).
  assert (Hlen : length (flatten g) = rows X).
  { rewrite (flatten_column g Cg), length_map, length_seq. exact Rg. }
  assert (Hrun : forall m0, tastenet m0 = tastenet m ->
             analyze_taste_heterogeneity m0 X feature_names
             = Ok (flatten g)).
  { intros m0 Hm0. unfold analyze_taste_heterogeneity.
    cbn [tastenet training TasteNetMNL_eval]. rewrite Hm0, Eg. cbn [bind].
    destruct (flatten g) as [|x rest] eqn:Ef; [cbn in Hlen; lia|].
    cbn [np_min np_max bind]. rewrite kmeans_loop_ok by lia. reflexivity. }
  split; [apply Hrun; reflexivity|].
  split; [apply Hrun; reflexivity|].
  split; [exact Hlen|].
  intros i Hi. rewrite (flatten_column g Cg).
  rewrite (nth_indep _ 0 ((fun i => entry g i 0) O))
    by (rewrite length_map, length_seq; lia).
  rewrite (map_nth (fun i => entry g i 0)), seq_nth by lia.
  cbn [Nat.add]. apply Hg.
Qed.

Lemma analysis_returns_eval_gamma_witness :
  exists lp g,
    forward (TasteNetMNL_eval (synthetic_model 1)) (zeros 5 5) (zeros 5 2)
      (Main.credit_access 5) (Main.se_indicator 5) = Ok (lp, g) /\
    analyze_taste_heterogeneity (synthetic_model 1) (zeros 5 5) tt
    = Ok (flatten g) /\
    flatten g = [1; 1; 1; 1; 1].
Proof.
  eexists. eexists. split; [reflexivity|].
  split; [|reflexivity].
  refine (proj1 (analysis_returns_eval_gamma (synthetic_model 1) (zeros 5 5)
                   (zeros 5 2) (Main.credit_access 5) (Main.se_indicator 5)
                   _ _ tt eq_refl _)).
  simpl. lia.
Defined.

(** X17: the analysis raises RuntimeError on a batch of the wrong width,
    and ValueError on a batch of the right width with fewer than five
    individuals: numpy's [min] rejects an empty array, and KMeans rejects
    fewer samples than clusters, of which the loop asks up to five. *)
Theorem analysis_small_batch_raises {F : Type} (m : TasteNetMNL)
    (X : Tensor) (feature_names : F) :
  (cols X <> input_dim (tastenet m) ->
   analyze_taste_heterogeneity m X feature_names = Raise RuntimeError) /\
  (cols X = input_dim (tastenet m) -> (rows X < 5)%nat ->
   analyze_taste_heterogeneity m X feature_names = Raise ValueError).
Proof.
  unfold analyze_taste_heterogeneity, TasteNet_forward.
  cbn [tastenet training TasteNetMNL_eval andb]. split.
  - intros Hc. apply Nat.eqb_neq in Hc. rewrite Hc. reflexivity.
  - intros Hc Hn. rewrite Hc, Nat.eqb_refl. cbn [negb bind].
    set (g := mkTensor (rows X) 1 _).
    assert (Hlen : length (flatten g) = rows X)
      by (rewrite (flatten_column g eq_refl), length_map, length_seq;
          reflexivity).
    destruct (flatten g) as [|x rest] eqn:Ef; [reflexivity|].
    cbn [np_min np_max bind]. rewrite kmeans_loop_raises by lia.
    reflexivity.
Qed.

Lemma analysis_small_batch_raises_witness :
  analyze_taste_heterogeneity (synthetic_model 1) (zeros 4 5) tt
  = Raise ValueError.
Proof.
  apply (proj2 (analysis_small_batch_raises (synthetic_model 1) (zeros 4 5)
                  tt)).
  - reflexivity.
  - simpl. lia.
Defined.

(** ** Tensors of a single row *)

Lemma broadcast_dim_one_r (a : nat) : broadcast_dim a 1 = Some a.
Proof.
  unfold broadcast_dim. destruct (Nat.eqb_spec a 1) as [->|]; reflexivity.
Qed.

Lemma broadcast2_expand (op : R -> R -> R) (A B : Tensor) :
  rows B = 1%nat ->
  broadcast2 op A (expand_rows B (rows A)) = broadcast2 op A B.
Proof.
  intros HB. unfold broadcast2.
  cbn [rows cols expand_rows].
  rewrite HB, broadcast_dim_same, broadcast_dim_one_r.
  destruct (broadcast_dim (cols A) (cols B)); [|reflexivity].
  do 2 f_equal. extensionality i. extensionality j. f_equal.
  unfold bentry. cbn [rows cols entry expand_rows]. rewrite HB.
  destruct (Nat.eqb (rows A) 1); reflexivity.
Qed.

(** X18: in eval mode, where a call of the taste network draws no random
    mask, a credit access or self-employment tensor of a single row stands
    for that row repeated for every individual: [forward] returns (or
    raises) the same on the one-row tensors as on their expansions to the
    batch size. *)
Theorem forward_single_row_is_repeated (m : TasteNetMNL)
    (X Z credit_access se_indicator : Tensor) :
  training m = false ->
  rows credit_access = 1%nat -> rows se_indicator = 1%nat ->
  forward m X Z (expand_rows credit_access (rows X))
    (expand_rows se_indicator (rows X))
  = forward m X Z credit_access se_indicator.
Proof.
  intros _ HC HS. unfold forward, utility.
  destruct (V_base m X) as [Vb|e]; [|reflexivity]. cbn [bind].
  destruct (V_infra m X Z) as [Vi|e]; [|reflexivity]. cbn [bind].
  destruct (TasteNet_forward (tastenet m) (training m) X) as [g|e] eqn:Eg;
    [|reflexivity].
  cbn [bind]. apply TasteNet_forward_shape in Eg.
  destruct Eg as (_ & Rg & _).
  unfold V_credit, tmul. rewrite <- Rg.
  rewrite (broadcast2_expand Rmult g credit_access HC).
  destruct (broadcast2 Rmult g credit_access) as [t|e] eqn:Et;
    [|reflexivity].
  cbn [bind].
  assert (Rt : rows t = rows g).
  { apply broadcast2_shape in Et. destruct Et as [Hr _].
    rewrite HC, broadcast_dim_one_r in Hr. now injection Hr. }
  rewrite <- Rt, (broadcast2_expand Rmult t se_indicator HS).
  reflexivity.
Qed.

Lemma forward_single_row_is_repeated_witness :
  forward small_model small_X small_Z
    (expand_rows (tensor_of [[0; 1; 1]]) 2)
    (expand_rows (tensor_of [[0; 1; 0]]) 2)
  = forward small_model small_X small_Z (tensor_of [[0; 1; 1]])
      (tensor_of [[0; 1; 0]]).
Proof.
  apply (forward_single_row_is_repeated small_model small_X small_Z
           (tensor_of [[0; 1; 1]]) (tensor_of [[0; 1; 0]]));
    reflexivity.
Defined.
